(** * Lumina-Layers: 3MF name fixing, assembly synthesis and colouring

    A shallow embedding of [utils/helpers.py] (the textual name-fix and
    assembly pass, the archive rewrite) and of [utils/add_3mf_colors.py]
    (colour-mode detection, colorgroup insertion, triangle and build-item
    tagging), followed by the properties of the specification proved or
    refuted on that embedding.

    Conventions of the model.
    - A Python [str] is a list of characters; a character is a code point
      below 256 (the classes [\s], [\d], [\w] are the Unicode ones
      restricted to that range).  [bytes] is a list of bytes.
    - A Python [dict] is an association list in insertion order.
    - ElementTree elements live in a store of nodes addressed by location,
      so that the references kept in the object catalogue alias the nodes of
      the document.
    - [print] calls are not modelled. *)

From Stdlib Require Import List Arith Bool Lia NArith.
From Stdlib Require Import Strings.Ascii.
From Stdlib Require Strings.String.
Import String.StringSyntax.
Bind Scope string_scope with String.string.
From Stdlib Require Strings.Byte.
From Stdlib Require DecimalN.
Import ListNotations.

Set Implicit Arguments.

(* ================================================================== *)
(** * Python strings *)
(* ================================================================== *)

Definition str := list ascii.
Definition bytes := list Byte.byte.

Definition lit (s : String.string) : str := String.list_ascii_of_string s.

(** The double quote and the line feed, which the literals of the source
    contain. *)
Definition dq : ascii := "034"%char.
Definition nl : ascii := "010"%char.

Module Str.

Definition code (c : ascii) : nat := nat_of_ascii c.

Definition between (lo hi : nat) (c : ascii) : bool :=
  (lo <=? code c) && (code c <=? hi).

(** [str.isspace] on code points below 256, the class [\s]. *)
Definition is_space (c : ascii) : bool :=
  between 9 13 c || between 28 32 c || (code c =? 133) || (code c =? 160).

(** The class [\d]: decimal digits (below 256, only 0-9). *)
Definition is_digit (c : ascii) : bool := between 48 57 c.

(** The class [\w]: alphanumeric characters and the underscore. *)
Definition is_word (c : ascii) : bool :=
  between 48 57 c || between 65 90 c || between 97 122 c || (code c =? 95)
  || (code c =? 170) || (code c =? 178) || (code c =? 179) || (code c =? 181)
  || (code c =? 185) || (code c =? 186) || between 188 190 c
  || between 192 214 c || between 216 246 c || between 248 255 c.

(** Lower-casing of the ASCII letters, for [re.IGNORECASE] against an
    ASCII literal. *)
Definition lower (c : ascii) : ascii :=
  if between 65 90 c then ascii_of_nat (code c + 32) else c.

Definition eqb (a b : str) : bool :=
  if list_eq_dec ascii_dec a b then true else false.

Fixpoint take_while (p : ascii -> bool) (s : str) : str :=
  match s with
  | c :: tl => if p c then c :: take_while p tl else []
  | [] => []
  end.

Fixpoint drop_while (p : ascii -> bool) (s : str) : str :=
  match s with
  | c :: tl => if p c then drop_while p tl else s
  | [] => []
  end.

(** [s.startswith(p)] *)
Fixpoint startswith (p s : str) : bool :=
  match p, s with
  | [], _ => true
  | a :: p', b :: s' => Ascii.eqb a b && startswith p' s'
  | _ :: _, [] => false
  end.

(** [s.startswith(p)] up to the case of ASCII letters; [p] is lower case. *)
Fixpoint startswith_nocase (p s : str) : bool :=
  match p, s with
  | [], _ => true
  | a :: p', b :: s' => Ascii.eqb a (lower b) && startswith_nocase p' s'
  | _ :: _, [] => false
  end.

(** [s.endswith(p)] *)
Definition endswith (p s : str) : bool :=
  (length p <=? length s) && eqb (skipn (length s - length p) s) p.

(** [s.find(sub)]: the lowest index where [sub] occurs, [None] for -1. *)
Fixpoint find (sub s : str) : option nat :=
  if startswith sub s then Some 0
  else match s with
       | [] => None
       | _ :: tl => option_map S (find sub tl)
       end.

(** [sub in s] *)
Definition contains (sub s : str) : bool :=
  match find sub s with Some _ => true | None => false end.

(** Index of the first character satisfying [p]. *)
Fixpoint index_where (p : ascii -> bool) (s : str) : option nat :=
  match s with
  | [] => None
  | c :: tl => if p c then Some 0 else option_map S (index_where p tl)
  end.

(** [s.split(sep)] for a one-character separator. *)
Fixpoint split (sep : ascii) (s : str) : list str :=
  match s with
  | [] => [[]]
  | c :: tl =>
      if Ascii.eqb c sep then [] :: split sep tl
      else match split sep tl with
           | piece :: rest => (c :: piece) :: rest
           | [] => [[c]]
           end
  end.

(** [sep.join(parts)] *)
Fixpoint join (sep : str) (parts : list str) : str :=
  match parts with
  | [] => []
  | [p] => p
  | p :: rest => p ++ sep ++ join sep rest
  end.

(** [x in l] for a list of strings. *)
Definition mem (x : str) (l : list str) : bool := existsb (eqb x) l.

(** [int(s)] for a string of decimal digits. *)
Definition int (s : str) : N :=
  fold_left (fun acc c => (acc * 10 + N.of_nat (code c - 48))%N) s 0%N.

Fixpoint of_uint (d : Decimal.uint) : str :=
  match d with
  | Decimal.Nil => []
  | Decimal.D0 d => "0"%char :: of_uint d
  | Decimal.D1 d => "1"%char :: of_uint d
  | Decimal.D2 d => "2"%char :: of_uint d
  | Decimal.D3 d => "3"%char :: of_uint d
  | Decimal.D4 d => "4"%char :: of_uint d
  | Decimal.D5 d => "5"%char :: of_uint d
  | Decimal.D6 d => "6"%char :: of_uint d
  | Decimal.D7 d => "7"%char :: of_uint d
  | Decimal.D8 d => "8"%char :: of_uint d
  | Decimal.D9 d => "9"%char :: of_uint d
  end.

(** [str(n)] for a natural number. *)
Definition of_N (n : N) : str := of_uint (N.to_uint n).

End Str.

(* ================================================================== *)
(** * Python dictionaries *)
(* ================================================================== *)

Module Dict.
Section Dict.
Variables K V : Type.
Variable keq : K -> K -> bool.

Definition t := list (K * V).

Fixpoint get (d : t) (k : K) : option V :=
  match d with
  | [] => None
  | (k', v) :: rest => if keq k k' then Some v else get rest k
  end.

(** [k in d] *)
Definition mem (d : t) (k : K) : bool :=
  match get d k with Some _ => true | None => false end.

(** [d[k] = v]: an existing key keeps its place, a new key goes last. *)
Fixpoint set (d : t) (k : K) (v : V) : t :=
  match d with
  | [] => [(k, v)]
  | (k', v') :: rest =>
      if keq k k' then (k', v) :: rest else (k', v') :: set rest k v
  end.

Definition keys (d : t) : list K := map fst d.
End Dict.
End Dict.

(** Dictionaries keyed by strings. *)
Definition sdict (V : Type) := Dict.t str V.
Definition sget (V : Type) (d : sdict V) (k : str) : option V :=
  Dict.get Str.eqb d k.
Definition smem (V : Type) (d : sdict V) (k : str) : bool :=
  Dict.mem Str.eqb d k.
Definition sset (V : Type) (d : sdict V) (k : str) (v : V) : sdict V :=
  Dict.set Str.eqb d k v.

(* ================================================================== *)
(** * The regular expressions of helpers.py *)
(* ================================================================== *)

Module Re.

(** A match of [object_pattern] (the literal <object in any case, white
    space, any characters but >, then >) anchored at the head of [s]: its
    length and group 1.  The greedy white-space run takes all the white
    space; the negated class then runs to the first >, which must exist. *)
Definition object_here (s : str) : option (nat * str) :=
  if Str.startswith_nocase (lit "<object") s then
    let rest := skipn 7 s in
    let ws := Str.take_while Str.is_space rest in
    let after := Str.drop_while Str.is_space rest in
    match ws with
    | [] => None
    | _ :: _ =>
        match Str.index_where (Ascii.eqb ">"%char) after with
        | Some j => Some (7 + length ws + j + 1, firstn j after)
        | None => None
        end
    end
  else None.

(** [object_pattern.finditer(content)]: the non-overlapping matches from
    left to right, as (start, end, group 0, group 1).  [skip] counts the
    characters of [s] still covered by the previous match; [pos] is the
    offset of [s] in the content. *)
Fixpoint finditer_object (skip pos : nat) (s : str)
  : list (nat * nat * str * str) :=
  match s with
  | [] => []
  | _ :: tl =>
      match skip with
      | S k => finditer_object k (S pos) tl
      | 0 =>
          match object_here s with
          | Some (len, attrs) =>
              (pos, pos + len, firstn len s, attrs)
                :: finditer_object (len - 1) (S pos) tl
          | None => finditer_object 0 (S pos) tl
          end
      end
  end.

(** A match of the literal id= followed by a quoted, non-empty run of
    digits, anchored at the head of [s]: group 1, the digits. *)
Definition id_here (s : str) : option str :=
  if Str.startswith (lit "id=" ++ [dq]) s then
    let rest := skipn 4 s in
    match Str.take_while Str.is_digit rest,
          Str.drop_while Str.is_digit rest with
    | (_ :: _) as ds, c :: _ => if Ascii.eqb c dq then Some ds else None
    | _, _ => None
    end
  else None.

(** The [re.search] of line 56 (a word boundary, then the id pattern):
    group 1 of the leftmost match.  [prev_word] tells whether the
    character before [s] is a word character; the pattern starts with the
    word character i, so the boundary holds exactly when it is not. *)
Fixpoint search_id (prev_word : bool) (s : str) : option str :=
  match s with
  | [] => None
  | c :: tl =>
      match (if prev_word then None else id_here s) with
      | Some ds => Some ds
      | None => search_id (Str.is_word c) tl
      end
  end.

(** A match of the pattern of line 74 (white space, the literal name=,
    a double-quoted value) anchored at the head of [s]: its length. *)
Definition name_here (s : str) : option nat :=
  let ws := Str.take_while Str.is_space s in
  let after := Str.drop_while Str.is_space s in
  match ws with
  | [] => None
  | _ :: _ =>
      if Str.startswith (lit "name=" ++ [dq]) after then
        match Str.index_where (Ascii.eqb dq) (skipn 6 after) with
        | Some j => Some (length ws + 6 + j + 1)
        | None => None
        end
      else None
  end.

(** The [re.sub] of line 74: every match of the name pattern is deleted. *)
Fixpoint sub_name (skip : nat) (s : str) : str :=
  match s with
  | [] => []
  | c :: tl =>
      match skip with
      | S k => sub_name k tl
      | 0 =>
          match name_here s with
          | Some len => sub_name (len - 1) tl
          | None => c :: sub_name 0 tl
          end
      end
  end.

(** [build_pattern.search(content)] (an opening build tag, a lazy run of
    any characters, a closing build tag, with [re.DOTALL]): start and end
    of the leftmost match.  The lazy run stops at the first closing tag
    after the opening one. *)
Fixpoint search_build (pos : nat) (s : str) : option (nat * nat) :=
  match s with
  | [] => None
  | _ :: tl =>
      if Str.startswith (lit "<build>") s then
        match Str.find (lit "</build>") (skipn 7 s) with
        | Some k => Some (pos, pos + 7 + k + 8)
        | None => search_build (S pos) tl
        end
      else search_build (S pos) tl
  end.

End Re.

(* ================================================================== *)
(** * helpers.py: the textual pass of safe_fix_3mf_names *)
(* ================================================================== *)

(** An entry of [obj_info]: (start_pos, end_pos, full_tag, id). *)
Definition obj_entry := (nat * nat * str * str)%type.

Definition entry_start (e : obj_entry) : nat := fst (fst (fst e)).
Definition entry_end (e : obj_entry) : nat := snd (fst (fst e)).
Definition entry_tag (e : obj_entry) : str := snd (fst e).
Definition entry_id (e : obj_entry) : str := snd e.

(** Lines 54-59: the object start-tags that carry a numeric id. *)
Fixpoint keep_with_id (ms : list (nat * nat * str * str)) : list obj_entry :=
  match ms with
  | [] => []
  | (start, stop, tag, attrs) :: rest =>
      match Re.search_id false attrs with
      | Some obj_id => (start, stop, tag, obj_id) :: keep_with_id rest
      | None => keep_with_id rest
      end
  end.

Definition scan_objects (content : str) : list obj_entry :=
  keep_with_id (Re.finditer_object 0 0 content).

(** Lines 73-75: the renamed start-tag. *)
Definition new_tag (old_tag color_name : str) : str :=
  removelast (Re.sub_name 0 old_tag)
    ++ lit " name=" ++ [dq] ++ color_name ++ [dq] ++ lit ">".

Definition enumerate (A : Type) (l : list A) : list (nat * A) :=
  combine (seq 0 (length l)) l.

(** Lines 66-77: one iteration of the loop over [enumerate(reversed(obj_info))]. *)
Definition rename_step (slot_names : list str) (n : nat)
  (content : str) (it : nat * obj_entry) : str :=
  let '(idx, (start, stop, old_tag, _)) := it in
  let real_idx := n - 1 - idx in
  if length slot_names <=? real_idx then content
  else
    let color_name := nth real_idx slot_names [] in
    firstn start content ++ new_tag old_tag color_name ++ skipn stop content.

Definition rename_objects (slot_names : list str) (obj_info : list obj_entry)
  (content : str) : str :=
  fold_left (rename_step slot_names (length obj_info))
            (enumerate (rev obj_info)) content.

(** Lines 82-83: [max(int(oid) for oid in object_ids) + 1]. *)
Definition max_id (object_ids : list str) : N :=
  fold_left N.max (map Str.int object_ids) 0%N.

(** Line 86: one component line per object id, joined by line feeds. *)
Definition component_xml (oid : str) : str :=
  lit "      <component objectid=" ++ [dq] ++ oid ++ [dq] ++ lit " />".

Definition components_xml (object_ids : list str) : str :=
  Str.join [nl] (map component_xml object_ids).

(** Lines 87-93: the assembly object. *)
Definition assembly_xml (assembly_id : N) (object_ids : list str) : str :=
  [nl] ++ lit "  <object id=" ++ [dq] ++ Str.of_N assembly_id ++ [dq]
    ++ lit " type=" ++ [dq] ++ lit "model" ++ [dq]
    ++ lit " name=" ++ [dq] ++ lit "Lumina_Model" ++ [dq] ++ lit ">" ++ [nl]
    ++ lit "    <components>" ++ [nl]
    ++ components_xml object_ids ++ [nl]
    ++ lit "    </components>" ++ [nl]
    ++ lit "  </object>" ++ [nl].

(** Line 106: the build section that references the assembly only. *)
Definition new_build (assembly_id : N) : str :=
  lit "<build>" ++ [nl]
    ++ lit "    <item objectid=" ++ [dq] ++ Str.of_N assembly_id ++ [dq]
    ++ lit " />" ++ [nl]
    ++ lit "  </build>".

(** Lines 96-98: the assembly goes before the closing resources tag, when
    there is one. *)
Definition insert_assembly (assembly_id : N) (object_ids : list str)
  (content : str) : str :=
  match Str.find (lit "</resources>") content with
  | Some resources_end =>
      firstn resources_end content
        ++ assembly_xml assembly_id object_ids
        ++ skipn resources_end content
  | None => content
  end.

(** Lines 103-107: the build section is replaced, when the pattern finds one. *)
Definition rewrite_build (assembly_id : N) (content : str) : str :=
  match Re.search_build 0 content with
  | Some (b_start, b_end) =>
      firstn b_start content ++ new_build assembly_id ++ skipn b_end content
  | None => content
  end.

(** Lines 80-108. *)
Definition create_assembly_pass (object_ids : list str) (content : str) : str :=
  let assembly_id := (max_id object_ids + 1)%N in
  rewrite_build assembly_id (insert_assembly assembly_id object_ids content).

(** Lines 49-108: the text of the model entry after name fixing and, when
    requested and more than one object was found, assembly synthesis. *)
Definition fix_text (content : str) (slot_names : list str)
  (create_assembly : bool) : str :=
  let obj_info := scan_objects content in
  let object_ids := map entry_id obj_info in
  let content := rename_objects slot_names obj_info content in
  if create_assembly && (1 <? length object_ids)
  then create_assembly_pass object_ids content
  else content.

(* ================================================================== *)
(** * Exceptions *)
(* ================================================================== *)

Inductive exn : Type :=
| BadZipFile
| KeyError
| UnicodeDecodeError
| ParseError
| ValueError (msg : str).

Inductive outcome (A : Type) : Type :=
| Returns (a : A)
| Raises (e : exn).

Arguments Returns {A} a.
Arguments Raises {A} e.

(** [x <- c ;; k]: an exception raised by [c] propagates. *)
Definition bind (A B : Type) (c : outcome A) (k : A -> outcome B) : outcome B :=
  match c with
  | Returns a => k a
  | Raises e => Raises e
  end.

Notation "x <- c ;; k" := (bind c (fun x => k))
  (at level 61, c at next level, right associativity).

(** [try: body except Exception as e: handler(e)] *)
Definition try_except (A : Type) (body : outcome A) (handler : exn -> outcome A)
  : outcome A :=
  match body with
  | Returns a => Returns a
  | Raises e => handler e
  end.

(* ================================================================== *)
(** * ZIP archives *)
(* ================================================================== *)

(** The entries of an archive in stored order; names may repeat. *)
Definition archive := list (str * bytes).

(** What is found at a path of the file system. *)
Inductive file : Type :=
| NotZip
| Zip (entries : archive).

Module ZipFile.

(** [zf.namelist()] *)
Definition namelist (a : archive) : list str := map fst a.

(** [zf.read(name)]: the data of the last entry stored under [name]. *)
Fixpoint read (a : archive) (name : str) : outcome bytes :=
  match a with
  | [] => Raises KeyError
  | (n, data) :: rest =>
      match read rest name with
      | Returns d => Returns d
      | Raises _ => if Str.eqb name n then Returns data else Raises KeyError
      end
  end.

(** [zipfile.ZipFile(path, 'r')] *)
Definition open_r (f : file) : outcome archive :=
  match f with
  | Zip a => Returns a
  | NotZip => Raises BadZipFile
  end.

(** [zipfile.is_zipfile(path)] *)
Definition is_zipfile (f : file) : bool :=
  match f with Zip _ => true | NotZip => false end.

End ZipFile.

(* ================================================================== *)
(** * ElementTree elements *)
(* ================================================================== *)

Module ET.

Definition loc := nat.

(** An element: its tag (namespaced tags in the form {uri}local), its
    attribute dictionary, its text and tail, and its children. *)
Record node : Type := mkNode {
  tag : str;
  attrib : sdict str;
  text : str;
  tail : str;
  children : list loc
}.

(** The elements in existence: [cell] gives the element at a location,
    [next] is the first location not yet handed out. *)
Record store : Type := mkStore {
  cell : loc -> node;
  next : loc
}.

Definition empty : store := mkStore (fun _ => mkNode [] [] [] [] []) 0.

Definition write (st : store) (l : loc) (n : node) : store :=
  mkStore (fun l' => if l' =? l then n else cell st l') (next st).

(** [ET.Element(tag)] *)
Definition Element (st : store) (t : str) : loc * store :=
  let l := next st in
  (l, mkStore (fun l' => if l' =? l then mkNode t [] [] [] [] else cell st l')
              (S l)).

(** [elem.get(key)] *)
Definition get (st : store) (l : loc) (key : str) : option str :=
  sget (attrib (cell st l)) key.

(** [elem.get(key, default)] *)
Definition get_default (st : store) (l : loc) (key dflt : str) : str :=
  match get st l key with Some v => v | None => dflt end.

Definition set_attrib (n : node) (key value : str) : node :=
  mkNode (tag n) (sset (attrib n) key value) (text n) (tail n) (children n).

(** [elem.set(key, value)] *)
Definition set (st : store) (l : loc) (key value : str) : store :=
  write st l (set_attrib (cell st l) key value).

Definition set_children (n : node) (cs : list loc) : node :=
  mkNode (tag n) (attrib n) (text n) (tail n) cs.

(** [parent.append(child)] *)
Definition append (st : store) (parent child : loc) : store :=
  write st parent
    (set_children (cell st parent) (children (cell st parent) ++ [child])).

(** [parent.insert(index, child)] for a non-negative index. *)
Definition insert (st : store) (parent : loc) (index : nat) (child : loc)
  : store :=
  write st parent
    (set_children (cell st parent)
       (firstn index (children (cell st parent)) ++ [child]
          ++ skipn index (children (cell st parent)))).

(** [ET.SubElement(parent, tag)] *)
Definition SubElement (st : store) (parent : loc) (t : str) : loc * store :=
  let '(c, st1) := Element st t in
  (c, append st1 parent c).

Fixpoint first_child (st : store) (p : str -> bool) (cs : list loc)
  : option loc :=
  match cs with
  | [] => None
  | c :: rest => if p (tag (cell st c)) then Some c else first_child st p rest
  end.

(** [elem.find(path)] for a path that is a single tag: the first child
    with that tag; a tag that starts with {*} matches in any namespace. *)
Definition find (st : store) (l : loc) (path : str) : option loc :=
  if Str.startswith (lit "{*}") path then
    first_child st
      (fun t => Str.eqb t (skipn 3 path) || Str.endswith (skipn 2 path) t)
      (children (cell st l))
  else first_child st (fun t => Str.eqb t path) (children (cell st l)).

End ET.

(* ================================================================== *)
(** * add_3mf_colors.py *)
(* ================================================================== *)

Definition RYBW_COLORS : sdict str :=
  [ (lit "Red", lit "#FF0000FF");
    (lit "Yellow", lit "#FFFF00FF");
    (lit "Blue", lit "#0000FFFF");
    (lit "White", lit "#FFFFFFFF") ].

Definition CMYW_COLORS : sdict str :=
  [ (lit "Cyan", lit "#00FFFFFF");
    (lit "Magenta", lit "#FF00FFFF");
    (lit "Yellow", lit "#FFFF00FF");
    (lit "White", lit "#FFFFFFFF") ].

Definition MATERIAL_NAMESPACE : str :=
  lit "http://schemas.microsoft.com/3dmanufacturing/material/2015/02".
Definition MODEL_NAMESPACE : str :=
  lit "http://schemas.microsoft.com/3dmanufacturing/core/2015/02".

(** A tag of the material namespace, {uri}local. *)
Definition material_tag (local : str) : str :=
  lit "{" ++ MATERIAL_NAMESPACE ++ lit "}" ++ local.

Definition rybw_map : sdict str :=
  [ (lit "Red", lit "1"); (lit "Yellow", lit "2");
    (lit "Blue", lit "3"); (lit "White", lit "4") ].

Definition cmyw_map : sdict str :=
  [ (lit "Cyan", lit "1"); (lit "Magenta", lit "2");
    (lit "Yellow", lit "3"); (lit "White", lit "4") ].

Definition get_colorgroup_id (color_name color_mode : str) : str :=
  let color_to_id_map :=
    if Str.eqb color_mode (lit "cmyw") then cmyw_map else rybw_map in
  match sget color_to_id_map color_name with
  | Some i => i
  | None => lit "1"
  end.

Definition rybw_count (object_names : list str) : nat :=
  length (filter (smem RYBW_COLORS) object_names).

Definition cmyw_count (object_names : list str) : nat :=
  length (filter (smem CMYW_COLORS) object_names).

Definition detect_color_mode (object_names : list str) : str :=
  if rybw_count object_names <? cmyw_count object_names then lit "cmyw"
  else if cmyw_count object_names <? rybw_count object_names then lit "rybw"
  else lit "rybw".

(** The namespace-tolerant tag test used throughout the module: [name] is
    one of the pieces of [tag.split('}')]. *)
Definition has_part (name : String.string) (t : str) : bool :=
  Str.mem (lit name) (Str.split "}"%char t).

Definition is_assembly (st : ET.store) (object_element : ET.loc) : bool :=
  match ET.find st object_element (lit "components") with
  | Some _ => true
  | None =>
      match ET.first_child st (has_part "components")
              (ET.children (ET.cell st object_element)) with
      | Some _ => true
      | None => false
      end
  end.

(** An entry of the object catalogue.  [obj_element] is a reference to the
    element in the store, not a copy of it. *)
Record object_info : Type := mkObjectInfo {
  obj_element : ET.loc;
  obj_id : option str;
  obj_name : str;
  obj_type : str;
  obj_is_assembly : bool
}.

(** [s.strip(c)] *)
Definition strip (c : ascii) (s : str) : str :=
  rev (Str.drop_while (Ascii.eqb c) (rev (Str.drop_while (Ascii.eqb c) s))).

(** Lines 211-230: the resources element, by three attempts. *)
Definition locate_resources (st : ET.store) (root : ET.loc) : option ET.loc :=
  let resources := ET.find st root (lit "resources") in
  let resources :=
    match resources with
    | Some r => Some r
    | None =>
        let root_tag := ET.tag (ET.cell st root) in
        let tag_namespace :=
          if Str.contains (lit "}") root_tag
          then strip "{"%char (hd [] (Str.split "}"%char root_tag))
          else [] in
        match tag_namespace with
        | _ :: _ =>
            ET.find st root (lit "{" ++ tag_namespace ++ lit "}resources")
        | [] => None
        end
    end in
  match resources with
  | Some r => Some r
  | None =>
      ET.first_child st (has_part "resources") (ET.children (ET.cell st root))
  end.

Definition object_entry (st : ET.store) (obj : ET.loc) : object_info :=
  mkObjectInfo obj
    (ET.get st obj (lit "id"))
    (ET.get_default st obj (lit "name") [])
    (ET.get_default st obj (lit "type") (lit "model"))
    (is_assembly st obj).

Definition get_objects_info (st : ET.store) (root : ET.loc)
  : outcome (list object_info) :=
  match locate_resources st root with
  | None => Raises (ValueError (lit "<resources> element missing in XML"))
  | Some resources =>
      Returns
        (map (object_entry st)
           (filter (fun obj => has_part "object" (ET.tag (ET.cell st obj)))
              (ET.children (ET.cell st resources))))
  end.

(** Lines 338-351: one palette entry becomes a colorgroup element with one
    color child. *)
Definition make_colorgroup (color_mode : str)
  (acc : list ET.loc * sdict str * ET.store) (entry : str * str)
  : list ET.loc * sdict str * ET.store :=
  let '(colorgroup_elements, colorgroup_map, st) := acc in
  let '(color_name, color_value) := entry in
  let colorgroup_id := get_colorgroup_id color_name color_mode in
  let '(colorgroup, st) := ET.Element st (material_tag (lit "colorgroup")) in
  let st := ET.set st colorgroup (lit "id") colorgroup_id in
  let '(color, st) := ET.SubElement st colorgroup (material_tag (lit "color")) in
  let st := ET.set st color (lit "color") color_value in
  (colorgroup_elements ++ [colorgroup],
   sset colorgroup_map color_name colorgroup_id, st).

(** Lines 354-358: the index of the first object child. *)
Fixpoint first_index (st : ET.store) (p : str -> bool) (i : nat)
  (cs : list ET.loc) : option nat :=
  match cs with
  | [] => None
  | c :: rest =>
      if p (ET.tag (ET.cell st c)) then Some i
      else first_index st p (S i) rest
  end.

(** Lines 362-367: one iteration of the insertion loop. *)
Definition place_colorgroup (resources : ET.loc) (object_index : option nat)
  (st : ET.store) (colorgroup : ET.loc) : ET.store :=
  match object_index with
  | Some i => ET.insert st resources i colorgroup
  | None => ET.append st resources colorgroup
  end.

Definition insert_colorgroups (st : ET.store) (resources : ET.loc)
  (color_mode : str) : sdict str * ET.store :=
  let colors :=
    if Str.eqb color_mode (lit "cmyw") then CMYW_COLORS else RYBW_COLORS in
  let '(colorgroup_elements, colorgroup_map, st) :=
    fold_left (make_colorgroup color_mode) colors ([], [], st) in
  let object_index :=
    first_index st (has_part "object") 0 (ET.children (ET.cell st resources)) in
  (colorgroup_map,
   fold_left (place_colorgroup resources object_index)
             (rev colorgroup_elements) st).

(** Lines 433-437: one child of the triangles element. *)
Definition tag_triangle (colorgroup_id : str) (acc : nat * ET.store)
  (triangle : ET.loc) : nat * ET.store :=
  let '(count, st) := acc in
  if has_part "triangle" (ET.tag (ET.cell st triangle)) then
    let st := ET.set st triangle (lit "pid") colorgroup_id in
    let st := ET.set st triangle (lit "p1") (lit "0") in
    (S count, st)
  else (count, st).

(** Lines 393-440: one catalogued object. *)
Definition colour_object (colorgroup_map : sdict str)
  (acc : sdict nat * ET.store) (obj : object_info) : sdict nat * ET.store :=
  let '(stats, st) := acc in
  if obj_is_assembly obj then acc
  else
    match sget colorgroup_map (obj_name obj) with
    | None => acc
    | Some colorgroup_id =>
        match ET.first_child st (has_part "mesh")
                (ET.children (ET.cell st (obj_element obj))) with
        | None => acc
        | Some mesh =>
            match ET.first_child st (has_part "triangles")
                    (ET.children (ET.cell st mesh)) with
            | None => acc
            | Some triangles =>
                let '(count, st) :=
                  fold_left (tag_triangle colorgroup_id)
                            (ET.children (ET.cell st triangles)) (0, st) in
                (sset stats (obj_name obj) count, st)
            end
        end
    end.

Definition add_triangle_colors (st : ET.store) (objects : list object_info)
  (colorgroup_map : sdict str) : sdict nat * ET.store :=
  fold_left (colour_object colorgroup_map) objects ([], st).

Definition opt_eqb (a b : option str) : bool :=
  match a, b with
  | Some x, Some y => Str.eqb x y
  | None, None => true
  | _, _ => false
  end.

(** Lines 478-492: one child of the build element. *)
Definition tag_item (colorgroup_map : sdict str)
  (acc : Dict.t (option str) str * ET.store) (item : ET.loc)
  : Dict.t (option str) str * ET.store :=
  let '(stats, st) := acc in
  if has_part "item" (ET.tag (ET.cell st item)) then
    let objectid := ET.get st item (lit "objectid") in
    let partnumber := ET.get_default st item (lit "partnumber") [] in
    match sget colorgroup_map partnumber with
    | Some materialid =>
        (Dict.set opt_eqb stats objectid materialid,
         ET.set st item (lit "materialid") materialid)
    | None => (stats, st)
    end
  else (stats, st).

Definition add_build_materials (st : ET.store) (root : ET.loc)
  (colorgroup_map : sdict str) : Dict.t (option str) str * ET.store :=
  match ET.first_child st (has_part "build") (ET.children (ET.cell st root)) with
  | None => ([], st)
  | Some build =>
      fold_left (tag_item colorgroup_map) (ET.children (ET.cell st build))
                ([], st)
  end.

(* ================================================================== *)
(** * The pipelines *)
(* ================================================================== *)

Section Pipeline.

(** The UTF-8 codec and the ElementTree parser and serialiser are library
    code; the pipelines are stated over any implementation of them.
    [ET_fromstring] answers [None] when the parser raises;
    [ET_tostring st root] stands for [ET.tostring(root, encoding='utf-8',
    xml_declaration=True, short_empty_elements=False)]. *)
Variable utf8_encode : str -> bytes.
Variable utf8_decode : bytes -> option str.
Variable ET_fromstring : bytes -> option (ET.store * ET.loc).
Variable ET_tostring : ET.store -> ET.loc -> bytes.

Definition decode (b : bytes) : outcome str :=
  match utf8_decode b with
  | Some s => Returns s
  | None => Raises UnicodeDecodeError
  end.

Definition fromstring (b : bytes) : outcome (ET.store * ET.loc) :=
  match ET_fromstring b with
  | Some r => Returns r
  | None => Raises ParseError
  end.

(** ** add_3mf_colors.py, read_3mf *)

Definition model_path : str := lit "3D/3dmodel.model".

(** Lines 187-190. *)
Fixpoint read_others (a : archive) (file_list : list str)
  (other_files : sdict bytes) : outcome (sdict bytes) :=
  match file_list with
  | [] => Returns other_files
  | file_path :: rest =>
      if Str.eqb file_path model_path then read_others a rest other_files
      else
        data <- ZipFile.read a file_path ;;
        read_others a rest (sset other_files file_path data)
  end.

Definition read_3mf (input : file)
  : outcome (ET.store * ET.loc * sdict bytes) :=
  if negb (ZipFile.is_zipfile input)
  then Raises (ValueError (lit "File is not a valid ZIP file"))
  else
    a <- ZipFile.open_r input ;;
    let file_list := ZipFile.namelist a in
    if negb (Str.mem model_path file_list)
    then Raises (ValueError (lit "3MF file does not contain 3D/3dmodel.model"))
    else
      xml_content <- ZipFile.read a model_path ;;
      doc <- fromstring xml_content ;;
      other_files <- read_others a file_list [] ;;
      Returns (doc, other_files).


(** ** add_3mf_colors.py, add_colors_to_xml_string *)

Definition add_colors_to_xml_string (xml_string color_mode : str)
  : outcome str :=
  doc <- fromstring (utf8_encode xml_string) ;;
  let '(st, root) := doc in
  objects <- get_objects_info st root ;;
  let object_names :=
    map obj_name (filter (fun obj => negb (obj_is_assembly obj)) objects) in
  let detected_mode := detect_color_mode object_names in
  let final_color_mode :=
    if Str.eqb color_mode (lit "auto") then detected_mode else color_mode in
  match ET.first_child st (has_part "resources")
          (ET.children (ET.cell st root)) with
  | None => Raises (ValueError (lit "Cannot find resources element"))
  | Some resources =>
      let '(colorgroup_map, st) :=
        insert_colorgroups st resources final_color_mode in
      let '(triangle_stats, st) :=
        add_triangle_colors st objects colorgroup_map in
      let '(build_stats, st) := add_build_materials st root colorgroup_map in
      decode (ET_tostring st root)
  end.

(** ** helpers.py, safe_fix_3mf_names *)

(** Lines 33-36. *)
Fixpoint read_all (a : archive) (names : list str) (files_data : sdict bytes)
  : outcome (sdict bytes) :=
  match names with
  | [] => Returns files_data
  | name :: rest =>
      data <- ZipFile.read a name ;;
      read_all a rest (sset files_data name data)
  end.

(** Lines 39-43. *)
Definition is_model_name (name : str) : bool :=
  Str.endswith (lit ".model") name && Str.contains (lit "3D/") name.

Definition find_model_file (files_data : sdict bytes) : option str :=
  List.find is_model_name (Dict.keys files_data).

(** Lines 111-136: the optional colour stage and the update of the model
    entry. *)
Definition colour_stage (files_data : sdict bytes) (model_file content : str)
  (slot_names : list str) (enable_colors : bool) (color_mode : option str)
  : outcome (sdict bytes) :=
  if enable_colors then
    try_except
      (let actual_color_mode :=
         match color_mode with
         | None => detect_color_mode slot_names
         | Some m => m
         end in
       modified_content <- add_colors_to_xml_string content actual_color_mode ;;
       Returns (sset files_data model_file (utf8_encode modified_content)))
      (fun _ => Returns files_data)
  else Returns (sset files_data model_file (utf8_encode content)).

(** Lines 33-141: the body of the outer [try]; it returns the entries
    written back to the archive. *)
Definition safe_fix_body (input : file) (slot_names : list str)
  (create_assembly enable_colors : bool) (color_mode : option str)
  : outcome archive :=
  zf_in <- ZipFile.open_r input ;;
  files_data <- read_all zf_in (ZipFile.namelist zf_in) [] ;;
  match find_model_file files_data with
  | Some ((_ :: _) as model_file) =>
      match sget files_data model_file with
      | Some data =>
          content <- decode data ;;
          let content := fix_text content slot_names create_assembly in
          colour_stage files_data model_file content slot_names
                       enable_colors color_mode
      | None => Returns files_data
      end
  | _ => Returns files_data
  end.

(** The whole function: what the file holds afterwards, or the exception
    that reaches the caller. *)
Definition safe_fix_3mf_names (input : file) (slot_names : list str)
  (create_assembly enable_colors : bool) (color_mode : option str)
  : outcome file :=
  try_except
    (files_data <- safe_fix_body input slot_names create_assembly
                                 enable_colors color_mode ;;
     Returns (Zip files_data))
    (fun _ => Returns input).

End Pipeline.

(* ================================================================== *)
(** * A concrete codec, parser and serialiser *)
(* ================================================================== *)

(** UTF-8 for code points below 256: one byte below 128, two bytes (lead
    byte C2 or C3) from 128 on.  Any other byte sequence is rejected. *)
Module Utf8.

Definition byte_of_nat (n : nat) : Byte.byte :=
  match Byte.of_nat n with Some b => b | None => Byte.x00 end.

Definition encode_char (c : ascii) : bytes :=
  let n := Str.code c in
  if n <? 128 then [byte_of_nat n]
  else if n <? 192 then [Byte.xc2; byte_of_nat n]
  else [Byte.xc3; byte_of_nat (n - 64)].

Definition encode (s : str) : bytes := flat_map encode_char s.

Definition continuation (b : Byte.byte) : bool :=
  (128 <=? Byte.to_nat b) && (Byte.to_nat b <? 192).

Fixpoint decode_from (lead : option nat) (b : bytes) : option str :=
  match b with
  | [] => match lead with None => Some [] | Some _ => None end
  | x :: rest =>
      match lead with
      | Some off =>
          if continuation x then
            option_map (cons (ascii_of_nat (Byte.to_nat x + off)))
                       (decode_from None rest)
          else None
      | None =>
          if Byte.to_nat x <? 128 then
            option_map (cons (ascii_of_nat (Byte.to_nat x)))
                       (decode_from None rest)
          else if Byte.to_nat x =? 194 then decode_from (Some 0) rest
          else if Byte.to_nat x =? 195 then decode_from (Some 64) rest
          else None
      end
  end.

Definition decode (b : bytes) : option str := decode_from None b.

End Utf8.

(** A parser for the fragment of XML made of an optional XML declaration,
    elements, attributes in single or double quotes, namespace declarations
    and character data.  Entity references, comments, CDATA sections,
    processing instructions, document type declarations and non-ASCII names
    are outside the fragment: on them the parser answers [Unsupported], a
    verdict about neither well-formedness nor its absence. *)
Module MiniXML.

Inductive verdict (A : Type) : Type :=
| Parsed (a : A)
| Malformed
| Unsupported.

Arguments Parsed {A} a.
Arguments Malformed {A}.
Arguments Unsupported {A}.

Inductive token : Type :=
| Open (name : str) (attrs : list (str * str)) (closed : bool)
| Close (name : str)
| Chars (s : str).

(** White space of XML: space, tab, line feed, carriage return. *)
Definition is_ws (c : ascii) : bool :=
  let n := Str.code c in (n =? 32) || (n =? 9) || (n =? 10) || (n =? 13).

Definition is_name_start (c : ascii) : bool :=
  Str.between 65 90 c || Str.between 97 122 c || (Str.code c =? 95)
  || (Str.code c =? 58).

Definition is_name_char (c : ascii) : bool :=
  is_name_start c || Str.between 48 57 c || (Str.code c =? 45)
  || (Str.code c =? 46).

Definition has (p : ascii -> bool) (s : str) : bool := existsb p s.

(** A name at the head of [s], and what follows it. *)
Definition lex_name (s : str) : verdict (str * str) :=
  match s with
  | c :: _ =>
      if is_name_start c then
        Parsed (Str.take_while is_name_char s, Str.drop_while is_name_char s)
      else if 128 <=? Str.code c then Unsupported
      else Malformed
  | [] => Malformed
  end.

(** Attribute-value normalisation: white space becomes a space. *)
Definition normalize (value : str) : str :=
  map (fun c => if is_ws c then " "%char else c) value.

(** The attributes of a start-tag and its end: [>] or [/>]. *)
Fixpoint lex_attrs (fuel : nat) (acc : list (str * str)) (s : str)
  : verdict (list (str * str) * bool * str) :=
  match fuel with
  | 0 => Malformed
  | S fuel =>
      let ws := Str.take_while is_ws s in
      match Str.drop_while is_ws s with
      | [] => Malformed
      | c :: rest =>
          if Ascii.eqb c ">"%char then Parsed (acc, false, rest)
          else if Ascii.eqb c "/"%char then
            match rest with
            | c' :: rest' =>
                if Ascii.eqb c' ">"%char then Parsed (acc, true, rest')
                else Malformed
            | [] => Malformed
            end
          else
            match ws with
            | [] => Malformed
            | _ :: _ =>
                match lex_name (c :: rest) with
                | Parsed (name, after) =>
                    match Str.drop_while is_ws after with
                    | e :: after_eq =>
                        if Ascii.eqb e "="%char then
                          match Str.drop_while is_ws after_eq with
                          | q :: body =>
                              if Ascii.eqb q dq || Ascii.eqb q "'"%char then
                                let value :=
                                  Str.take_while
                                    (fun x => negb (Ascii.eqb x q)) body in
                                match Str.drop_while
                                        (fun x => negb (Ascii.eqb x q)) body
                                with
                                | _ :: after_value =>
                                    if has (Ascii.eqb "<"%char) value
                                    then Malformed
                                    else if has (Ascii.eqb "&"%char) value
                                    then Unsupported
                                    else if Str.mem name (map fst acc)
                                    then Malformed
                                    else lex_attrs fuel
                                           (acc ++ [(name, normalize value)])
                                           after_value
                                | [] => Malformed
                                end
                              else Malformed
                          | [] => Malformed
                          end
                        else Malformed
                    | [] => Malformed
                    end
                | Malformed => Malformed
                | Unsupported => Unsupported
                end
            end
      end
  end.

(** The tokens of a document body. *)
Fixpoint lex (fuel : nat) (s : str) : verdict (list token) :=
  match fuel with
  | 0 => Malformed
  | S fuel =>
      match s with
      | [] => Parsed []
      | c :: rest =>
          if Ascii.eqb c "<"%char then
            match rest with
            | c' :: rest' =>
                if Ascii.eqb c' "/"%char then
                  match lex_name rest' with
                  | Parsed (name, after) =>
                      match Str.drop_while is_ws after with
                      | g :: after_tag =>
                          if Ascii.eqb g ">"%char then
                            match lex fuel after_tag with
                            | Parsed toks => Parsed (Close name :: toks)
                            | other => other
                            end
                          else Malformed
                      | [] => Malformed
                      end
                  | Malformed => Malformed
                  | Unsupported => Unsupported
                  end
                else if Ascii.eqb c' "!"%char || Ascii.eqb c' "?"%char
                then Unsupported
                else
                  match lex_name rest with
                  | Parsed (name, after) =>
                      match lex_attrs (S (length after)) [] after with
                      | Parsed (attrs, closed, after_tag) =>
                          match lex fuel after_tag with
                          | Parsed toks =>
                              Parsed (Open name attrs closed :: toks)
                          | other => other
                          end
                      | Malformed => Malformed
                      | Unsupported => Unsupported
                      end
                  | Malformed => Malformed
                  | Unsupported => Unsupported
                  end
            | [] => Malformed
            end
          else
            let chars := Str.take_while (fun x => negb (Ascii.eqb x "<"%char)) s in
            if has (Ascii.eqb "&"%char) chars then Unsupported
            else
              match lex fuel
                      (Str.drop_while (fun x => negb (Ascii.eqb x "<"%char)) s)
              with
              | Parsed toks => Parsed (Chars chars :: toks)
              | other => other
              end
      end
  end.

(** ** From tokens to a tree *)

#[warnings="-register-all"]
Inductive tree : Type :=
| Node (tag : str) (attrs : list (str * str)) (text : str)
       (kids : list tree) (tail : str).

(** An element under construction: its name as written, its expanded tag
    and attributes, its text, its finished children (last one first) and
    the namespace bindings in scope. *)
Record frame : Type := mkFrame {
  f_name : str;
  f_tag : str;
  f_attrs : list (str * str);
  f_text : str;
  f_kids : list tree;
  f_env : sdict str
}.

Definition xml_uri : str := lit "http://www.w3.org/XML/1998/namespace".

(** The bindings that the attributes of a start-tag add to [env]. *)
Fixpoint declare (env : sdict str) (attrs : list (str * str))
  : verdict (sdict str) :=
  match attrs with
  | [] => Parsed env
  | (k, v) :: rest =>
      if Str.eqb k (lit "xmlns") then declare ((@nil ascii, v) :: env) rest
      else if Str.startswith (lit "xmlns:") k then
        match skipn 6 k, v with
        | _ :: _, _ :: _ => declare ((skipn 6 k, v) :: env) rest
        | _, _ => Malformed
        end
      else declare env rest
  end.

(** The expanded form of a name: {uri}local for a bound prefix, or for an
    element name under a default namespace. *)
Definition expand (env : sdict str) (is_element : bool) (name : str)
  : verdict str :=
  match Str.index_where (Ascii.eqb ":"%char) name with
  | Some i =>
      let prefix := firstn i name in
      let local := skipn (S i) name in
      match prefix, local with
      | _ :: _, _ :: _ =>
          if has (Ascii.eqb ":"%char) local then Malformed
          else match sget env prefix with
               | Some uri => Parsed (lit "{" ++ uri ++ lit "}" ++ local)
               | None => Malformed
               end
      | _, _ => Malformed
      end
  | None =>
      if is_element then
        match sget env [] with
        | Some ((_ :: _) as uri) => Parsed (lit "{" ++ uri ++ lit "}" ++ name)
        | _ => Parsed name
        end
      else Parsed name
  end.

Fixpoint expand_attrs (env : sdict str) (attrs acc : list (str * str))
  : verdict (list (str * str)) :=
  match attrs with
  | [] => Parsed acc
  | (k, v) :: rest =>
      if Str.eqb k (lit "xmlns") || Str.startswith (lit "xmlns:") k
      then expand_attrs env rest acc
      else match expand env false k with
           | Parsed k' =>
               if Str.mem k' (map fst acc) then Malformed
               else expand_attrs env rest (acc ++ [(k', v)])
           | Malformed => Malformed
           | Unsupported => Unsupported
           end
  end.

Definition add_chars (f : frame) (s : str) : frame :=
  match f_kids f with
  | [] => mkFrame (f_name f) (f_tag f) (f_attrs f) (f_text f ++ s) [] (f_env f)
  | Node t a x ks tl :: older =>
      mkFrame (f_name f) (f_tag f) (f_attrs f) (f_text f)
              (Node t a x ks (tl ++ s) :: older) (f_env f)
  end.

Definition add_kid (f : frame) (k : tree) : frame :=
  mkFrame (f_name f) (f_tag f) (f_attrs f) (f_text f) (k :: f_kids f) (f_env f).

Definition finish (f : frame) : tree :=
  Node (f_tag f) (f_attrs f) (f_text f) (rev (f_kids f)) [].

(** [stack] holds the open elements, innermost first; [root] is the
    document element once it is closed. *)
Fixpoint build (toks : list token) (stack : list frame) (root : option tree)
  : verdict tree :=
  match toks with
  | [] =>
      match stack, root with
      | [], Some t => Parsed t
      | _, _ => Malformed
      end
  | Chars s :: rest =>
      match stack with
      | [] => if forallb is_ws s then build rest [] root else Malformed
      | f :: outer => build rest (add_chars f s :: outer) root
      end
  | Open name attrs closed :: rest =>
      match stack, root with
      | [], Some _ => Malformed
      | _, _ =>
          let env :=
            match stack with
            | f :: _ => f_env f
            | [] => [(lit "xml", xml_uri)]
            end in
          match declare env attrs with
          | Parsed env' =>
              match expand env' true name, expand_attrs env' attrs [] with
              | Parsed t, Parsed attrs' =>
                  let f := mkFrame name t attrs' [] [] env' in
                  if closed then
                    match stack with
                    | [] => build rest [] (Some (finish f))
                    | parent :: outer =>
                        build rest (add_kid parent (finish f) :: outer) root
                    end
                  else build rest (f :: stack) root
              | Unsupported, _ => Unsupported
              | _, Unsupported => Unsupported
              | _, _ => Malformed
              end
          | Malformed => Malformed
          | Unsupported => Unsupported
          end
      end
  | Close name :: rest =>
      match stack with
      | [] => Malformed
      | f :: outer =>
          if Str.eqb name (f_name f) then
            match outer with
            | [] => build rest [] (Some (finish f))
            | parent :: outer' =>
                build rest (add_kid parent (finish f) :: outer') root
            end
          else Malformed
      end
  end.

(** Characters that no XML 1.0 document may contain. *)
Definition illegal (c : ascii) : bool :=
  (Str.code c <? 32) && negb (is_ws c).

(** The pseudo-attributes of an XML declaration that the fragment accepts:
    version 1.0, then optionally the encoding UTF-8, then optionally the
    standalone flag. *)
Definition accepted_declaration (pseudo : list (str * str)) : bool :=
  let version_ok kv :=
    Str.eqb (fst kv) (lit "version") && Str.eqb (snd kv) (lit "1.0") in
  let encoding_ok kv :=
    Str.eqb (fst kv) (lit "encoding")
    && (Str.eqb (snd kv) (lit "UTF-8") || Str.eqb (snd kv) (lit "utf-8")) in
  let standalone_ok kv :=
    Str.eqb (fst kv) (lit "standalone")
    && (Str.eqb (snd kv) (lit "yes") || Str.eqb (snd kv) (lit "no")) in
  match pseudo with
  | [v] => version_ok v
  | [v; e] => version_ok v && (encoding_ok e || standalone_ok e)
  | [v; e; a] => version_ok v && encoding_ok e && standalone_ok a
  | _ => false
  end.

(** The document without its XML declaration, when it has one. *)
Definition strip_declaration (s : str) : verdict str :=
  if Str.startswith (lit "<?xml") s then
    match Str.find (lit "?>") s with
    | Some i =>
        let inside := firstn (i - 5) (skipn 5 s) in
        match lex_attrs (S (length inside)) [] (inside ++ lit ">") with
        | Parsed (pseudo, false, []) =>
            if accepted_declaration pseudo then Parsed (skipn (i + 2) s)
            else Unsupported
        | _ => Unsupported
        end
    | None => Unsupported
    end
  else Parsed s.

Definition parse (s : str) : verdict tree :=
  if has illegal s then Malformed
  else if Str.contains (lit "]]>") s then Unsupported
  else
    match strip_declaration s with
    | Parsed body =>
        match lex (S (length body)) body with
        | Parsed toks => build toks [] None
        | Malformed => Malformed
        | Unsupported => Unsupported
        end
    | Malformed => Malformed
    | Unsupported => Unsupported
    end.

(** ** From a tree to the store: elements are created in document order. *)
Fixpoint alloc (t : tree) (st : ET.store) : ET.loc * ET.store :=
  match t with
  | Node tg attrs tx kids tl =>
      let l := ET.next st in
      let '(ls, st') :=
        (fix alloc_all (ks : list tree) (st : ET.store)
           : list ET.loc * ET.store :=
           match ks with
           | [] => ([], st)
           | k :: ks' =>
               let '(lk, st1) := alloc k st in
               let '(lks, st2) := alloc_all ks' st1 in
               (lk :: lks, st2)
           end) kids (ET.mkStore (ET.cell st) (S l)) in
      (l, ET.write st' l (ET.mkNode tg attrs tx tl ls))
  end.

(** [ET.fromstring] on the fragment. *)
Definition fromstring (b : bytes) : option (ET.store * ET.loc) :=
  match Utf8.decode b with
  | Some s =>
      match parse s with
      | Parsed t => let '(l, st) := alloc t ET.empty in Some (st, l)
      | _ => None
      end
  | None => None
  end.

(** ** The serialiser *)

(** The prefixes known to ElementTree once [register_namespaces] has run. *)
Definition namespace_map : sdict str :=
  [ (xml_uri, lit "xml");
    (lit "http://www.w3.org/1999/xhtml", lit "html");
    (lit "http://www.w3.org/1999/02/22-rdf-syntax-ns#", lit "rdf");
    (lit "http://schemas.xmlsoap.org/wsdl/", lit "wsdl");
    (lit "http://www.w3.org/2001/XMLSchema", lit "xs");
    (lit "http://www.w3.org/2001/XMLSchema-instance", lit "xsi");
    (lit "http://purl.org/dc/elements/1.1/", lit "dc");
    (MODEL_NAMESPACE, []);
    (lit "http://schemas.microsoft.com/3dmanufacturing/beamlattice/2017/02",
     lit "b");
    (MATERIAL_NAMESPACE, lit "m");
    (lit "http://schemas.microsoft.com/3dmanufacturing/production/2015/06",
     lit "p");
    (lit "http://schemas.microsoft.com/3dmanufacturing/slice/2015/07",
     lit "s");
    (lit "http://schemas.microsoft.com/3dmanufacturing/securecontent/2019/04",
     lit "sc") ].

Fixpoint last_index (p : ascii -> bool) (i : nat) (s : str) : option nat :=
  match s with
  | [] => None
  | c :: tl =>
      match last_index p (S i) tl with
      | Some j => Some j
      | None => if p c then Some i else None
      end
  end.

(** The namespace and the local part of an expanded name. *)
Definition split_qname (q : str) : option (str * str) :=
  match q with
  | c :: body =>
      if Ascii.eqb c "{"%char then
        match last_index (Ascii.eqb "}"%char) 0 body with
        | Some i => Some (firstn i body, skipn (S i) body)
        | None => None
        end
      else None
  | [] => None
  end.

(** The tags and attribute names below an element, in document order. *)
Fixpoint names_of (fuel : nat) (st : ET.store) (l : ET.loc) : list str :=
  match fuel with
  | 0 => []
  | S fuel =>
      ET.tag (ET.cell st l)
        :: map fst (ET.attrib (ET.cell st l))
        ++ flat_map (names_of fuel st) (ET.children (ET.cell st l))
  end.

Definition add_namespace (namespaces : sdict str) (q : str) : sdict str :=
  match split_qname q with
  | Some (uri, _) =>
      match sget namespaces uri with
      | Some _ => namespaces
      | None =>
          let prefix :=
            match sget namespace_map uri with
            | Some p => p
            | None => lit "ns" ++ Str.of_N (N.of_nat (length namespaces))
            end in
          if Str.eqb prefix (lit "xml") then namespaces
          else namespaces ++ [(uri, prefix)]
      end
  | None => namespaces
  end.

Definition qname (namespaces : sdict str) (q : str) : str :=
  match split_qname q with
  | Some (uri, local) =>
      match sget namespaces uri with
      | Some [] => local
      | Some prefix => prefix ++ lit ":" ++ local
      | None => lit "xml:" ++ local
      end
  | None => q
  end.

Definition escape_cdata (s : str) : str :=
  flat_map (fun c =>
    if Ascii.eqb c "&"%char then lit "&amp;"
    else if Ascii.eqb c "<"%char then lit "&lt;"
    else if Ascii.eqb c ">"%char then lit "&gt;"
    else [c]) s.

Definition escape_attrib (s : str) : str :=
  flat_map (fun c =>
    if Ascii.eqb c "&"%char then lit "&amp;"
    else if Ascii.eqb c "<"%char then lit "&lt;"
    else if Ascii.eqb c ">"%char then lit "&gt;"
    else if Ascii.eqb c dq then lit "&quot;"
    else if Str.code c =? 13 then lit "&#13;"
    else if Str.code c =? 10 then lit "&#10;"
    else if Str.code c =? 9 then lit "&#09;"
    else [c]) s.

Fixpoint str_ltb (a b : str) : bool :=
  match a, b with
  | _, [] => false
  | [], _ :: _ => true
  | x :: a', y :: b' =>
      (Str.code x <? Str.code y)
      || ((Str.code x =? Str.code y) && str_ltb a' b')
  end.

(** Namespace declarations sorted by prefix. *)
Fixpoint insert_sorted (e : str * str) (l : sdict str) : sdict str :=
  match l with
  | [] => [e]
  | e' :: rest =>
      if str_ltb (snd e) (snd e') then e :: l else e' :: insert_sorted e rest
  end.

Definition declarations (namespaces : sdict str) : str :=
  flat_map (fun e =>
    lit " xmlns" ++ (match snd e with [] => [] | p => lit ":" ++ p end)
      ++ lit "=" ++ [dq] ++ escape_attrib (fst e) ++ [dq])
    (fold_right insert_sorted [] namespaces).

Fixpoint serialize (fuel : nat) (st : ET.store) (namespaces : sdict str)
  (decls : str) (l : ET.loc) : str :=
  match fuel with
  | 0 => []
  | S fuel =>
      let n := ET.cell st l in
      let t := qname namespaces (ET.tag n) in
      lit "<" ++ t ++ decls
        ++ flat_map (fun kv =>
             lit " " ++ qname namespaces (fst kv) ++ lit "=" ++ [dq]
               ++ escape_attrib (snd kv) ++ [dq]) (ET.attrib n)
        ++ lit ">" ++ escape_cdata (ET.text n)
        ++ flat_map (serialize fuel st namespaces []) (ET.children n)
        ++ lit "</" ++ t ++ lit ">" ++ escape_cdata (ET.tail n)
  end.

(** [ET.tostring] with an XML declaration, UTF-8 and no short empty
    elements.  The depth of a document is below the number of its
    elements, which bounds the recursion. *)
Definition tostring (st : ET.store) (root : ET.loc) : bytes :=
  let namespaces :=
    fold_left add_namespace (names_of (ET.next st) st root) [] in
  Utf8.encode
    (lit "<?xml version='1.0' encoding='utf-8'?>" ++ [nl]
       ++ serialize (ET.next st) st namespaces (declarations namespaces) root).

End MiniXML.

(* ================================================================== *)
(** * Vocabulary of the statements *)
(* ================================================================== *)

(** [sub] occurs in [s] at offset [p]. *)
Definition occurs_at (sub s : str) (p : nat) : Prop :=
  exists a b, s = a ++ sub ++ b /\ length a = p.

(** [p] is the offset of the first occurrence of [sub] in [s]. *)
Definition first_occurrence (sub s : str) (p : nat) : Prop :=
  occurs_at sub s p /\ forall q, occurs_at sub s q -> p <= q.

(** The number of names of [names] that are keys of [palette]. *)
Definition matches (palette : list str) (names : list str) : nat :=
  length (filter (fun n => if in_dec (list_eq_dec ascii_dec) n palette
                           then true else false) names).

Definition rybw_names : list str :=
  [lit "Red"; lit "Yellow"; lit "Blue"; lit "White"].
Definition cmyw_names : list str :=
  [lit "Cyan"; lit "Magenta"; lit "Yellow"; lit "White"].

(** The content of an archive under a name, as a reader sees it. *)
Definition content_of (a : archive) (name : str) : option bytes :=
  match ZipFile.read a name with
  | Returns d => Some d
  | Raises _ => None
  end.

(** The resources element is absent from a document. *)
Definition no_resources (st : ET.store) (root : ET.loc) : Prop :=
  ET.first_child st (has_part "resources") (ET.children (ET.cell st root)) = None.

(* ================================================================== *)
(** * Example documents *)
(* ================================================================== *)

(** A quoted attribute value. *)
Definition quoted (s : String.string) : str := [dq] ++ lit s ++ [dq].

(** A model without a resources element. *)
Definition doc_no_resources : str :=
  lit "<model><object id=" ++ quoted "1" ++ lit "></object></model>".

Definition doc_no_resources_renamed : str :=
  lit "<model><object id=" ++ quoted "1" ++ lit " name=" ++ quoted "Red"
    ++ lit "></object></model>".

Definition archive_no_resources : archive :=
  [ (lit "[Content_Types].xml", Utf8.encode (lit "<Types/>"));
    (lit "3D/3dmodel.model", Utf8.encode doc_no_resources) ].


(** A small model: one coloured object with a triangle, one object with an
    empty mesh, and a build section with two items. *)
Definition doc_small : str :=
  lit "<model><resources><object id=" ++ quoted "1" ++ lit " name="
    ++ quoted "old" ++ lit "><mesh><triangles><triangle v1=" ++ quoted "0"
    ++ lit " v2=" ++ quoted "1" ++ lit " v3=" ++ quoted "2"
    ++ lit "/></triangles></mesh></object><object id=" ++ quoted "2"
    ++ lit "><mesh/></object></resources><build><item objectid="
    ++ quoted "1" ++ lit " partnumber=" ++ quoted "White"
    ++ lit "/><item objectid=" ++ quoted "2" ++ lit "/></build></model>".

Definition archive_small : archive :=
  [ (lit "[Content_Types].xml", Utf8.encode (lit "<Types/>"));
    (lit "3D/3dmodel.model", Utf8.encode doc_small);
    (lit "_rels/.rels", Utf8.encode (lit "<Relationships/>")) ].

(** The document that the concrete parser builds from a text. *)
Definition parsed (s : str) : ET.store * ET.loc :=
  match MiniXML.fromstring (Utf8.encode s) with
  | Some doc => doc
  | None => (ET.empty, 0)
  end.

(** A store holding a resources element (location 0) whose only child is a
    basematerials element (location 1): no object child. *)
Definition store_no_object : ET.store :=
  ET.mkStore
    (fun l =>
       match l with
       | 0 => ET.mkNode (lit "resources") [] [] [] [1]
       | 1 => ET.mkNode (lit "basematerials") [(lit "id", lit "9")] [] [] []
       | _ => ET.mkNode [] [] [] [] []
       end)
    2.

(** ** Vocabulary of the tagging statements *)

(** The triangle elements of an object: the children that pass the triangle
    test, of the first triangles child of its first mesh child. *)
Definition triangle_elements (st : ET.store) (obj : ET.loc) : list ET.loc :=
  match ET.first_child st (has_part "mesh") (ET.children (ET.cell st obj)) with
  | Some mesh =>
      match ET.first_child st (has_part "triangles")
              (ET.children (ET.cell st mesh)) with
      | Some triangles =>
          filter (fun t => has_part "triangle" (ET.tag (ET.cell st t)))
                 (ET.children (ET.cell st triangles))
      | None => []
      end
  | None => []
  end.

(** The colorgroup id that the mapping gives to a catalogued object: none
    for an assembly or for a name that is not a key. *)
Definition mapped_id (colorgroup_map : sdict str) (o : object_info)
  : option str :=
  if obj_is_assembly o then None else sget colorgroup_map (obj_name o).

(** The item elements of the build element of a document. *)
Definition build_items (st : ET.store) (root : ET.loc) : list ET.loc :=
  match ET.first_child st (has_part "build") (ET.children (ET.cell st root)) with
  | Some build =>
      filter (fun i => has_part "item" (ET.tag (ET.cell st i)))
             (ET.children (ET.cell st build))
  | None => []
  end.

(** The part number under which an item is looked up. *)
Definition partnumber_of (st : ET.store) (item : ET.loc) : str :=
  ET.get_default st item (lit "partnumber") [].

(** Two elements that differ at most by their attributes. *)
Definition same_shape (n m : ET.node) : Prop :=
  ET.tag n = ET.tag m /\ ET.text n = ET.text m /\ ET.tail n = ET.tail m
  /\ ET.children n = ET.children m.

(** Between [st] and [st'], the element at [l] got the attributes [kvs] and
    nothing else about it changed. *)
Definition tagged (st st' : ET.store) (l : ET.loc) (kvs : list (str * str))
  : Prop :=
  same_shape (ET.cell st' l) (ET.cell st l)
  /\ (forall k v, In (k, v) kvs -> ET.get st' l k = Some v)
  /\ (forall k, ~ In k (map fst kvs) -> ET.get st' l k = ET.get st l k).

(** A model whose first object is named Red and has two triangles, whose
    second object is named Grey, and whose build section has an item with
    part number White. *)
Definition doc_colours : str :=
  lit "<model><resources><object id=" ++ quoted "1" ++ lit " name="
    ++ quoted "Red" ++ lit "><mesh><triangles><triangle v1=" ++ quoted "0"
    ++ lit "/><triangle v1=" ++ quoted "1"
    ++ lit "/></triangles></mesh></object><object id=" ++ quoted "2"
    ++ lit " name=" ++ quoted "Grey"
    ++ lit "><mesh><triangles><triangle v1=" ++ quoted "2"
    ++ lit "/></triangles></mesh></object></resources><build><item objectid="
    ++ quoted "1" ++ lit " partnumber=" ++ quoted "White"
    ++ lit "/><item objectid=" ++ quoted "2" ++ lit "/></build></model>".

(** The catalogue of a document, empty when it has no resources element. *)
Definition catalogue (st : ET.store) (root : ET.loc) : list object_info :=
  match get_objects_info st root with
  | Returns objects => objects
  | Raises _ => []
  end.

(** Two stores whose elements differ at most by their attributes. *)
Definition same_shapes (st st' : ET.store) : Prop :=
  forall l, same_shape (ET.cell st' l) (ET.cell st l).

Definition st_colours : ET.store := fst (parsed doc_colours).
Definition root_colours : ET.loc := snd (parsed doc_colours).
Definition objects_colours : list object_info :=
  catalogue st_colours root_colours.

(** ** Vocabulary of the name-fix statements *)

(** The text made of the gaps with the tags in between: gap, tag, gap, ...,
    tag, gap. *)
Fixpoint weave (gaps tags : list str) : str :=
  match gaps, tags with
  | g :: gaps', t :: tags' => g ++ t ++ weave gaps' tags'
  | g :: _, [] => g
  | [], _ => []
  end.

(** The names given to the tags by rank: the tag of rank i gets the name of
    index i; tags beyond the end of the name list are kept as they are. *)
Fixpoint assign (names tags : list str) : list str :=
  match tags, names with
  | t :: tags', n :: names' => new_tag t n :: assign names' tags'
  | _, [] => tags
  | [], _ => []
  end.

(** The stretches of [content] between the entries of [obj_info], from
    offset [cur] on. *)
Fixpoint gaps_between (cur : nat) (content : str) (obj_info : list obj_entry)
  : list str :=
  match obj_info with
  | [] => [skipn cur content]
  | e :: rest =>
      firstn (entry_start e - cur) (skipn cur content)
        :: gaps_between (entry_end e) content rest
  end.

(** The entries lie in [content] from offset [from] on, in order and without
    overlap, and each records the text found between its offsets. *)
Fixpoint placed (from : nat) (content : str) (obj_info : list obj_entry)
  : Prop :=
  match obj_info with
  | [] => True
  | e :: rest =>
      from <= entry_start e /\ entry_start e <= entry_end e
      /\ entry_end e <= length content
      /\ entry_tag e
         = firstn (entry_end e - entry_start e) (skipn (entry_start e) content)
      /\ placed (entry_end e) content rest
  end.

(** One edit of the rename loop, for the entry of rank [i]. *)
Definition rename_at (slot_names : list str) (i : nat) (e : obj_entry)
  (content : str) : str :=
  if length slot_names <=? i then content
  else firstn (entry_start e) content
         ++ new_tag (entry_tag e) (nth i slot_names [])
         ++ skipn (entry_end e) content.

(** ** Vocabulary of the assembly statements *)

(** A build section of [s]: the literal opening tag at offset [b], and the
    first literal closing tag after it, which ends at offset [e]. *)
Definition build_section (s : str) (b e : nat) : Prop :=
  occurs_at (lit "<build>") s b
  /\ exists k, first_occurrence (lit "</build>") (skipn (b + 7) s) k
               /\ e = b + 7 + k + 8.

(** The leftmost build section of [s]. *)
Definition first_build_section (s : str) (b e : nat) : Prop :=
  build_section s b e /\ forall b' e', build_section s b' e' -> b <= b'.


(** A well-formed model whose object element is written as an empty-element
    tag. *)
Definition doc_empty_object : str :=
  lit "<model><resources><object id=" ++ quoted "1"
    ++ lit " /></resources><build></build></model>".

Definition doc_empty_object_fixed : str :=
  lit "<model><resources><object id=" ++ quoted "1" ++ lit " / name="
    ++ quoted "Red" ++ lit "></resources><build></build></model>".

(** A name that contains a double quote. *)
Definition name_with_quote : str := lit "a" ++ [dq] ++ lit "b".

(** No element of the store is a child of two elements: the elements form
    a forest, as in every parsed document. *)
Definition unique_parent (st : ET.store) : Prop :=
  forall l p p',
    In l (ET.children (ET.cell st p)) ->
    In l (ET.children (ET.cell st p')) -> p = p'.

(** ** Vocabulary of the colorgroup statements *)

(** The palette of a colour mode, as [insert_colorgroups] selects it. *)
Definition palette (color_mode : str) : sdict str :=
  if Str.eqb color_mode (lit "cmyw") then CMYW_COLORS else RYBW_COLORS.

(** A colorgroup element with its id and its one color child. *)
Definition colorgroup_node (id : str) (color : ET.loc) : ET.node :=
  ET.mkNode (material_tag (lit "colorgroup")) [(lit "id", id)] [] [] [color].

(** A color element with its value. *)
Definition color_node (value : str) : ET.node :=
  ET.mkNode (material_tag (lit "color")) [(lit "color", value)] [] [] [].

(** [l.insert(i, x)] on a list. *)
Definition list_insert (A : Type) (i : nat) (x : A) (l : list A) : list A :=
  firstn i l ++ [x] ++ skipn i l.

(** ** add_3mf_colors.py, get_triangles_info *)

(** Lines 295-298: one child of the triangles element. *)
Definition count_triangle (st : ET.store) (count : nat) (child : ET.loc) : nat :=
  if has_part "triangle" (ET.tag (ET.cell st child)) then S count else count.

(** Lines 270-300: one catalogued object. *)
Definition count_object (st : ET.store) (triangles_count : sdict nat)
  (obj : object_info) : sdict nat :=
  if obj_is_assembly obj then triangles_count
  else
    match ET.first_child st (has_part "mesh")
            (ET.children (ET.cell st (obj_element obj))) with
    | None => triangles_count
    | Some mesh =>
        match ET.first_child st (has_part "triangles")
                (ET.children (ET.cell st mesh)) with
        | None => triangles_count
        | Some triangles =>
            sset triangles_count (obj_name obj)
              (fold_left (count_triangle st)
                         (ET.children (ET.cell st triangles)) 0)
        end
    end.

Definition get_triangles_info (st : ET.store) (objects : list object_info)
  : sdict nat :=
  fold_left (count_object st) objects [].

(** ** Vocabulary of the counting statements *)

(** The object is counted by [get_triangles_info]: it is not an assembly and
    its first mesh child has a triangles child. *)
Definition counted (st : ET.store) (o : object_info) : bool :=
  negb (obj_is_assembly o)
  && match ET.first_child st (has_part "mesh")
             (ET.children (ET.cell st (obj_element o))) with
     | Some mesh =>
         match ET.first_child st (has_part "triangles")
                 (ET.children (ET.cell st mesh)) with
         | Some _ => true
         | None => false
         end
     | None => false
     end.

(** A document whose root has two resources children: the first in a
    namespace, the second without. *)
Definition store_two_resources : ET.store :=
  ET.mkStore
    (fun l =>
       match l with
       | 0 => ET.mkNode (lit "model") [] [] [] [1; 2]
       | 1 => ET.mkNode (lit "{urn:x}resources") [] [] [] []
       | 2 => ET.mkNode (lit "resources") [] [] [] []
       | _ => ET.mkNode [] [] [] [] []
       end)
    3.

(** The item counts for the statistics of [add_build_materials] under the
    object id [oid]: its part number is a key of the mapping and its
    objectid attribute is [oid]. *)
Definition reported_under (st : ET.store) (colorgroup_map : sdict str)
  (oid : option str) (item : ET.loc) : bool :=
  smem colorgroup_map (partnumber_of st item)
  && opt_eqb oid (ET.get st item (lit "objectid")).

(** ** add_3mf_colors.py, register_namespaces *)

(** The registry of ElementTree, from namespace to prefix, as it is when the
    module is loaded. *)
Definition default_namespace_map : sdict str :=
  [ (lit "http://www.w3.org/XML/1998/namespace", lit "xml");
    (lit "http://www.w3.org/1999/xhtml", lit "html");
    (lit "http://www.w3.org/1999/02/22-rdf-syntax-ns#", lit "rdf");
    (lit "http://schemas.xmlsoap.org/wsdl/", lit "wsdl");
    (lit "http://www.w3.org/2001/XMLSchema", lit "xs");
    (lit "http://www.w3.org/2001/XMLSchema-instance", lit "xsi");
    (lit "http://purl.org/dc/elements/1.1/", lit "dc") ].

(** The prefixes that [ET.register_namespace] refuses: ns and a run of
    digits, up to the end or to a final line feed. *)
Definition reserved_prefix (prefix : str) : bool :=
  Str.startswith (lit "ns") prefix
  && match Str.take_while Str.is_digit (skipn 2 prefix),
           Str.drop_while Str.is_digit (skipn 2 prefix) with
     | _ :: _, [] => true
     | _ :: _, [c] => Ascii.eqb c nl
     | _, _ => false
     end.

(** [ET.register_namespace(prefix, uri)]: the entries under the namespace
    or with the prefix are deleted, then the namespace gets the prefix. *)
Definition register_namespace (registry : sdict str) (prefix uri : str)
  : outcome (sdict str) :=
  if reserved_prefix prefix
  then Raises (ValueError (lit "Prefix format reserved for internal use"))
  else
    Returns
      (filter (fun kv => negb (Str.eqb (fst kv) uri || Str.eqb (snd kv) prefix))
              registry
         ++ [(uri, prefix)]).

(** Lines 53-58. *)
Definition register_namespaces (registry : sdict str) : outcome (sdict str) :=
  registry <- register_namespace registry [] MODEL_NAMESPACE ;;
  registry <- register_namespace registry (lit "b")
    (lit "http://schemas.microsoft.com/3dmanufacturing/beamlattice/2017/02") ;;
  registry <- register_namespace registry (lit "m") MATERIAL_NAMESPACE ;;
  registry <- register_namespace registry (lit "p")
    (lit "http://schemas.microsoft.com/3dmanufacturing/production/2015/06") ;;
  registry <- register_namespace registry (lit "s")
    (lit "http://schemas.microsoft.com/3dmanufacturing/slice/2015/07") ;;
  register_namespace registry (lit "sc")
    (lit "http://schemas.microsoft.com/3dmanufacturing/securecontent/2019/04").

(** ** Vocabulary of the registry statements *)

(** The six namespaces of 3MF with their prefixes, in the order of the
    calls. *)
Definition registered : sdict str :=
  [ (MODEL_NAMESPACE, []);
    (lit "http://schemas.microsoft.com/3dmanufacturing/beamlattice/2017/02",
     lit "b");
    (MATERIAL_NAMESPACE, lit "m");
    (lit "http://schemas.microsoft.com/3dmanufacturing/production/2015/06",
     lit "p");
    (lit "http://schemas.microsoft.com/3dmanufacturing/slice/2015/07",
     lit "s");
    (lit "http://schemas.microsoft.com/3dmanufacturing/securecontent/2019/04",
     lit "sc") ].

(** An entry of the registry that clashes with none of [entries]: neither
    its namespace nor its prefix is one of theirs. *)
Definition clear_of (entries : sdict str) (kv : str * str) : bool :=
  negb (Str.mem (fst kv) (map fst entries))
  && negb (Str.mem (snd kv) (map snd entries)).

(** The registry after the entries were registered one after the other. *)
Definition register_all (registry entries : sdict str) : sdict str :=
  fold_left
    (fun r e =>
       filter (fun kv => negb (Str.eqb (fst kv) (fst e)
                               || Str.eqb (snd kv) (snd e))) r ++ [e])
    entries registry.


(** An archive whose model entry is not UTF-8. *)
Definition archive_not_utf8 : archive :=
  [ (lit "3D/3dmodel.model", [Byte.xff; Byte.xfe]);
    (lit "_rels/.rels", Utf8.encode (lit "<Relationships/>")) ].

(** ** Vocabulary of the statements on the whole colour stage *)

(** Lines 569-578 of [add_colors_to_xml_string]: the mode in use. *)
Definition final_color_mode (objects : list object_info) (color_mode : str)
  : str :=
  if Str.eqb color_mode (lit "auto")
  then detect_color_mode
         (map obj_name (filter (fun obj => negb (obj_is_assembly obj)) objects))
  else color_mode.

(** Lines 591-597 of [add_colors_to_xml_string]: the document after the
    colorgroups were inserted and the triangles and build items tagged. *)
Definition colour_document (st : ET.store) (root resources : ET.loc)
  (objects : list object_info) (color_mode : str) : ET.store :=
  let '(colorgroup_map, st) := insert_colorgroups st resources color_mode in
  let '(triangle_stats, st) := add_triangle_colors st objects colorgroup_map in
  let '(build_stats, st) := add_build_materials st root colorgroup_map in
  st.

(** The elements of the store form a tree below [root], as in every parsed
    document: the root and the children of every element in existence are
    in existence, no element has two parents, and the root has none. *)
Definition well_formed (st : ET.store) (root : ET.loc) : Prop :=
  root < ET.next st
  /\ (forall l, l < ET.next st ->
                Forall (fun c => c < ET.next st) (ET.children (ET.cell st l)))
  /\ unique_parent st
  /\ (forall l, ~ In root (ET.children (ET.cell st l))).


(** A model with two objects and a build section with two items; [close]
    is the closing tag of the resources element. *)
Definition doc_two_objects (close : String.string) : str :=
  lit "<model><resources><object id=" ++ quoted "1"
    ++ lit "></object><object id=" ++ quoted "2" ++ lit "></object>"
    ++ lit close ++ lit "<build><item objectid=" ++ quoted "1"
    ++ lit "/><item objectid=" ++ quoted "2" ++ lit "/></build></model>".

(** A model whose object has a name attribute, written as [name_attr]. *)
Definition doc_named_object (name_attr : str) : str :=
  lit "<model><resources><object id=" ++ quoted "1" ++ lit " " ++ name_attr
    ++ lit "></object></resources></model>".

(** A model with three object start-tags that carry a numeric id, the
    first with a name and the second in upper case, and one object tag
    without id between the first two. *)
Definition doc_ranks : str :=
  lit "<resources><object id=" ++ quoted "5" ++ lit " name=" ++ quoted "old"
    ++ lit " type=" ++ quoted "model" ++ lit "></object><object pid="
    ++ quoted "7" ++ lit "></object><OBJECT  id=" ++ quoted "22"
    ++ lit "></OBJECT><object id=" ++ quoted "3"
    ++ lit "></object></resources>".

(** [doc_ranks] after the name-fix pass with the names Red and Blue. *)
Definition doc_ranks_fixed : str :=
  lit "<resources><object id=" ++ quoted "5" ++ lit " type=" ++ quoted "model"
    ++ lit " name=" ++ quoted "Red" ++ lit "></object><object pid="
    ++ quoted "7" ++ lit "></object><OBJECT  id=" ++ quoted "22"
    ++ lit " name=" ++ quoted "Blue" ++ lit "></OBJECT><object id="
    ++ quoted "3" ++ lit "></object></resources>".

(* ================================================================== *)
(** * Strings and dictionaries: basic facts *)
(* ================================================================== *)

Unset Implicit Arguments.

Lemma eqb_eq (a b : str) : Str.eqb a b = true <-> a = b.
Proof.
  unfold Str.eqb. destruct (list_eq_dec ascii_dec a b); split; congruence.
Qed.

Lemma eqb_refl (a : str) : Str.eqb a a = true.
Proof. apply eqb_eq. reflexivity. Qed.

Lemma eqb_neq (a b : str) : Str.eqb a b = false <-> a <> b.
Proof.
  unfold Str.eqb. destruct (list_eq_dec ascii_dec a b); split; congruence.
Qed.

Lemma eqb_sym (a b : str) : Str.eqb a b = Str.eqb b a.
Proof.
  destruct (Str.eqb a b) eqn:E.
  - apply eqb_eq in E. subst. symmetry. apply eqb_refl.
  - apply eqb_neq in E. symmetry. apply eqb_neq. congruence.
Qed.

Lemma mem_In (x : str) (l : list str) : Str.mem x l = true <-> In x l.
Proof.
  unfold Str.mem. rewrite existsb_exists. split.
  - intros [y [Hy E]]. apply eqb_eq in E. subst. assumption.
  - intros H. exists x. split; [assumption | apply eqb_refl].
Qed.

Lemma startswith_app (p r : str) : Str.startswith p (p ++ r) = true.
Proof.
  induction p as [|a p IH]; simpl; [reflexivity|].
  rewrite Ascii.eqb_refl. assumption.
Qed.

Lemma startswith_inv (p s : str) :
  Str.startswith p s = true -> exists r, s = p ++ r.
Proof.
  revert s. induction p as [|a p IH]; intros s H.
  - exists s. reflexivity.
  - destruct s as [|b s]; simpl in H; [discriminate|].
    apply andb_true_iff in H. destruct H as [E H].
    apply Ascii.eqb_eq in E. subst b.
    destruct (IH _ H) as [r ->]. exists r. reflexivity.
Qed.

Lemma startswith_iff (p s : str) :
  Str.startswith p s = true <-> exists r, s = p ++ r.
Proof.
  split; [apply startswith_inv|]. intros [r ->]. apply startswith_app.
Qed.

Lemma occurs_at_0 (sub s : str) :
  occurs_at sub s 0 <-> Str.startswith sub s = true.
Proof.
  rewrite startswith_iff. split.
  - intros [a [b [E L]]]. destruct a; [|discriminate]. exists b. assumption.
  - intros [r E]. exists [], r. split; [assumption | reflexivity].
Qed.

Lemma occurs_at_S (sub : str) (c : ascii) (s : str) (p : nat) :
  occurs_at sub (c :: s) (S p) <-> occurs_at sub s p.
Proof.
  split.
  - intros [a [b [E L]]]. destruct a as [|x a]; [discriminate|].
    simpl in E, L. injection E as _ E. exists a, b. split; [assumption | lia].
  - intros [a [b [E L]]]. exists (c :: a), b. subst s. split; simpl; [reflexivity | lia].
Qed.

Lemma occurs_at_nil (sub : str) (p : nat) :
  occurs_at sub [] p -> sub = [] /\ p = 0.
Proof.
  intros [a [b [E L]]]. symmetry in E. apply app_eq_nil in E.
  destruct E as [-> E]. apply app_eq_nil in E. destruct E as [-> _].
  split; [reflexivity | simpl in L; lia].
Qed.

Lemma find_occurs (sub s : str) (p : nat) :
  Str.find sub s = Some p -> occurs_at sub s p.
Proof.
  revert p. induction s as [|c s IH]; intros p; simpl;
    destruct (Str.startswith sub _) eqn:E.
  - intros H. injection H as <-. apply occurs_at_0. assumption.
  - discriminate.
  - intros H. injection H as <-. apply occurs_at_0. assumption.
  - destruct (Str.find sub s) as [q|]; simpl; [|discriminate].
    intros H. injection H as <-. apply occurs_at_S. apply IH. reflexivity.
Qed.

Lemma find_least (sub s : str) (p q : nat) :
  Str.find sub s = Some p -> occurs_at sub s q -> p <= q.
Proof.
  revert p q. induction s as [|c s IH]; intros p q; simpl;
    destruct (Str.startswith sub _) eqn:E.
  - intros H _. injection H as <-. lia.
  - discriminate.
  - intros H _. injection H as <-. lia.
  - destruct (Str.find sub s) as [m|]; simpl; [|discriminate].
    intros H Hq. injection H as <-. destruct q as [|q].
    + apply occurs_at_0 in Hq. congruence.
    + apply occurs_at_S in Hq. specialize (IH m q eq_refl Hq). lia.
Qed.

Lemma find_None (sub s : str) (q : nat) :
  Str.find sub s = None -> ~ occurs_at sub s q.
Proof.
  revert q. induction s as [|c s IH]; intros q; simpl;
    destruct (Str.startswith sub _) eqn:E; try discriminate.
  - intros _ Hq. destruct (occurs_at_nil _ _ Hq) as [-> _]. discriminate.
  - destruct (Str.find sub s) as [m|]; simpl; [discriminate|].
    intros _ Hq. destruct q as [|q].
    + apply occurs_at_0 in Hq. congruence.
    + apply occurs_at_S in Hq. exact (IH q eq_refl Hq).
Qed.

(** [str.find] returns the offset of the first occurrence. *)
Lemma find_Some (sub s : str) (p : nat) :
  Str.find sub s = Some p <-> first_occurrence sub s p.
Proof.
  split.
  - intros H. split; [exact (find_occurs _ _ _ H)|].
    intros q. apply find_least. assumption.
  - intros [H1 H2]. destruct (Str.find sub s) as [m|] eqn:F.
    + f_equal. pose proof (find_least _ _ _ _ F H1).
      pose proof (H2 _ (find_occurs _ _ _ F)). lia.
    + exfalso. exact (find_None _ _ _ F H1).
Qed.


Lemma endswith_iff (p s : str) :
  Str.endswith p s = true <-> exists a, s = a ++ p.
Proof.
  unfold Str.endswith. rewrite andb_true_iff, Nat.leb_le, eqb_eq. split.
  - intros [L E]. exists (firstn (length s - length p) s).
    pose proof (firstn_skipn (length s - length p) s) as H.
    rewrite E in H. symmetry. exact H.
  - intros [a ->]. rewrite length_app. split; [lia|].
    replace (length a + length p - length p) with (length a + 0) by lia.
    rewrite skipn_app, Nat.add_0_r, skipn_all.
    replace (length a - length a) with 0 by lia. reflexivity.
Qed.

Section DictFacts.
Variable V : Type.
Implicit Types (d : sdict V) (k : str) (v : V).

Lemma sget_sset_same d k v : sget (sset d k v) k = Some v.
Proof.
  unfold sget, sset. induction d as [|[k' v'] d IH]; simpl.
  - rewrite eqb_refl. reflexivity.
  - destruct (Str.eqb k k') eqn:E; simpl; rewrite E; [reflexivity | assumption].
Qed.

Lemma sget_sset_other d k k' v :
  k <> k' -> sget (sset d k v) k' = sget d k'.
Proof.
  intros N. unfold sget, sset. induction d as [|[k0 v0] d IH]; simpl.
  - apply not_eq_sym in N. apply eqb_neq in N. rewrite N. reflexivity.
  - destruct (Str.eqb k k0) eqn:E; simpl.
    + apply eqb_eq in E. subst k0.
      apply not_eq_sym in N. apply eqb_neq in N. rewrite N. reflexivity.
    + rewrite IH. reflexivity.
Qed.

Lemma sget_In_keys d k : sget d k <> None <-> In k (Dict.keys d).
Proof.
  unfold sget. induction d as [|[k' v'] d IH]; simpl.
  - split; [congruence | tauto].
  - destruct (Str.eqb k k') eqn:E.
    + apply eqb_eq in E. subst. split; [auto | congruence].
    + apply eqb_neq in E. rewrite IH. split; [auto|]. intros [H|H]; congruence.
Qed.

Lemma keys_sset_old d k v :
  In k (Dict.keys d) -> Dict.keys (sset d k v) = Dict.keys d.
Proof.
  unfold sset. induction d as [|[k' v'] d IH]; simpl; [tauto|].
  intros H. destruct (Str.eqb k k') eqn:E; simpl; [reflexivity|].
  apply eqb_neq in E. f_equal. apply IH. destruct H; congruence.
Qed.

Lemma keys_sset_new d k v :
  ~ In k (Dict.keys d) -> Dict.keys (sset d k v) = Dict.keys d ++ [k].
Proof.
  unfold sset. induction d as [|[k' v'] d IH]; simpl; [reflexivity|].
  intros H. destruct (Str.eqb k k') eqn:E; simpl.
  - apply eqb_eq in E. subst. tauto.
  - f_equal. apply IH. tauto.
Qed.

End DictFacts.

Lemma in_keys_dec (k : str) (l : list str) : {In k l} + {~ In k l}.
Proof. apply in_dec. apply list_eq_dec. apply ascii_dec. Qed.

(** ** Archives *)

Lemma read_in (a : archive) (name : str) :
  In name (ZipFile.namelist a) -> exists d, ZipFile.read a name = Returns d.
Proof.
  induction a as [|[n d] a IH]; simpl; [tauto|].
  intros H. destruct (ZipFile.read a name) as [d'|e] eqn:R.
  - exists d'. reflexivity.
  - destruct (Str.eqb name n) eqn:E.
    + exists d. reflexivity.
    + apply eqb_neq in E. destruct H as [H|H]; [congruence|].
      destruct (IH H) as [d' Hd']. discriminate.
Qed.

Lemma read_not_in (a : archive) (name : str) :
  ~ In name (ZipFile.namelist a) -> content_of a name = None.
Proof.
  unfold content_of. induction a as [|[n d] a IH]; simpl; [reflexivity|].
  intros H. destruct (ZipFile.read a name) as [d'|e] eqn:R.
  - exfalso. assert (G : Some d' = None) by (apply IH; tauto). discriminate.
  - destruct (Str.eqb name n) eqn:E; [|reflexivity].
    apply eqb_eq in E. subst. tauto.
Qed.


Lemma find_app_in (A : Type) (P : A -> bool) (l r : list A) (x : A) :
  In x l -> List.find P (l ++ x :: r) = List.find P (l ++ r).
Proof.
  induction l as [|y l IH]; simpl; [tauto|].
  intros [H|H].
  - subst y. destruct (P x) eqn:E; [reflexivity|].
    clear IH. induction l as [|z l IHl]; simpl.
    + rewrite E. reflexivity.
    + destruct (P z); [reflexivity | assumption].
  - destruct (P y); [reflexivity | auto].
Qed.



(** Lines 33-36 never raise, keep the order of first appearance of the
    names, and record for each name what the archive reads under it. *)
Lemma read_all_spec (a : archive) (names : list str) :
  forall acc : sdict bytes,
    (forall n, In n names -> In n (ZipFile.namelist a)) ->
    NoDup (Dict.keys acc) ->
    exists fd,
      read_all a names acc = Returns fd
      /\ NoDup (Dict.keys fd)
      /\ (forall P, List.find P (Dict.keys fd) = List.find P (Dict.keys acc ++ names))
      /\ (forall n, sget fd n =
                    if in_keys_dec n names then content_of a n else sget acc n).
Proof.
  induction names as [|n rest IH]; intros acc Hin Hnd.
  - exists acc. simpl. rewrite app_nil_r. repeat split; auto.
    intros n. destruct (in_keys_dec n []) as [[]|_]. reflexivity.
  - destruct (read_in a n (Hin n (or_introl eq_refl))) as [d Hd].
    assert (Hnd' : NoDup (Dict.keys (sset acc n d))).
    { destruct (in_keys_dec n (Dict.keys acc)) as [I|I].
      - rewrite keys_sset_old by assumption. assumption.
      - rewrite keys_sset_new by assumption.
        apply NoDup_app; [assumption | repeat constructor; simpl; tauto |].
        intros x Hx [<-|[]]. contradiction. }
    destruct (IH (sset acc n d) (fun m Hm => Hin m (or_intror Hm)) Hnd')
      as [fd [E [N [F G]]]].
    exists fd. simpl. rewrite Hd. simpl. repeat split; [assumption .. | |].
    + intros P. rewrite F.
      destruct (in_keys_dec n (Dict.keys acc)) as [I|I].
      * rewrite keys_sset_old by assumption. symmetry. apply find_app_in. assumption.
      * rewrite keys_sset_new by assumption. rewrite <- app_assoc. reflexivity.
    + intros m. rewrite G.
      destruct (in_keys_dec m rest) as [I|I];
        destruct (in_keys_dec m (n :: rest)) as [J|J]; try reflexivity.
      * exfalso. apply J. right. assumption.
      * destruct J as [<-|J]; [|contradiction].
        rewrite sget_sset_same. unfold content_of. rewrite Hd. reflexivity.
      * apply sget_sset_other. intros ->. apply J. left. reflexivity.
Qed.


(* ================================================================== *)
(** * Colour-mode detection *)
(* ================================================================== *)

Lemma smem_rybw (n : str) : smem RYBW_COLORS n = true <-> In n rybw_names.
Proof.
  unfold smem, Dict.mem, RYBW_COLORS, rybw_names. simpl.
  repeat match goal with
         | |- context [Str.eqb n ?k] =>
             let E := fresh "E" in
             destruct (Str.eqb n k) eqn:E;
             [apply eqb_eq in E; split; intros _; [subst; tauto | reflexivity]
             | apply eqb_neq in E]
         end.
  split; [discriminate|]. intros H.
  repeat destruct H as [H|H]; try (symmetry in H; contradiction). destruct H.
Qed.

Lemma smem_cmyw (n : str) : smem CMYW_COLORS n = true <-> In n cmyw_names.
Proof.
  unfold smem, Dict.mem, CMYW_COLORS, cmyw_names. simpl.
  repeat match goal with
         | |- context [Str.eqb n ?k] =>
             let E := fresh "E" in
             destruct (Str.eqb n k) eqn:E;
             [apply eqb_eq in E; split; intros _; [subst; tauto | reflexivity]
             | apply eqb_neq in E]
         end.
  split; [discriminate|]. intros H.
  repeat destruct H as [H|H]; try (symmetry in H; contradiction). destruct H.
Qed.

Lemma count_matches (d : sdict str) (palette : list str) (names : list str) :
  (forall n, smem d n = true <-> In n palette) ->
  length (filter (smem d) names) = matches palette names.
Proof.
  intros H. unfold matches. f_equal. apply filter_ext. intros n.
  destruct (in_dec (list_eq_dec ascii_dec) n palette) as [I|I].
  - apply H. assumption.
  - destruct (smem d n) eqn:E; [|reflexivity]. apply H in E. contradiction.
Qed.

(** C8.  [detect_color_mode] counts, for each of the two palettes, the
    candidate names that are equal to one of its four entry names; it
    answers cmyw when the cmyw count is strictly higher, and rybw in every
    other case, ties and zero matches included. *)
Theorem detect_color_mode_majority (names : list str) :
  rybw_count names = matches rybw_names names
  /\ cmyw_count names = matches cmyw_names names
  /\ (matches rybw_names names < matches cmyw_names names ->
      detect_color_mode names = lit "cmyw")
  /\ (matches cmyw_names names <= matches rybw_names names ->
      detect_color_mode names = lit "rybw").
Proof.
  assert (R : rybw_count names = matches rybw_names names)
    by (apply count_matches; apply smem_rybw).
  assert (C : cmyw_count names = matches cmyw_names names)
    by (apply count_matches; apply smem_cmyw).
  repeat split; try assumption; unfold detect_color_mode; rewrite R, C; intros H.
  - apply Nat.ltb_lt in H. rewrite H. reflexivity.
  - destruct (matches rybw_names names <? matches cmyw_names names) eqn:E.
    + apply Nat.ltb_lt in E. lia.
    + destruct (matches cmyw_names names <? matches rybw_names names); reflexivity.
Qed.

(** The two scenarios of the specification: a tie between the palettes
    gives rybw, two cmyw-only names give cmyw. *)
Lemma detect_color_mode_scenarios :
  (matches cmyw_names [lit "Yellow"; lit "White"]
     <= matches rybw_names [lit "Yellow"; lit "White"]
   /\ detect_color_mode [lit "Yellow"; lit "White"] = lit "rybw")
  /\ (matches rybw_names [lit "Cyan"; lit "Magenta"]
        < matches cmyw_names [lit "Cyan"; lit "Magenta"]
      /\ detect_color_mode [lit "Cyan"; lit "Magenta"] = lit "cmyw").
Proof.
  split.
  - assert (H : matches cmyw_names [lit "Yellow"; lit "White"]
                <= matches rybw_names [lit "Yellow"; lit "White"])
      by (vm_compute; lia).
    split; [exact H|].
    exact (proj2 (proj2 (proj2
             (detect_color_mode_majority [lit "Yellow"; lit "White"]))) H).
  - assert (H : matches rybw_names [lit "Cyan"; lit "Magenta"]
                < matches cmyw_names [lit "Cyan"; lit "Magenta"])
      by (vm_compute; lia).
    split; [exact H|].
    exact (proj1 (proj2 (proj2
             (detect_color_mode_majority [lit "Cyan"; lit "Magenta"]))) H).
Defined.

(* ================================================================== *)
(** * The archive rewrite of safe_fix_3mf_names *)
(* ================================================================== *)



Section ArchiveRewrite.

Variable utf8_encode : str -> bytes.
Variable utf8_decode : bytes -> option str.
Variable ET_fromstring : bytes -> option (ET.store * ET.loc).
Variable ET_tostring : ET.store -> ET.loc -> bytes.

Local Notation fix_names :=
  (safe_fix_3mf_names utf8_encode utf8_decode ET_fromstring ET_tostring).
Local Notation colorize :=
  (add_colors_to_xml_string utf8_encode utf8_decode ET_fromstring ET_tostring).





End ArchiveRewrite.

(* ================================================================== *)
(** * Locating the resources element *)
(* ================================================================== *)

Lemma split_without (sep : ascii) (y : str) :
  ~ In sep y -> Str.split sep y = [y].
Proof.
  induction y as [|c y IH]; simpl; intros H; [reflexivity|].
  destruct (Ascii.eqb c sep) eqn:E.
  - apply Ascii.eqb_eq in E. subst. tauto.
  - rewrite IH by tauto. reflexivity.
Qed.

Lemma split_last (sep : ascii) (y : str) :
  ~ In sep y ->
  forall x, exists p ps, Str.split sep (x ++ sep :: y) = p :: ps ++ [y].
Proof.
  intros H x. induction x as [|c x [p [ps IH]]]; simpl.
  - rewrite Ascii.eqb_refl, split_without by assumption. exists [], []. reflexivity.
  - destruct (Ascii.eqb c sep).
    + exists [], (p :: ps). rewrite IH. reflexivity.
    + rewrite IH. exists (c :: p), ps. reflexivity.
Qed.

(** A tag that is the bare name, or that ends with a closing brace and the
    name, passes the tag test of the module. *)
Lemma has_part_resources (t : str) :
  t = lit "resources" \/ (exists x, t = x ++ lit "}resources") ->
  has_part "resources" t = true.
Proof.
  assert (N : ~ In "}"%char (lit "resources")).
  { simpl. intros H. repeat destruct H as [H|H]; try discriminate. destruct H. }
  unfold has_part. intros [->|[x ->]].
  - reflexivity.
  - apply mem_In. change (lit "}resources") with ("}"%char :: lit "resources").
    destruct (split_last "}"%char (lit "resources") N x) as [p [ps ->]].
    right. apply in_or_app. right. left. reflexivity.
Qed.

Lemma first_child_none_impl (st : ET.store) (p q : str -> bool) (cs : list ET.loc) :
  (forall t, p t = true -> q t = true) ->
  ET.first_child st q cs = None -> ET.first_child st p cs = None.
Proof.
  intros H. induction cs as [|c cs IH]; simpl; [reflexivity|].
  destruct (q (ET.tag (ET.cell st c))) eqn:Q; [discriminate|].
  destruct (p (ET.tag (ET.cell st c))) eqn:P.
  - apply H in P. congruence.
  - assumption.
Qed.

(** Whatever [elem.find] finds under the path resources, or under a path
    made of a namespace in braces and resources, passes the tag test. *)
Lemma find_resources_none (st : ET.store) (root : ET.loc) (ns : str) :
  no_resources st root ->
  ET.find st root (lit "resources") = None
  /\ ET.find st root (lit "{" ++ ns ++ lit "}resources") = None.
Proof.
  unfold no_resources. intros H. split.
  - unfold ET.find. change (Str.startswith (lit "{*}") (lit "resources")) with false.
    cbv iota. revert H. apply first_child_none_impl.
    intros t E. apply eqb_eq in E. apply has_part_resources. left. assumption.
  - unfold ET.find. destruct (Str.startswith _ _) eqn:S; revert H;
      apply first_child_none_impl; intros t E.
    + apply has_part_resources.
      apply startswith_inv in S. destruct S as [r S].
      change (lit "{" ++ ns ++ lit "}resources")
        with ("{"%char :: ns ++ lit "}resources") in *.
      change (lit "{*}" ++ r) with ("{"%char :: "*"%char :: "}"%char :: r) in S.
      rewrite S in E. cbn [skipn] in E.
      injection S as S.
      assert (R : r = lit "resources" \/ exists x, r = x ++ lit "}resources").
      { destruct ns as [|c [|c' ns]]; try discriminate S.
        - left. injection S as _ S. symmetry. exact S.
        - right. exists ns. injection S as _ _ S. symmetry. exact S. }
      apply orb_true_iff in E. destruct E as [E|E].
      * apply eqb_eq in E. rewrite E. destruct R as [R|[x R]]; rewrite R; eauto.
      * apply endswith_iff in E. destruct E as [a E].
        right. destruct R as [R|[x R]]; rewrite R in E.
        -- exists a. assumption.
        -- exists (a ++ "}"%char :: x). rewrite E, <- app_assoc. reflexivity.
    + apply eqb_eq in E. apply has_part_resources. right.
      exists (lit "{" ++ ns). rewrite E, <- app_assoc. reflexivity.
Qed.

(** The three attempts of [get_objects_info] fail exactly when no child of
    the root passes the tag test for resources. *)
Lemma locate_resources_none (st : ET.store) (root : ET.loc) :
  locate_resources st root = None <-> no_resources st root.
Proof.
  unfold locate_resources. split.
  - intros H.
    destruct (ET.find st root (lit "resources")); [discriminate|].
    match type of H with
    | match ?x with _ => _ end = None => destruct x; [discriminate | exact H]
    end.
  - intros H.
    destruct (find_resources_none st root [] H) as [F1 _]. rewrite F1.
    match goal with
    | |- match ?x with _ => _ end = None =>
        assert (E : x = None); [|rewrite E; exact H]
    end.
    destruct (if Str.contains _ _ then _ else _) as [|c ns]; [reflexivity|].
    apply (find_resources_none st root (c :: ns) H).
Qed.

(* ================================================================== *)
(** * Failures of the entry points *)
(* ================================================================== *)

Section Failures.

Variable utf8_encode : str -> bytes.
Variable utf8_decode : bytes -> option str.
Variable ET_fromstring : bytes -> option (ET.store * ET.loc).
Variable ET_tostring : ET.store -> ET.loc -> bytes.

Local Notation fix_names :=
  (safe_fix_3mf_names utf8_encode utf8_decode ET_fromstring ET_tostring).
Local Notation colorize :=
  (add_colors_to_xml_string utf8_encode utf8_decode ET_fromstring ET_tostring).






(** When the colour stage raises, the dictionary written back is the one
    read: the entry of the model keeps the bytes it had. *)
Lemma colour_stage_failure (files_data : sdict bytes) (model_file content : str)
  (slot_names : list str) (cm : option str) (e : exn) :
  colorize content
    (match cm with None => detect_color_mode slot_names | Some m => m end)
  = Raises e ->
  colour_stage utf8_encode utf8_decode ET_fromstring ET_tostring
    files_data model_file content slot_names true cm
  = Returns files_data.
Proof.
  intros H. unfold colour_stage, try_except, bind. rewrite H. reflexivity.
Qed.

End Failures.

(** ** The concrete codec *)




(* ================================================================== *)
(** * Runs of the entry points on concrete archives *)
(* ================================================================== *)

(** C1.  On an archive whose model has no resources element, with colours
    enabled: the textual pass renames the object, the colour stage raises,
    and the function writes the archive back with the bytes the model entry
    had before, which are not those of the renamed text. *)
Theorem colour_failure_loses_the_rename :
  fix_text doc_no_resources [lit "Red"] true = doc_no_resources_renamed
  /\ add_colors_to_xml_string Utf8.encode Utf8.decode
       MiniXML.fromstring MiniXML.tostring
       doc_no_resources_renamed (detect_color_mode [lit "Red"])
     = Raises (ValueError (lit "<resources> element missing in XML"))
  /\ safe_fix_3mf_names Utf8.encode Utf8.decode
       MiniXML.fromstring MiniXML.tostring
       (Zip archive_no_resources) [lit "Red"] true true None
     = Returns (Zip archive_no_resources)
  /\ content_of archive_no_resources (lit "3D/3dmodel.model")
     = Some (Utf8.encode doc_no_resources)
  /\ Utf8.encode doc_no_resources <> Utf8.encode doc_no_resources_renamed.
Proof.
  repeat split; try (vm_compute; reflexivity).
  vm_compute. discriminate.
Qed.




(* ================================================================== *)
(** * Colorgroup insertion *)
(* ================================================================== *)

Ltac simpl_eqb :=
  repeat first
    [ rewrite Nat.eqb_refl
    | match goal with
      | |- context [?a =? ?b] => rewrite (proj2 (Nat.eqb_neq a b)) by lia
      end ].

(** Lines 338-351 for one palette entry: two elements are created at the
    next two locations and nothing else is touched. *)
Lemma make_colorgroup_spec (color_mode : str) (elems : list ET.loc)
  (cmap : sdict str) (st : ET.store) (name value : str) :
  exists st',
    make_colorgroup color_mode (elems, cmap, st) (name, value)
    = (elems ++ [ET.next st],
       sset cmap name (get_colorgroup_id name color_mode), st')
    /\ ET.next st' = ET.next st + 2
    /\ ET.cell st' (ET.next st)
       = colorgroup_node (get_colorgroup_id name color_mode) (ET.next st + 1)
    /\ ET.cell st' (ET.next st + 1) = color_node value
    /\ forall l, l < ET.next st -> ET.cell st' l = ET.cell st l.
Proof.
  eexists. split; [reflexivity|].
  unfold ET.SubElement, ET.Element, ET.set, ET.append, ET.write.
  cbn [ET.cell ET.next fst snd].
  replace (ET.next st + 1) with (S (ET.next st)) by lia.
  split; [lia|].
  split; [|split].
  - simpl_eqb. reflexivity.
  - simpl_eqb. reflexivity.
  - intros l H. simpl_eqb. reflexivity.
Qed.

Lemma first_index_ext (st st' : ET.store) (p : str -> bool) (cs : list ET.loc) :
  Forall (fun c => ET.cell st' c = ET.cell st c) cs ->
  forall i, first_index st' p i cs = first_index st p i cs.
Proof.
  induction 1 as [|c cs E F IH]; intros i; simpl; [reflexivity|].
  rewrite E, IH. reflexivity.
Qed.

Lemma first_index_bound (st : ET.store) (p : str -> bool) (cs : list ET.loc) :
  forall k i, first_index st p k cs = Some i -> k <= i < k + length cs.
Proof.
  induction cs as [|c cs IH]; intros k i; simpl; [discriminate|].
  destruct (p (ET.tag (ET.cell st c))).
  - intros H. injection H as <-. lia.
  - intros H. apply IH in H. lia.
Qed.

(** The index found by lines 354-358 is that of the first child that passes
    the object test. *)
Lemma first_index_first (st : ET.store) (p : str -> bool) (cs : list ET.loc) :
  forall i,
    first_index st p 0 cs = Some i ->
    (exists c, nth_error cs i = Some c /\ p (ET.tag (ET.cell st c)) = true)
    /\ forall j c, j < i -> nth_error cs j = Some c ->
                   p (ET.tag (ET.cell st c)) = false.
Proof.
  assert (G : forall k i,
             first_index st p k cs = Some i ->
             (exists c, nth_error cs (i - k) = Some c
                        /\ p (ET.tag (ET.cell st c)) = true)
             /\ forall j c, j < i - k -> nth_error cs j = Some c ->
                            p (ET.tag (ET.cell st c)) = false).
  { induction cs as [|x cs IH]; intros k i; simpl; [discriminate|].
    destruct (p (ET.tag (ET.cell st x))) eqn:P.
    - intros H. injection H as <-. rewrite Nat.sub_diag. split.
      + exists x. split; [reflexivity | exact P].
      + intros j c H. lia.
    - intros H. pose proof (first_index_bound _ _ _ _ _ H) as B.
      destruct (IH _ _ H) as [[c [N Pc]] L].
      replace (i - k) with (S (i - S k)) by lia. split.
      + exists c. split; [exact N | exact Pc].
      + intros [|j] c' Hj Hn; simpl in Hn.
        * injection Hn as <-. exact P.
        * apply (L j); [lia | exact Hn]. }
  intros i H. specialize (G 0 i H). rewrite Nat.sub_0_r in G. exact G.
Qed.

Lemma first_index_none (st : ET.store) (p : str -> bool) (cs : list ET.loc) :
  forall k, first_index st p k cs = None ->
            forall c, In c cs -> p (ET.tag (ET.cell st c)) = false.
Proof.
  induction cs as [|x cs IH]; intros k H c; simpl in *; [tauto|].
  destruct (p (ET.tag (ET.cell st x))) eqn:P; [discriminate|].
  intros [<-|I]; [exact P | exact (IH _ H c I)].
Qed.

Lemma list_insert_again (A : Type) (i : nat) (x : A) (l mid : list A) :
  i <= length l ->
  list_insert i x (firstn i l ++ mid ++ skipn i l)
  = firstn i l ++ (x :: mid) ++ skipn i l.
Proof.
  intros H. unfold list_insert.
  assert (L : length (firstn i l) = i) by (rewrite length_firstn; lia).
  rewrite firstn_app, skipn_app, L, Nat.sub_diag.
  rewrite firstn_firstn, Nat.min_id. simpl.
  rewrite (@skipn_all2 _ i (firstn i l)) by lia.
  rewrite app_nil_r. simpl. reflexivity.
Qed.

(** One iteration of the insertion loop touches the resources element
    only, and only its list of children. *)
Lemma place_colorgroup_other (resources : ET.loc) (oi : option nat)
  (st : ET.store) (c l : ET.loc) :
  l <> resources ->
  ET.cell (place_colorgroup resources oi st c) l = ET.cell st l.
Proof.
  intros H. destruct oi; unfold place_colorgroup, ET.insert, ET.append, ET.write;
    cbn [ET.cell]; rewrite (proj2 (Nat.eqb_neq l resources) H); reflexivity.
Qed.

Lemma place_colorgroup_resources (resources : ET.loc) (oi : option nat)
  (st : ET.store) (c : ET.loc) :
  ET.cell (place_colorgroup resources oi st c) resources
  = ET.set_children (ET.cell st resources)
      (match oi with
       | Some i => list_insert i c (ET.children (ET.cell st resources))
       | None => ET.children (ET.cell st resources) ++ [c]
       end).
Proof.
  destruct oi; unfold place_colorgroup, ET.insert, ET.append, ET.write;
    cbn [ET.cell]; rewrite Nat.eqb_refl; reflexivity.
Qed.

(** What [insert_colorgroups] does to a resources element that exists in
    the store together with its children: the mapping is the id table of the
    mode; the four colorgroups and their color children are created at the
    next eight locations, in palette order; the children of resources get
    the colorgroups before the first object child in palette order, or, when
    there is no object child, at the end in reverse palette order; the
    existing children keep their order, and no other element changes. *)
Lemma insert_colorgroups_spec (st : ET.store) (resources : ET.loc)
  (color_mode : str) :
  resources < ET.next st ->
  Forall (fun c => c < ET.next st) (ET.children (ET.cell st resources)) ->
  fst (insert_colorgroups st resources color_mode)
  = map (fun e => (fst e, get_colorgroup_id (fst e) color_mode))
        (palette color_mode)
  /\ (forall k e,
         nth_error (palette color_mode) k = Some e ->
         ET.cell (snd (insert_colorgroups st resources color_mode))
                 (ET.next st + 2 * k)
         = colorgroup_node (get_colorgroup_id (fst e) color_mode)
                           (ET.next st + 2 * k + 1)
         /\ ET.cell (snd (insert_colorgroups st resources color_mode))
                    (ET.next st + 2 * k + 1)
            = color_node (snd e))
  /\ ET.children (ET.cell (snd (insert_colorgroups st resources color_mode))
                          resources)
     = match first_index st (has_part "object") 0
               (ET.children (ET.cell st resources)) with
       | Some i =>
           firstn i (ET.children (ET.cell st resources))
             ++ [ET.next st; ET.next st + 2; ET.next st + 4; ET.next st + 6]
             ++ skipn i (ET.children (ET.cell st resources))
       | None =>
           ET.children (ET.cell st resources)
             ++ [ET.next st + 6; ET.next st + 4; ET.next st + 2; ET.next st]
       end
  /\ ET.tag (ET.cell (snd (insert_colorgroups st resources color_mode)) resources)
     = ET.tag (ET.cell st resources)
  /\ ET.attrib (ET.cell (snd (insert_colorgroups st resources color_mode))
                        resources)
     = ET.attrib (ET.cell st resources)
  /\ (forall l, l < ET.next st -> l <> resources ->
                ET.cell (snd (insert_colorgroups st resources color_mode)) l
                = ET.cell st l).
Proof.
  intros R C. unfold insert_colorgroups. fold (palette color_mode).
  assert (P : exists n1 v1 n2 v2 n3 v3 n4 v4,
             palette color_mode = [(n1, v1); (n2, v2); (n3, v3); (n4, v4)]).
  { unfold palette. destruct (Str.eqb color_mode (lit "cmyw"));
      repeat eexists; reflexivity. }
  destruct P as [n1 [v1 [n2 [v2 [n3 [v3 [n4 [v4 P]]]]]]]]. rewrite P.
  cbn [fold_left].
  destruct (make_colorgroup_spec color_mode [] [] st n1 v1)
    as [st1 [E1 [N1 [A1 [B1 C1]]]]]. unfold sdict, Dict.t in E1. rewrite E1.
  destruct (make_colorgroup_spec color_mode ([] ++ [ET.next st])
              (sset [] n1 (get_colorgroup_id n1 color_mode)) st1 n2 v2)
    as [st2 [E2 [N2 [A2 [B2 C2]]]]]. unfold sdict, Dict.t in E2. rewrite E2.
  destruct (make_colorgroup_spec color_mode
              (([] ++ [ET.next st]) ++ [ET.next st1])
              (sset (sset [] n1 (get_colorgroup_id n1 color_mode)) n2
                    (get_colorgroup_id n2 color_mode)) st2 n3 v3)
    as [st3 [E3 [N3 [A3 [B3 C3]]]]]. unfold sdict, Dict.t in E3. rewrite E3.
  destruct (make_colorgroup_spec color_mode
              ((([] ++ [ET.next st]) ++ [ET.next st1]) ++ [ET.next st2])
              (sset (sset (sset [] n1 (get_colorgroup_id n1 color_mode)) n2
                          (get_colorgroup_id n2 color_mode)) n3
                    (get_colorgroup_id n3 color_mode)) st3 n4 v4)
    as [st4 [E4 [N4 [A4 [B4 C4]]]]]. unfold sdict, Dict.t in E4. rewrite E4.
  clear E1 E2 E3 E4.
  rewrite N1 in *. rewrite N2 in *. rewrite N3 in *.
  set (n := ET.next st) in *.
  assert (K : forall l, l < n -> ET.cell st4 l = ET.cell st l).
  { intros l H. rewrite C4, C3, C2, C1 by lia. reflexivity. }
  assert (FI : first_index st4 (has_part "object") 0
                 (ET.children (ET.cell st4 resources))
               = first_index st (has_part "object") 0
                   (ET.children (ET.cell st resources))).
  { rewrite (K resources R). apply first_index_ext.
    eapply Forall_impl; [|exact C]. intros c H. apply K. exact H. }
  rewrite FI. cbn [fst snd].
  split.
  { unfold palette in P. unfold sset.
    destruct (Str.eqb color_mode (lit "cmyw")); injection P as <- <- <- <- <- <- <- <-;
      reflexivity. }
  cbn [app rev fold_left].
  assert (Cells : forall st5,
             (forall l, l <> resources -> ET.cell st5 l = ET.cell st4 l) ->
             forall k e,
               nth_error [(n1, v1); (n2, v2); (n3, v3); (n4, v4)] k = Some e ->
               ET.cell st5 (n + 2 * k)
               = colorgroup_node (get_colorgroup_id (fst e) color_mode)
                                 (n + 2 * k + 1)
               /\ ET.cell st5 (n + 2 * k + 1) = color_node (snd e)).
  { intros st5 O k e H.
    rewrite !O by lia.
    destruct k as [|[|[|[|k]]]]; simpl in H; try (destruct k; discriminate);
      injection H as <-; simpl fst; simpl snd.
    - replace (n + 2 * 0) with n by lia.
      split; rewrite C4, C3, C2 by lia; assumption.
    - replace (n + 2 * 1) with (n + 2) by lia.
      split; rewrite C4, C3 by lia; assumption.
    - replace (n + 2 * 2) with (n + 2 + 2) by lia.
      split; rewrite C4 by lia; assumption.
    - replace (n + 2 * 3) with (n + 2 + 2 + 2) by lia.
      split; assumption. }
  split.
  { apply Cells. intros l H. rewrite !place_colorgroup_other by exact H.
    reflexivity. }
  rewrite !place_colorgroup_resources. cbn [ET.children ET.set_children ET.tag ET.attrib].
  rewrite (K resources R).
  split; [|split; [reflexivity|split; [reflexivity|]]].
  - destruct (first_index st (has_part "object") 0
                (ET.children (ET.cell st resources))) as [i|] eqn:I.
    + apply first_index_bound in I. simpl in I.
      unfold list_insert at 4.
      rewrite !list_insert_again by lia.
      replace (n + 2 + 2) with (n + 4) by lia.
      replace (n + 4 + 2) with (n + 6) by lia. reflexivity.
    + rewrite <- !app_assoc.
      replace (n + 2 + 2) with (n + 4) by lia.
      replace (n + 4 + 2) with (n + 6) by lia. reflexivity.
  - intros l L D. rewrite !place_colorgroup_other by exact D. apply K. exact L.
Qed.

(** C2.  On a resources element without an object child, in rybw mode:
    the four colorgroups are created with the fixed ids and colours and the
    existing child keeps its place, but the colorgroups are appended last
    palette entry first (White, Blue, Yellow, Red), not in palette order. *)
Theorem colorgroups_appended_in_reverse :
  first_index store_no_object (has_part "object") 0
    (ET.children (ET.cell store_no_object 0)) = None
  /\ fst (insert_colorgroups store_no_object 0 (lit "rybw"))
     = [ (lit "Red", lit "1"); (lit "Yellow", lit "2");
         (lit "Blue", lit "3"); (lit "White", lit "4") ]
  /\ ET.children
       (ET.cell (snd (insert_colorgroups store_no_object 0 (lit "rybw"))) 0)
     = [1; 8; 6; 4; 2]
  /\ map (fun l =>
            ET.get (snd (insert_colorgroups store_no_object 0 (lit "rybw")))
                   l (lit "id"))
         [8; 6; 4; 2]
     = [Some (lit "4"); Some (lit "3"); Some (lit "2"); Some (lit "1")]
  /\ map (fun l =>
            map (fun c =>
                   ET.get (snd (insert_colorgroups store_no_object 0 (lit "rybw")))
                          c (lit "color"))
                (ET.children
                   (ET.cell (snd (insert_colorgroups store_no_object 0
                                    (lit "rybw"))) l)))
         [8; 6; 4; 2]
     = [ [Some (lit "#FFFFFFFF")]; [Some (lit "#0000FFFF")];
         [Some (lit "#FFFF00FF")]; [Some (lit "#FF0000FF")] ].
Proof.
  repeat split; vm_compute; reflexivity.
Qed.

(* ================================================================== *)
(** * Triangle and build-item tagging *)
(* ================================================================== *)

Lemma get_set_same (st : ET.store) (l : ET.loc) (k v : str) :
  ET.get (ET.set st l k v) l k = Some v.
Proof.
  unfold ET.get, ET.set, ET.write. simpl. rewrite Nat.eqb_refl. simpl.
  apply sget_sset_same.
Qed.

Lemma get_set_other_key (st : ET.store) (l l' : ET.loc) (k k' v : str) :
  k' <> k -> ET.get (ET.set st l k v) l' k' = ET.get st l' k'.
Proof.
  intros N. unfold ET.get, ET.set, ET.write. simpl.
  destruct (l' =? l) eqn:E; [|reflexivity].
  apply Nat.eqb_eq in E. subst l'. simpl. apply sget_sset_other. congruence.
Qed.

Lemma cell_set_other (st : ET.store) (l l' : ET.loc) (k v : str) :
  l' <> l -> ET.cell (ET.set st l k v) l' = ET.cell st l'.
Proof.
  intros N. unfold ET.set, ET.write. simpl.
  destruct (l' =? l) eqn:E; [|reflexivity].
  apply Nat.eqb_eq in E. contradiction.
Qed.

Lemma get_cell_eq (a b : ET.store) (l : ET.loc) (k : str) :
  ET.cell a l = ET.cell b l -> ET.get a l k = ET.get b l k.
Proof. intros E. unfold ET.get. rewrite E. reflexivity. Qed.

Lemma same_shapes_refl (st : ET.store) : same_shapes st st.
Proof. intros l. repeat split. Qed.

Lemma same_shapes_trans (a b c : ET.store) :
  same_shapes a b -> same_shapes b c -> same_shapes a c.
Proof.
  intros H1 H2 l. destruct (H1 l) as [? [? [? ?]]]. destruct (H2 l) as [? [? [? ?]]].
  repeat split; congruence.
Qed.

Lemma same_shapes_sym (a b : ET.store) : same_shapes a b -> same_shapes b a.
Proof.
  intros H l. destruct (H l) as [? [? [? ?]]]. repeat split; congruence.
Qed.

Lemma same_shapes_set (st : ET.store) (l : ET.loc) (k v : str) :
  same_shapes st (ET.set st l k v).
Proof.
  intros l'. unfold ET.set, ET.write. simpl.
  destruct (l' =? l) eqn:E; [|repeat split].
  apply Nat.eqb_eq in E. subst l'. repeat split.
Qed.

Lemma first_child_shapes (st st' : ET.store) (p : str -> bool) (cs : list ET.loc) :
  same_shapes st st' -> ET.first_child st' p cs = ET.first_child st p cs.
Proof.
  intros H. induction cs as [|c cs IH]; simpl; [reflexivity|].
  destruct (H c) as [-> _]. rewrite IH. reflexivity.
Qed.

Lemma filter_tag_shapes (st st' : ET.store) (p : str -> bool) (cs : list ET.loc) :
  same_shapes st st' ->
  filter (fun l => p (ET.tag (ET.cell st' l))) cs
  = filter (fun l => p (ET.tag (ET.cell st l))) cs.
Proof.
  intros H. apply filter_ext. intros l. destruct (H l) as [-> _]. reflexivity.
Qed.

Lemma triangle_elements_shapes (st st' : ET.store) (obj : ET.loc) :
  same_shapes st st' -> triangle_elements st' obj = triangle_elements st obj.
Proof.
  intros H. unfold triangle_elements.
  destruct (H obj) as [_ [_ [_ ->]]]. rewrite (first_child_shapes st st') by assumption.
  destruct (ET.first_child st _ _) as [mesh|]; [|reflexivity].
  destruct (H mesh) as [_ [_ [_ ->]]]. rewrite (first_child_shapes st st') by assumption.
  destruct (ET.first_child st _ _) as [ts|]; [|reflexivity].
  destruct (H ts) as [_ [_ [_ ->]]]. apply filter_tag_shapes. assumption.
Qed.

Lemma pid_not_p1 : lit "pid" <> lit "p1".
Proof. discriminate. Qed.

(** Lines 433-437: the loop over the children of a triangles element. *)
Lemma tag_triangles_spec (id : str) (cs : list ET.loc) :
  forall (count : nat) (st0 : ET.store),
    let st' := snd (fold_left (tag_triangle id) cs (count, st0)) in
    same_shapes st0 st'
    /\ (forall l k, k <> lit "pid" -> k <> lit "p1" ->
                    ET.get st' l k = ET.get st0 l k)
    /\ (forall l, In l cs ->
                  has_part "triangle" (ET.tag (ET.cell st0 l)) = true ->
                  ET.get st' l (lit "pid") = Some id
                  /\ ET.get st' l (lit "p1") = Some (lit "0"))
    /\ (forall l, ~ (In l cs
                     /\ has_part "triangle" (ET.tag (ET.cell st0 l)) = true) ->
                  ET.cell st' l = ET.cell st0 l).
Proof.
  induction cs as [|t cs IH]; intros count st0; cbv zeta; cbn [fold_left].
  - simpl. repeat split; tauto.
  - change (tag_triangle id (count, st0) t)
      with (if has_part "triangle" (ET.tag (ET.cell st0 t))
            then (S count,
                  ET.set (ET.set st0 t (lit "pid") id) t (lit "p1") (lit "0"))
            else (count, st0)).
    destruct (has_part "triangle" (ET.tag (ET.cell st0 t))) eqn:T.
    + set (st1 := ET.set (ET.set st0 t (lit "pid") id) t (lit "p1") (lit "0")).
      assert (S1 : same_shapes st0 st1).
      { apply same_shapes_trans with (ET.set st0 t (lit "pid") id);
          apply same_shapes_set. }
      pose proof (IH (S count) st1) as IH1. cbv zeta in IH1.
      destruct IH1 as [A [B [C D]]].
      split; [apply same_shapes_trans with st1; assumption|].
      split; [|split].
      * intros l k N1 N2. rewrite B by assumption. unfold st1.
        rewrite !get_set_other_key by assumption. reflexivity.
      * intros l I H. destruct (in_dec Nat.eq_dec l cs) as [J|J].
        -- apply C; [assumption|]. destruct (S1 l) as [-> _]. assumption.
        -- destruct I as [<-|I]; [|contradiction].
           assert (E : ET.cell (snd (fold_left (tag_triangle id) cs (S count, st1))) t
                       = ET.cell st1 t) by (apply D; tauto).
           rewrite !(get_cell_eq _ _ _ _ E). unfold st1. split.
           ++ rewrite get_set_other_key by exact pid_not_p1. apply get_set_same.
           ++ apply get_set_same.
      * intros l N. assert (L : l <> t).
        { intros ->. apply N. split; [left; reflexivity | assumption]. }
        rewrite D.
        -- unfold st1. rewrite !cell_set_other by assumption. reflexivity.
        -- intros [J H]. apply N. split; [right; assumption|].
           destruct (S1 l) as [E _]. rewrite <- E. assumption.
    + pose proof (IH count st0) as IH1. cbv zeta in IH1.
      destruct IH1 as [A [B [C D]]].
      split; [assumption|]. split; [assumption|]. split.
      * intros l [<-|I] H; [congruence | apply C; assumption].
      * intros l N. apply D. intros [J H]. apply N. split; [right|]; assumption.
Qed.

(** Lines 393-440: one catalogued object, on a store [st0] that has the
    shape of the store [st] in which the triangle elements are named. *)
Lemma colour_object_spec (st : ET.store) (cmap : sdict str) (o : object_info)
  (stats : sdict nat) (st0 : ET.store) :
  same_shapes st st0 ->
  same_shapes st0 (snd (colour_object cmap (stats, st0) o))
  /\ (forall l k, k <> lit "pid" -> k <> lit "p1" ->
        ET.get (snd (colour_object cmap (stats, st0) o)) l k = ET.get st0 l k)
  /\ (forall id t,
        mapped_id cmap o = Some id ->
        In t (triangle_elements st (obj_element o)) ->
        ET.get (snd (colour_object cmap (stats, st0) o)) t (lit "pid") = Some id
        /\ ET.get (snd (colour_object cmap (stats, st0) o)) t (lit "p1")
           = Some (lit "0"))
  /\ (forall l,
        mapped_id cmap o = None
        \/ ~ In l (triangle_elements st (obj_element o)) ->
        ET.cell (snd (colour_object cmap (stats, st0) o)) l = ET.cell st0 l).
Proof.
  intros S. rewrite <- (triangle_elements_shapes st st0) by assumption.
  unfold colour_object, mapped_id, triangle_elements.
  destruct (obj_is_assembly o).
  { simpl. repeat split; try tauto; try discriminate. }
  destruct (sget cmap (obj_name o)) as [id0|].
  2:{ simpl. repeat split; try tauto; try discriminate. }
  destruct (ET.first_child st0 (has_part "mesh") _) as [mesh|].
  2:{ simpl. repeat split; try tauto; try (intros ? ? ? []). }
  destruct (ET.first_child st0 (has_part "triangles") _) as [ts|].
  2:{ simpl. repeat split; try tauto; try (intros ? ? ? []). }
  pose proof (tag_triangles_spec id0 (ET.children (ET.cell st0 ts)) 0 st0) as T.
  cbv zeta in T.
  destruct (fold_left (tag_triangle id0) _ (0, st0)) as [count st1].
  simpl in *. destruct T as [A [B [C D]]].
  split; [assumption|]. split; [assumption|]. split.
  - intros id t E I. injection E as <-. apply filter_In in I. apply C; tauto.
  - intros l [E|N]; [discriminate|]. apply D. intros [I H]. apply N.
    apply filter_In. tauto.
Qed.

Lemma targets_dec (st : ET.store) (cmap : sdict str) (t : ET.loc)
  (objects : list object_info) :
  {Exists (fun o => mapped_id cmap o <> None
                    /\ In t (triangle_elements st (obj_element o))) objects}
  + {~ Exists (fun o => mapped_id cmap o <> None
                        /\ In t (triangle_elements st (obj_element o))) objects}.
Proof.
  apply Exists_dec. intros o.
  destruct (mapped_id cmap o) as [id|].
  - destruct (in_dec Nat.eq_dec t (triangle_elements st (obj_element o))) as [I|I].
    + left. split; [discriminate | assumption].
    + right. tauto.
  - right. tauto.
Qed.

(** The loop of [add_triangle_colors] over the catalogue. *)
Lemma add_triangle_colors_spec (st : ET.store) (cmap : sdict str)
  (objects : list object_info) :
  forall (stats : sdict nat) (st0 : ET.store),
    same_shapes st st0 ->
    same_shapes st0 (snd (fold_left (colour_object cmap) objects (stats, st0)))
    /\ (forall l k, k <> lit "pid" -> k <> lit "p1" ->
          ET.get (snd (fold_left (colour_object cmap) objects (stats, st0))) l k
          = ET.get st0 l k)
    /\ (forall l,
          (forall o, In o objects -> mapped_id cmap o <> None ->
                     ~ In l (triangle_elements st (obj_element o))) ->
          ET.cell (snd (fold_left (colour_object cmap) objects (stats, st0))) l
          = ET.cell st0 l)
    /\ (forall o id t,
          In o objects -> mapped_id cmap o = Some id ->
          In t (triangle_elements st (obj_element o)) ->
          (forall o' id',
              In o' objects -> mapped_id cmap o' = Some id' ->
              In t (triangle_elements st (obj_element o')) -> id' = id) ->
          ET.get (snd (fold_left (colour_object cmap) objects (stats, st0)))
                 t (lit "pid") = Some id
          /\ ET.get (snd (fold_left (colour_object cmap) objects (stats, st0)))
                    t (lit "p1") = Some (lit "0")).
Proof.
  induction objects as [|o1 rest IH]; intros stats st0 S; cbn [fold_left].
  - simpl. repeat split; try tauto; try (intros ? ? ? []).
  - destruct (colour_object_spec st cmap o1 stats st0 S) as [A1 [B1 [C1 D1]]].
    destruct (colour_object cmap (stats, st0) o1) as [stats1 st1].
    simpl in A1, B1, C1, D1.
    assert (S1 : same_shapes st st1) by (apply same_shapes_trans with st0; assumption).
    destruct (IH stats1 st1 S1) as [A [B [C D]]].
    split; [apply same_shapes_trans with st1; assumption|].
    split; [|split].
    + intros l k N1 N2. rewrite B by assumption. apply B1; assumption.
    + intros l H. rewrite C.
      * apply D1. destruct (mapped_id cmap o1) as [id|] eqn:M; [|left; reflexivity].
        right. apply H; [left; reflexivity | congruence].
      * intros o I. apply H. right. assumption.
    + intros o id t I M T U.
      destruct (targets_dec st cmap t rest) as [E|E].
      * apply Exists_exists in E. destruct E as [o' [I' [M' T']]].
        destruct (mapped_id cmap o') as [id'|] eqn:M''; [|congruence].
        assert (id' = id) by (apply (U o'); [right|..]; assumption). subst id'.
        apply (D o'); try assumption.
        intros o2 id2 I2. apply U. right. assumption.
      * destruct I as [<-|I].
        -- assert (F : ET.cell (snd (fold_left (colour_object cmap) rest
                                        (stats1, st1))) t = ET.cell st1 t).
           { apply C. intros o2 I2 M2 T2. apply E. apply Exists_exists.
             exists o2. tauto. }
           rewrite !(get_cell_eq _ _ _ _ F). apply C1; assumption.
        -- exfalso. apply E. apply Exists_exists. exists o.
           split; [assumption|]. split; [congruence | assumption].
Qed.

Lemma partnumber_not_materialid : lit "partnumber" <> lit "materialid".
Proof. discriminate. Qed.

(** Lines 478-492: the loop over the children of the build element. *)
Lemma tag_items_spec (st : ET.store) (cmap : sdict str) (cs : list ET.loc) :
  forall (stats : Dict.t (option str) str) (st0 : ET.store),
    same_shapes st st0 ->
    (forall l k, k <> lit "materialid" -> ET.get st0 l k = ET.get st l k) ->
    same_shapes st0 (snd (fold_left (tag_item cmap) cs (stats, st0)))
    /\ (forall l k, k <> lit "materialid" ->
          ET.get (snd (fold_left (tag_item cmap) cs (stats, st0))) l k
          = ET.get st0 l k)
    /\ (forall l id,
          In l cs -> has_part "item" (ET.tag (ET.cell st l)) = true ->
          sget cmap (partnumber_of st l) = Some id ->
          ET.get (snd (fold_left (tag_item cmap) cs (stats, st0)))
                 l (lit "materialid") = Some id)
    /\ (forall l,
          ~ (In l cs /\ has_part "item" (ET.tag (ET.cell st l)) = true
             /\ sget cmap (partnumber_of st l) <> None) ->
          ET.cell (snd (fold_left (tag_item cmap) cs (stats, st0))) l
          = ET.cell st0 l).
Proof.
  induction cs as [|item cs IH]; intros stats st0 S K; cbn [fold_left].
  - simpl. repeat split; try tauto; try (intros ? ? []).
  - assert (TG : ET.tag (ET.cell st0 item) = ET.tag (ET.cell st item))
      by (destruct (S item) as [E _]; exact E).
    assert (PN : ET.get_default st0 item (lit "partnumber") []
                 = partnumber_of st item).
    { unfold partnumber_of, ET.get_default.
      rewrite K by exact partnumber_not_materialid. reflexivity. }
    assert (EQ : tag_item cmap (stats, st0) item
                 = if has_part "item" (ET.tag (ET.cell st item)) then
                     match sget cmap (partnumber_of st item) with
                     | Some mid =>
                         (Dict.set opt_eqb stats
                            (ET.get st0 item (lit "objectid")) mid,
                          ET.set st0 item (lit "materialid") mid)
                     | None => (stats, st0)
                     end
                   else (stats, st0)).
    { unfold tag_item. rewrite TG, PN. reflexivity. }
    rewrite EQ. clear EQ.
    destruct (has_part "item" (ET.tag (ET.cell st item))) eqn:T.
    + destruct (sget cmap (partnumber_of st item)) as [mid|] eqn:G.
      * set (st1 := ET.set st0 item (lit "materialid") mid).
        assert (S01 : same_shapes st0 st1) by apply same_shapes_set.
        assert (S1 : same_shapes st st1)
          by (apply same_shapes_trans with st0; assumption).
        assert (K1 : forall l k, k <> lit "materialid" ->
                                 ET.get st1 l k = ET.get st l k).
        { intros l k N. unfold st1. rewrite get_set_other_key by assumption.
          apply K. assumption. }
        destruct (IH (Dict.set opt_eqb stats (ET.get st0 item (lit "objectid")) mid)
                     st1 S1 K1) as [A [B [C D]]].
        split; [apply same_shapes_trans with st1; assumption|].
        split; [|split].
        -- intros l k N. rewrite B by assumption. unfold st1.
           apply get_set_other_key. assumption.
        -- intros l id I H Gl.
           destruct (in_dec Nat.eq_dec l cs) as [J|J]; [apply C; assumption|].
           destruct I as [<-|I]; [|contradiction].
           assert (F : ET.cell (snd (fold_left (tag_item cmap) cs
                          (Dict.set opt_eqb stats
                             (ET.get st0 item (lit "objectid")) mid, st1))) item
                       = ET.cell st1 item) by (apply D; tauto).
           rewrite (get_cell_eq _ _ _ _ F). unfold st1.
           rewrite get_set_same. congruence.
        -- intros l N. assert (L : l <> item).
           { intros ->. apply N. split; [left; reflexivity|].
             split; [assumption | congruence]. }
           rewrite D.
           ++ unfold st1. apply cell_set_other. assumption.
           ++ intros [J H]. apply N. split; [right; assumption | assumption].
      * destruct (IH stats st0 S K) as [A [B [C D]]].
        split; [assumption|]. split; [assumption|]. split.
        -- intros l id [<-|I] H Gl; [congruence | apply C; assumption].
        -- intros l N. apply D. intros [J H]. apply N.
           split; [right; assumption | assumption].
    + destruct (IH stats st0 S K) as [A [B [C D]]].
      split; [assumption|]. split; [assumption|]. split.
      * intros l id [<-|I] H Gl; [congruence | apply C; assumption].
      * intros l N. apply D. intros [J H]. apply N.
        split; [right; assumption | assumption].
Qed.

Lemma first_child_In (st : ET.store) (p : str -> bool) (cs : list ET.loc)
  (c : ET.loc) :
  ET.first_child st p cs = Some c -> In c cs.
Proof.
  induction cs as [|x cs IH]; simpl; [discriminate|].
  destruct (p (ET.tag (ET.cell st x))).
  - intros H. injection H as <-. left. reflexivity.
  - intros H. right. apply IH. exact H.
Qed.

(** A triangle element of an object is a child of a child of a child of
    the object. *)
Lemma triangle_elements_chain (st : ET.store) (obj t : ET.loc) :
  In t (triangle_elements st obj) ->
  exists mesh triangles,
    In mesh (ET.children (ET.cell st obj))
    /\ In triangles (ET.children (ET.cell st mesh))
    /\ In t (ET.children (ET.cell st triangles)).
Proof.
  unfold triangle_elements.
  destruct (ET.first_child st (has_part "mesh") _) as [mesh|] eqn:M; [|intros []].
  destruct (ET.first_child st (has_part "triangles") _) as [ts|] eqn:T; [|intros []].
  intros H. apply filter_In in H. exists mesh, ts.
  split; [exact (first_child_In _ _ _ _ M)|].
  split; [exact (first_child_In _ _ _ _ T) | tauto].
Qed.

Lemma triangle_elements_disjoint (st : ET.store) (obj obj' t : ET.loc) :
  unique_parent st ->
  In t (triangle_elements st obj) -> In t (triangle_elements st obj') ->
  obj = obj'.
Proof.
  intros U H H'.
  destruct (triangle_elements_chain _ _ _ H) as [m [ts [A [B C]]]].
  destruct (triangle_elements_chain _ _ _ H') as [m' [ts' [A' [B' C']]]].
  assert (ts = ts') by exact (U _ _ _ C C'). subst ts'.
  assert (m = m') by exact (U _ _ _ B B'). subst m'.
  exact (U _ _ _ A A').
Qed.

Lemma catalogue_entry (st0 : ET.store) (root0 : ET.loc) (o : object_info) :
  In o (catalogue st0 root0) -> o = object_entry st0 (obj_element o).
Proof.
  unfold catalogue, get_objects_info.
  destruct (locate_resources st0 root0) as [r|]; [|intros []].
  intros H. apply in_map_iff in H. destruct H as [l [<- _]]. reflexivity.
Qed.

(** In a forest, two entries of a catalogue that reach the same triangle
    element are the same entry. *)
Lemma catalogue_consistent (st0 st : ET.store) (root0 : ET.loc)
  (o o' : object_info) (t : ET.loc) :
  unique_parent st ->
  In o (catalogue st0 root0) -> In o' (catalogue st0 root0) ->
  In t (triangle_elements st (obj_element o)) ->
  In t (triangle_elements st (obj_element o')) ->
  o' = o.
Proof.
  intros U I I' T T'.
  rewrite (catalogue_entry _ _ _ I), (catalogue_entry _ _ _ I').
  f_equal. symmetry. exact (triangle_elements_disjoint _ _ _ _ U T T').
Qed.

Lemma build_items_In (st : ET.store) (root item : ET.loc) :
  In item (build_items st root) <->
  exists build,
    ET.first_child st (has_part "build") (ET.children (ET.cell st root))
    = Some build
    /\ In item (ET.children (ET.cell st build))
    /\ has_part "item" (ET.tag (ET.cell st item)) = true.
Proof.
  unfold build_items.
  destruct (ET.first_child st (has_part "build") _) as [build|].
  - rewrite filter_In. split.
    + intros H. exists build. tauto.
    + intros [b [E H]]. injection E as <-. assumption.
  - split; [intros [] | intros [b [E _]]; discriminate].
Qed.

(** C4.  [add_triangle_colors] gives every triangle element of every
    catalogued object that is not an assembly and whose name is a key of the
    mapping the attributes pid (the mapped id) and p1 (0), and changes
    nothing else in the store: the objects without a mapped name, without a
    mesh or without a triangles element are untouched.  This holds for the
    catalogue of a document, in which no element has two parents; for an
    arbitrary list of entries over an arbitrary store it holds of a
    triangle element as long as the entries that reach it agree on the id
    (the later entry would win).  [add_build_materials]
    gives the attribute materialid, with the mapped id, to the item elements
    of the build element whose part number is a key of the mapping, and
    changes nothing else; without a build element it changes nothing. *)
Theorem tagging_of_triangles_and_items (st : ET.store)
  (objects : list object_info) (root : ET.loc) (colorgroup_map : sdict str) :
  (forall o id t,
      In o objects -> mapped_id colorgroup_map o = Some id ->
      In t (triangle_elements st (obj_element o)) ->
      (forall o' id',
          In o' objects -> mapped_id colorgroup_map o' = Some id' ->
          In t (triangle_elements st (obj_element o')) -> id' = id) ->
      tagged st (snd (add_triangle_colors st objects colorgroup_map)) t
             [(lit "pid", id); (lit "p1", lit "0")])
  /\ (forall st0 root0 o id t,
         unique_parent st ->
         In o (catalogue st0 root0) -> mapped_id colorgroup_map o = Some id ->
         In t (triangle_elements st (obj_element o)) ->
         tagged st
                (snd (add_triangle_colors st (catalogue st0 root0) colorgroup_map))
                t [(lit "pid", id); (lit "p1", lit "0")])
  /\ (forall l,
         (forall o, In o objects -> mapped_id colorgroup_map o <> None ->
                    ~ In l (triangle_elements st (obj_element o))) ->
         ET.cell (snd (add_triangle_colors st objects colorgroup_map)) l
         = ET.cell st l)
  /\ (forall item id,
         In item (build_items st root) ->
         sget colorgroup_map (partnumber_of st item) = Some id ->
         tagged st (snd (add_build_materials st root colorgroup_map)) item
                [(lit "materialid", id)])
  /\ (forall l,
         ~ (In l (build_items st root)
            /\ sget colorgroup_map (partnumber_of st l) <> None) ->
         ET.cell (snd (add_build_materials st root colorgroup_map)) l
         = ET.cell st l)
  /\ (ET.first_child st (has_part "build") (ET.children (ET.cell st root)) = None ->
      add_build_materials st root colorgroup_map = ([], st)).
Proof.
  assert (T : forall objs o id t,
             In o objs -> mapped_id colorgroup_map o = Some id ->
             In t (triangle_elements st (obj_element o)) ->
             (forall o' id',
                 In o' objs -> mapped_id colorgroup_map o' = Some id' ->
                 In t (triangle_elements st (obj_element o')) -> id' = id) ->
             tagged st (snd (add_triangle_colors st objs colorgroup_map)) t
                    [(lit "pid", id); (lit "p1", lit "0")]).
  { intros objs o id t I M T U.
    destruct (add_triangle_colors_spec st colorgroup_map objs [] st
                (same_shapes_refl st)) as [A [B [_ D]]].
    fold (add_triangle_colors st objs colorgroup_map) in A, B, D.
    destruct (D o id t I M T U) as [P1 P2].
    split; [apply A|]. split.
    - intros k v [E|[E|[]]]; injection E as <- <-; assumption.
    - intros k N. apply B; intros ->; apply N; simpl; tauto. }
  split; [exact (T objects)|].
  split.
  { intros st0 root0 o id t U I M Ht. apply (T _ o); try assumption.
    intros o' id' I' M' Ht'.
    rewrite (catalogue_consistent st0 st root0 o o' t U I I' Ht Ht') in M'.
    congruence. }
  split.
  { destruct (add_triangle_colors_spec st colorgroup_map objects [] st
                (same_shapes_refl st)) as [_ [_ [C _]]].
    exact C. }
  unfold add_build_materials.
  split; [|split].
  - intros item id I G. apply build_items_In in I.
    destruct I as [build [E [I H]]]. rewrite E.
    destruct (tag_items_spec st colorgroup_map (ET.children (ET.cell st build))
                [] st (same_shapes_refl st) (fun _ _ _ => eq_refl))
      as [A' [B' [C' _]]].
    split; [apply A'|]. split.
    + intros k v [E'|[]]. injection E' as <- <-. apply C'; assumption.
    + intros k N. apply B'. intros ->. apply N. simpl. tauto.
  - intros l N.
    destruct (ET.first_child st (has_part "build") _) as [build|] eqn:E;
      [|reflexivity].
    destruct (tag_items_spec st colorgroup_map (ET.children (ET.cell st build))
                [] st (same_shapes_refl st) (fun _ _ _ => eq_refl))
      as [_ [_ [_ D']]].
    apply D'. intros [I [H G]]. apply N. split; [|assumption].
    apply build_items_In. exists build. tauto.
  - intros E. rewrite E. reflexivity.
Qed.

(** Case analysis on a location: 0, 1, ..., n-1, and n or more. *)
Ltac split_loc p n :=
  lazymatch n with
  | O => idtac
  | S ?k => destruct p as [|p]; [|split_loc p k]
  end.

Lemma children_colours (p : ET.loc) :
  ET.children (ET.cell st_colours p)
  = nth p [ [1; 11]; [2; 7]; [3]; [4]; [5; 6]; []; []; [8]; [9]; [10]; [];
            [12; 13] ] [].
Proof.
  split_loc p 14; vm_compute; reflexivity.
Qed.

Lemma unique_parent_colours : unique_parent st_colours.
Proof.
  intros l p p' H H'. rewrite children_colours in H, H'.
  split_loc p 14; split_loc p' 14; simpl in H, H';
    repeat (destruct H as [H|H]; [subst l|]); try (exfalso; exact H);
    repeat (destruct H' as [H'|H']; [try discriminate H'|]);
    try (exfalso; exact H'); reflexivity.
Qed.

Lemma tagging_witness :
  tagged st_colours
         (snd (add_triangle_colors st_colours objects_colours rybw_map)) 5
         [(lit "pid", lit "1"); (lit "p1", lit "0")]
  /\ tagged st_colours
            (snd (add_triangle_colors st_colours
                    (catalogue st_colours root_colours) rybw_map)) 6
            [(lit "pid", lit "1"); (lit "p1", lit "0")]
  /\ ET.cell (snd (add_triangle_colors st_colours objects_colours rybw_map)) 10
     = ET.cell st_colours 10
  /\ tagged st_colours
            (snd (add_build_materials st_colours root_colours rybw_map)) 12
            [(lit "materialid", lit "4")]
  /\ ET.cell (snd (add_build_materials st_colours root_colours rybw_map)) 13
     = ET.cell st_colours 13.
Proof.
  destruct (tagging_of_triangles_and_items st_colours objects_colours
              root_colours rybw_map) as [T [K [F [B [G _]]]]].
  split; [|split; [|split; [|split]]].
  - apply (T (nth 0 objects_colours (mkObjectInfo 0 None [] [] false))).
    + vm_compute. left. reflexivity.
    + vm_compute. reflexivity.
    + vm_compute. left. reflexivity.
    + intros o' id' I M _. vm_compute in I.
      destruct I as [<-|[<-|[]]]; vm_compute in M.
      * injection M as <-. reflexivity.
      * discriminate M.
  - apply (K st_colours root_colours
             (nth 0 objects_colours (mkObjectInfo 0 None [] [] false))).
    + exact unique_parent_colours.
    + vm_compute. left. reflexivity.
    + vm_compute. reflexivity.
    + vm_compute. right. left. reflexivity.
  - apply F. intros o I M. vm_compute in I.
    destruct I as [<-|[<-|[]]].
    + vm_compute. intros [H|[H|[]]]; discriminate H.
    + exfalso. apply M. vm_compute. reflexivity.
  - apply B.
    + vm_compute. left. reflexivity.
    + vm_compute. reflexivity.
  - apply G. intros [_ H]. apply H. vm_compute. reflexivity.
Defined.

(* ================================================================== *)
(** * The textual pass: scanning *)
(* ================================================================== *)

Lemma take_drop_while (p : ascii -> bool) (s : str) :
  Str.take_while p s ++ Str.drop_while p s = s.
Proof.
  induction s as [|c s IH]; simpl; [reflexivity|].
  destruct (p c); simpl; [rewrite IH|]; reflexivity.
Qed.

Lemma index_where_lt (p : ascii -> bool) (s : str) (j : nat) :
  Str.index_where p s = Some j -> j < length s.
Proof.
  revert j. induction s as [|c s IH]; intros j; simpl; [discriminate|].
  destruct (p c).
  - intros H. injection H as <-. lia.
  - destruct (Str.index_where p s) as [k|]; simpl; [|discriminate].
    intros H. injection H as <-. specialize (IH k eq_refl). lia.
Qed.

Lemma startswith_nocase_length (p s : str) :
  Str.startswith_nocase p s = true -> length p <= length s.
Proof.
  revert s. induction p as [|a p IH]; intros s; simpl; [lia|].
  destruct s as [|b s]; [discriminate|]. intros H.
  apply andb_true_iff in H. destruct H as [_ H]. apply IH in H. simpl. lia.
Qed.

(** A match of the object pattern is not empty and lies within the text. *)
Lemma object_here_length (s : str) (len : nat) (attrs : str) :
  Re.object_here s = Some (len, attrs) -> 1 <= len <= length s.
Proof.
  unfold Re.object_here.
  destruct (Str.startswith_nocase (lit "<object") s) eqn:P; [|discriminate].
  apply startswith_nocase_length in P. change (length (lit "<object")) with 7 in P.
  pose proof (take_drop_while Str.is_space (skipn 7 s)) as E.
  destruct (Str.take_while Str.is_space (skipn 7 s)) as [|w ws]; [discriminate|].
  destruct (Str.index_where _ _) as [j|] eqn:J; [|discriminate].
  intros H. injection H as <- _. apply index_where_lt in J.
  assert (L : length (skipn 7 s) = length s - 7) by apply length_skipn.
  rewrite <- E, length_app in L. cbn [length] in L. lia.
Qed.

Lemma placed_weaken (content : str) (l : list obj_entry) (from from' : nat) :
  from' <= from -> placed from content l -> placed from' content l.
Proof.
  destruct l as [|e l]; simpl; [tauto|].
  intros H [A [B [C [D E]]]]. repeat split; try assumption. lia.
Qed.

Lemma skipn_cons_inv (A : Type) (pos : nat) (l : list A) (c : A) (tl : list A) :
  skipn pos l = c :: tl -> skipn (S pos) l = tl /\ pos < length l.
Proof.
  intros H. split.
  - change (S pos) with (1 + pos). rewrite <- skipn_skipn, H. reflexivity.
  - destruct (Nat.lt_ge_cases pos (length l)) as [L|L]; [assumption|].
    rewrite skipn_all2 in H by assumption. discriminate.
Qed.

(** The matches of the object pattern are placed in the content, and each
    is a match of the pattern at its start offset. *)
Lemma finditer_object_placed (content : str) (s : str) :
  forall skip pos,
    s = skipn pos content ->
    placed (pos + skip) content (Re.finditer_object skip pos s)
    /\ Forall (fun m => Re.object_here (skipn (entry_start m) content)
                        = Some (entry_end m - entry_start m, entry_id m))
              (Re.finditer_object skip pos s).
Proof.
  induction s as [|c tl IH]; intros skip pos E; simpl.
  - split; constructor.
  - symmetry in E. destruct (skipn_cons_inv _ _ _ _ _ E) as [E' L].
    symmetry in E'.
    destruct skip as [|k].
    + destruct (Re.object_here (c :: tl)) as [[len attrs]|] eqn:M.
      * pose proof (object_here_length _ _ _ M) as B. simpl in B.
        assert (LS : length (c :: tl) = length content - pos)
          by (rewrite <- E; apply length_skipn).
        simpl in LS.
        destruct (IH (len - 1) (S pos) E') as [P F].
        split.
        -- simpl. unfold entry_start, entry_end, entry_tag. simpl.
           repeat split; try lia.
           ++ rewrite E. f_equal. lia.
           ++ replace (pos + len) with (S pos + (len - 1)) by lia. exact P.
        -- constructor; [|exact F].
           unfold entry_start, entry_end, entry_id. simpl.
           rewrite E, M. do 2 f_equal. lia.
      * destruct (IH 0 (S pos) E') as [P F]. split; [|exact F].
        apply placed_weaken with (S pos + 0); [lia | exact P].
    + destruct (IH k (S pos) E') as [P F]. split; [|exact F].
      replace (pos + S k) with (S pos + k) by lia. exact P.
Qed.

(** Keeping the matches with a numeric id keeps them placed. *)
Lemma keep_with_id_placed (content : str) (ms : list (nat * nat * str * str)) :
  forall from,
    placed from content ms -> placed from content (keep_with_id ms).
Proof.
  induction ms as [|[[[start stop] tag] attrs] ms IH]; intros from; simpl; [tauto|].
  unfold entry_start, entry_end, entry_tag. simpl.
  intros [A [B [C [D E]]]].
  destruct (Re.search_id false attrs) as [obj_id|].
  - simpl. unfold entry_start, entry_end, entry_tag. simpl.
    repeat split; try assumption. apply IH. assumption.
  - apply placed_weaken with stop; [lia|]. apply IH. assumption.
Qed.

Lemma keep_with_id_matches (content : str) (ms : list (nat * nat * str * str)) :
  Forall (fun m => Re.object_here (skipn (entry_start m) content)
                   = Some (entry_end m - entry_start m, entry_id m)) ms ->
  Forall (fun e => exists attrs,
              Re.object_here (skipn (entry_start e) content)
              = Some (entry_end e - entry_start e, attrs)
              /\ Re.search_id false attrs = Some (entry_id e))
         (keep_with_id ms).
Proof.
  induction ms as [|[[[start stop] tag] attrs] ms IH]; intros H; simpl.
  - constructor.
  - inversion H as [|m l Hm Hl]; subst.
    unfold entry_start, entry_end, entry_id in Hm. simpl in Hm.
    destruct (Re.search_id false attrs) as [obj_id|] eqn:S.
    + constructor; [|apply IH; assumption].
      exists attrs. unfold entry_start, entry_end, entry_id. simpl. tauto.
    + apply IH. assumption.
Qed.

Lemma scan_objects_placed (content : str) :
  placed 0 content (scan_objects content)
  /\ Forall (fun e => exists attrs,
                Re.object_here (skipn (entry_start e) content)
                = Some (entry_end e - entry_start e, attrs)
                /\ Re.search_id false attrs = Some (entry_id e))
            (scan_objects content).
Proof.
  unfold scan_objects.
  destruct (finditer_object_placed content content 0 0 eq_refl) as [P F].
  split.
  - apply keep_with_id_placed. exact P.
  - apply keep_with_id_matches. exact F.
Qed.

(* ================================================================== *)
(** * The textual pass: renaming *)
(* ================================================================== *)

Lemma placed_weave (content : str) (obj_info : list obj_entry) :
  forall from,
    placed from content obj_info ->
    skipn from content
    = weave (gaps_between from content obj_info) (map entry_tag obj_info).
Proof.
  induction obj_info as [|e rest IH]; intros from; simpl; [reflexivity|].
  intros [A [B [C [D E]]]].
  rewrite <- (IH _ E), D.
  rewrite <- (firstn_skipn (entry_start e - from) (skipn from content)) at 1.
  f_equal. rewrite skipn_skipn.
  replace (entry_start e - from + from) with (entry_start e) by lia.
  rewrite <- (firstn_skipn (entry_end e - entry_start e)
                           (skipn (entry_start e) content)) at 1.
  f_equal. rewrite skipn_skipn. f_equal. lia.
Qed.

Lemma assign_nil (tags : list str) : assign [] tags = tags.
Proof. destruct tags; reflexivity. Qed.

Lemma assign_no_tags (names : list str) : assign names [] = [].
Proof. destruct names; reflexivity. Qed.

Lemma skipn_nth (A : Type) (k : nat) (l : list A) (d : A) :
  k < length l -> skipn k l = nth k l d :: skipn (S k) l.
Proof.
  revert l. induction k as [|k IH]; intros [|x l] H; simpl in *; try lia.
  - reflexivity.
  - apply IH. lia.
Qed.

(** The edits applied from the last entry to the first rewrite each tag in
    its place: the text before the first entry and the gaps are those of
    the content. *)
Lemma rename_fold_right (slot_names : list str) (content : str)
  (obj_info : list obj_entry) :
  forall k from,
    placed from content obj_info ->
    fold_right (fun p c => rename_at slot_names (fst p) (snd p) c) content
               (combine (seq k (length obj_info)) obj_info)
    = firstn from content
        ++ weave (gaps_between from content obj_info)
                 (assign (skipn k slot_names) (map entry_tag obj_info)).
Proof.
  induction obj_info as [|e rest IH]; intros k from; simpl.
  - intros _. rewrite assign_no_tags. simpl. symmetry. apply firstn_skipn.
  - intros [A [B [C [D E]]]]. rewrite (IH (S k) _ E). unfold rename_at.
    assert (G : firstn (entry_end e) content
                = firstn from content
                    ++ firstn (entry_start e - from) (skipn from content)
                    ++ entry_tag e).
    { rewrite D.
      rewrite <- (firstn_skipn from (firstn (entry_end e) content)) at 1.
      rewrite firstn_firstn, Nat.min_l by lia. f_equal.
      rewrite <- (firstn_skipn (entry_start e - from)
                    (skipn from (firstn (entry_end e) content))) at 1.
      rewrite skipn_skipn.
      replace (entry_start e - from + from) with (entry_start e) by lia.
      rewrite !skipn_firstn_comm, firstn_firstn. f_equal.
      - f_equal. lia. }
    assert (F : firstn (entry_start e) content
                = firstn from content
                    ++ firstn (entry_start e - from) (skipn from content)).
    { rewrite <- (firstn_skipn from (firstn (entry_start e) content)) at 1.
      rewrite firstn_firstn, Nat.min_l by lia. f_equal.
      rewrite skipn_firstn_comm. reflexivity. }
    destruct (length slot_names <=? k) eqn:Lk.
    + apply Nat.leb_le in Lk.
      rewrite (@skipn_all2 _ k slot_names) by lia.
      rewrite (@skipn_all2 _ (S k) slot_names) by lia.
      rewrite !assign_nil. simpl. rewrite G, <- !app_assoc. reflexivity.
    + apply Nat.leb_gt in Lk.
      rewrite (skipn_nth _ k slot_names []) by assumption. simpl.
      assert (Le : length (firstn (entry_end e) content) = entry_end e)
        by (rewrite length_firstn; lia).
      rewrite firstn_app, skipn_app, Le.
      rewrite firstn_firstn, Nat.min_l by lia.
      replace (entry_start e - entry_end e) with 0 by lia.
      replace (entry_end e - entry_end e) with 0 by lia.
      rewrite (@skipn_all2 _ (entry_end e) (firstn (entry_end e) content)) by lia.
      simpl. rewrite app_nil_r.
      rewrite F, <- !app_assoc. reflexivity.
Qed.

Lemma rename_step_at (slot_names : list str) (n idx : nat) (e : obj_entry)
  (content : str) :
  rename_step slot_names n content (idx, e)
  = rename_at slot_names (n - 1 - idx) e content.
Proof. destruct e as [[[start stop] tag] obj_id]. reflexivity. Qed.

Lemma rename_fold_shift (slot_names : list str) (l : list obj_entry) :
  forall a m content,
    fold_left (rename_step slot_names (S m))
              (combine (seq (S a) (length l)) l) content
    = fold_left (rename_step slot_names m)
                (combine (seq a (length l)) l) content.
Proof.
  induction l as [|e l IH]; intros a m content; [reflexivity|].
  cbn [length seq combine fold_left]. rewrite !rename_step_at.
  replace (S m - 1 - S a) with (m - 1 - a) by lia. apply IH.
Qed.

Lemma combine_snoc (A B : Type) (l : list A) (l' : list B) (x : A) (y : B) :
  length l = length l' ->
  combine (l ++ [x]) (l' ++ [y]) = combine l l' ++ [(x, y)].
Proof.
  revert l'. induction l as [|a l IH]; intros [|b l'] H; simpl in *;
    try discriminate; [reflexivity|].
  f_equal. apply IH. lia.
Qed.

(** The loop of lines 66-77, which walks the entries from the last to the
    first, applies to each entry the edit of its forward rank. *)
Lemma rename_objects_fold_right (slot_names : list str)
  (obj_info : list obj_entry) :
  forall content,
    rename_objects slot_names obj_info content
    = fold_right (fun p c => rename_at slot_names (fst p) (snd p) c) content
                 (combine (seq 0 (length obj_info)) obj_info).
Proof.
  induction obj_info as [|x l IH] using rev_ind; intros content; [reflexivity|].
  unfold rename_objects, enumerate. rewrite rev_unit.
  cbn [length seq combine fold_left]. rewrite rename_step_at.
  rewrite length_app. cbn [length]. rewrite Nat.add_1_r.
  rewrite rename_fold_shift.
  replace (S (length l) - 1 - 0) with (length l) by lia.
  change (fold_left (rename_step slot_names (length l))
            (combine (seq 0 (length (rev l))) (rev l))
            (rename_at slot_names (length l) x content))
    with (rename_objects slot_names l (rename_at slot_names (length l) x content)).
  rewrite IH.
  replace (S (length l)) with (length l + 1) by lia.
  rewrite seq_app. cbn [seq]. rewrite combine_snoc by (rewrite length_seq; reflexivity).
  rewrite fold_right_app. reflexivity.
Qed.

Lemma assign_length (names tags : list str) :
  length (assign names tags) = length tags.
Proof.
  revert names. induction tags as [|t tags IH]; intros [|n names]; simpl;
    try reflexivity.
  f_equal. apply IH.
Qed.

Lemma assign_nth (names tags : list str) (i : nat) :
  i < length tags ->
  nth i (assign names tags) []
  = if i <? length names then new_tag (nth i tags []) (nth i names [])
    else nth i tags [].
Proof.
  revert names i. induction tags as [|t tags IH]; intros names i H; simpl in H;
    [lia|].
  destruct names as [|n names]; [reflexivity|].
  destruct i as [|i]; [reflexivity|].
  simpl. rewrite IH by lia. reflexivity.
Qed.

(** The substitution of line 74 deletes the matches of the name pattern
    from left to right. *)
Lemma sub_name_equations (s : str) :
  Re.sub_name 0 s
  = match s with
    | [] => []
    | c :: tl =>
        match Re.name_here s with
        | Some len => Re.sub_name 0 (skipn len s)
        | None => c :: Re.sub_name 0 tl
        end
    end.
Proof.
  destruct s as [|c tl]; [reflexivity|]. simpl.
  destruct (Re.name_here (c :: tl)) as [len|] eqn:M; [|reflexivity].
  assert (L : 1 <= len).
  { unfold Re.name_here in M.
    destruct (Str.take_while Str.is_space (c :: tl)); [discriminate|].
    destruct (Str.startswith _ _); [|discriminate].
    destruct (Str.index_where _ _); [|discriminate].
    injection M as <-. simpl. lia. }
  destruct len as [|k]; [lia|]. simpl. rewrite Nat.sub_0_r.
  clear. revert tl. induction k as [|k IH]; intros tl; [reflexivity|].
  destruct tl as [|c tl]; [reflexivity|]. simpl. apply IH.
Qed.

(* ================================================================== *)
(** * The textual pass: assembly synthesis *)
(* ================================================================== *)

Lemma search_build_cons (c : ascii) (tl : str) (pos : nat) :
  Re.search_build pos (c :: tl)
  = if Str.startswith (lit "<build>") (c :: tl) then
      match Str.find (lit "</build>") (skipn 7 (c :: tl)) with
      | Some k => Some (pos, pos + 7 + k + 8)
      | None => Re.search_build (S pos) tl
      end
    else Re.search_build (S pos) tl.
Proof. reflexivity. Qed.

Lemma search_build_shift (s : str) :
  forall pos,
    Re.search_build pos s
    = option_map (fun be => (pos + fst be, pos + snd be)) (Re.search_build 0 s).
Proof.
  induction s as [|c tl IH]; intros pos; [reflexivity|].
  rewrite !search_build_cons.
  assert (R : Re.search_build (S pos) tl
              = option_map (fun be => (pos + fst be, pos + snd be))
                           (Re.search_build 1 tl)).
  { rewrite (IH (S pos)), (IH 1).
    destruct (Re.search_build 0 tl) as [[b e]|]; simpl; [|reflexivity].
    do 2 f_equal; lia. }
  destruct (Str.startswith (lit "<build>") (c :: tl)); [|exact R].
  destruct (Str.find (lit "</build>") (skipn 7 (c :: tl))) as [k|]; [|exact R].
  simpl. do 2 f_equal; lia.
Qed.

Lemma build_section_0 (s : str) (e : nat) :
  build_section s 0 e <->
  Str.startswith (lit "<build>") s = true
  /\ exists k, Str.find (lit "</build>") (skipn 7 s) = Some k /\ e = 7 + k + 8.
Proof.
  unfold build_section. rewrite occurs_at_0. simpl (0 + 7).
  split; intros [A [k [B C]]]; (split; [exact A|]); exists k;
    (split; [apply find_Some; exact B | lia]).
Qed.

Lemma build_section_S (c : ascii) (s : str) (b e : nat) :
  build_section (c :: s) (S b) e <-> exists e', e = S e' /\ build_section s b e'.
Proof.
  unfold build_section. rewrite occurs_at_S. simpl (skipn (S b + 7) (c :: s)).
  split.
  - intros [A [k [B C]]]. exists (b + 7 + k + 8). split; [lia|].
    split; [exact A|]. exists k. split; [exact B | reflexivity].
  - intros [e' [-> [A [k [B C]]]]]. split; [exact A|]. exists k.
    split; [exact B | lia].
Qed.

(** [build_pattern.search] finds the leftmost build section, and finds
    none only when there is none. *)
Lemma search_build_spec (s : str) :
  match Re.search_build 0 s with
  | Some (b, e) => first_build_section s b e
  | None => forall b e, ~ build_section s b e
  end.
Proof.
  induction s as [|c tl IH].
  - simpl. intros b e [H _]. apply occurs_at_nil in H. destruct H. discriminate.
  - assert (R : (forall e, ~ build_section (c :: tl) 0 e) ->
                match Re.search_build 1 tl with
                | Some (b, e) => first_build_section (c :: tl) b e
                | None => forall b e, ~ build_section (c :: tl) b e
                end).
    { intros Z. rewrite search_build_shift.
      destruct (Re.search_build 0 tl) as [[b e]|]; simpl.
      - destruct IH as [I1 I2]. split.
        + apply build_section_S. exists e. split; [reflexivity | exact I1].
        + intros [|b'] e' H; [exfalso; exact (Z e' H)|].
          apply build_section_S in H. destruct H as [e'' [_ H]].
          apply I2 in H. lia.
      - intros [|b] e H; [exact (Z e H)|].
        apply build_section_S in H. destruct H as [e' [_ H]].
        exact (IH b e' H). }
    rewrite search_build_cons.
    destruct (Str.startswith (lit "<build>") (c :: tl)) eqn:P.
    + destruct (Str.find (lit "</build>") (skipn 7 (c :: tl))) as [k|] eqn:F.
      * split.
        -- apply build_section_0. split; [exact P|]. exists k.
           split; [exact F | lia].
        -- intros; lia.
      * apply R. intros e H. apply build_section_0 in H.
        destruct H as [_ [k [H _]]]. congruence.
    + apply R. intros e H. apply build_section_0 in H.
      destruct H as [H _]. congruence.
Qed.

Lemma fold_max_ge (l : list N) :
  forall acc, (acc <= fold_left N.max l acc)%N
              /\ forall x, In x l -> (x <= fold_left N.max l acc)%N.
Proof.
  induction l as [|y l IH]; intros acc; simpl.
  - split; [lia | tauto].
  - destruct (IH (N.max acc y)) as [A B]. split; [lia|].
    intros x [<-|H]; [lia | apply B; assumption].
Qed.

Lemma max_id_ge (object_ids : list str) (oid : str) :
  In oid object_ids -> (Str.int oid <= max_id object_ids)%N.
Proof.
  intros H. unfold max_id. apply fold_max_ge. apply in_map. exact H.
Qed.

(* ================================================================== *)
(** * The textual pass and well-formedness *)
(* ================================================================== *)

(** C7.  Two well-formed inputs on which the text produced by the name-fix
    pass is not well-formed, so that the parse of the colour stage fails:
    an object written as an empty-element tag, whose closing slash ends up
    in the middle of the renamed tag, and a name that contains a double
    quote, which is written into the tag without escaping. *)
Theorem name_fix_breaks_well_formedness :
  ((exists t, MiniXML.parse doc_empty_object = MiniXML.Parsed t)
   /\ fix_text doc_empty_object [lit "Red"] true = doc_empty_object_fixed
   /\ MiniXML.parse (fix_text doc_empty_object [lit "Red"] true)
      = MiniXML.Malformed
   /\ add_colors_to_xml_string Utf8.encode Utf8.decode
        MiniXML.fromstring MiniXML.tostring
        (fix_text doc_empty_object [lit "Red"] true) (lit "rybw")
      = Raises ParseError)
  /\ ((exists t, MiniXML.parse doc_small = MiniXML.Parsed t)
      /\ MiniXML.parse (fix_text doc_small [name_with_quote] false)
         = MiniXML.Malformed).
Proof.
  repeat split; try (vm_compute; reflexivity);
    eexists; vm_compute; reflexivity.
Qed.

(* ================================================================== *)
(** * Colorgroup ids *)
(* ================================================================== *)

Lemma sget_cons (V : Type) (k : str) (v : V) (d : sdict V) (n : str) :
  sget ((k, v) :: d) n = if Str.eqb n k then Some v else sget d n.
Proof. reflexivity. Qed.

Lemma sget_nil (V : Type) (n : str) : sget (@nil (str * V)) n = None.
Proof. reflexivity. Qed.

(** X1.  The id of a colour name is one of 1, 2, 3, 4; the id of the entry
    of rank i of the palette of the mode is i + 1; a name that is not in
    the palette gets the id 1, that of the first entry; and every mode other
    than cmyw is read as rybw. *)
Theorem get_colorgroup_id_table (color_name color_mode : str) :
  In (get_colorgroup_id color_name color_mode)
     [lit "1"; lit "2"; lit "3"; lit "4"]
  /\ (forall i,
         nth_error (Dict.keys (palette color_mode)) i = Some color_name ->
         get_colorgroup_id color_name color_mode = Str.of_N (N.of_nat (S i)))
  /\ (~ In color_name (Dict.keys (palette color_mode)) ->
      get_colorgroup_id color_name color_mode = lit "1")
  /\ (color_mode <> lit "cmyw" ->
      get_colorgroup_id color_name color_mode
      = get_colorgroup_id color_name (lit "rybw")).
Proof.
  unfold get_colorgroup_id, palette.
  change (Str.eqb (lit "rybw") (lit "cmyw")) with false. cbv iota.
  destruct (Str.eqb color_mode (lit "cmyw")) eqn:M.
  - unfold cmyw_map, CMYW_COLORS. rewrite !sget_cons, sget_nil.
    destruct (Str.eqb color_name (lit "Cyan")) eqn:E1;
      [apply eqb_eq in E1; subst color_name|];
      [|destruct (Str.eqb color_name (lit "Magenta")) eqn:E2;
        [apply eqb_eq in E2; subst color_name|]];
      [| |destruct (Str.eqb color_name (lit "Yellow")) eqn:E3;
          [apply eqb_eq in E3; subst color_name|]];
      [| | |destruct (Str.eqb color_name (lit "White")) eqn:E4;
            [apply eqb_eq in E4; subst color_name|]].
    all: split; [simpl; tauto|].
    all: split;
      [ intros [|[|[|[|i]]]] H; unfold Dict.keys in H;
        cbn [map fst nth_error] in H;
        try (destruct i; discriminate H);
        first [ reflexivity
              | exfalso; vm_compute in H; discriminate H
              | injection H as H; subst color_name;
                match goal with
                | E : Str.eqb _ _ = false |- _ =>
                    vm_compute in E; discriminate E
                end ]
      | ].
    all: split;
      [ intros H; try reflexivity; exfalso; apply H; simpl; tauto
      | intros H; apply eqb_eq in M; contradiction ].
  - unfold rybw_map, RYBW_COLORS. rewrite !sget_cons, sget_nil.
    destruct (Str.eqb color_name (lit "Red")) eqn:E1;
      [apply eqb_eq in E1; subst color_name|];
      [|destruct (Str.eqb color_name (lit "Yellow")) eqn:E2;
        [apply eqb_eq in E2; subst color_name|]];
      [| |destruct (Str.eqb color_name (lit "Blue")) eqn:E3;
          [apply eqb_eq in E3; subst color_name|]];
      [| | |destruct (Str.eqb color_name (lit "White")) eqn:E4;
            [apply eqb_eq in E4; subst color_name|]].
    all: split; [simpl; tauto|].
    all: split;
      [ intros [|[|[|[|i]]]] H; unfold Dict.keys in H;
        cbn [map fst nth_error] in H;
        try (destruct i; discriminate H);
        first [ reflexivity
              | exfalso; vm_compute in H; discriminate H
              | injection H as H; subst color_name;
                match goal with
                | E : Str.eqb _ _ = false |- _ =>
                    vm_compute in E; discriminate E
                end ]
      | ].
    all: split;
      [ intros H; try reflexivity; exfalso; apply H; simpl; tauto
      | intros H; reflexivity ].
Qed.

Lemma get_colorgroup_id_table_witness :
  get_colorgroup_id (lit "Blue") (lit "rybw") = lit "3"
  /\ get_colorgroup_id (lit "Grey") (lit "cmyw") = lit "1"
  /\ get_colorgroup_id (lit "Blue") (lit "RYBW") = lit "3".
Proof.
  split; [|split].
  - apply (proj1 (proj2 (get_colorgroup_id_table (lit "Blue") (lit "rybw"))) 2).
    reflexivity.
  - apply (proj1 (proj2 (proj2 (get_colorgroup_id_table (lit "Grey") (lit "cmyw"))))).
    simpl. intros H. repeat (destruct H as [H|H]; [discriminate|]). exact H.
  - rewrite (proj2 (proj2 (proj2 (get_colorgroup_id_table (lit "Blue") (lit "RYBW"))))).
    + reflexivity.
    + discriminate.
Defined.

(* ================================================================== *)
(** * Assemblies and triangle counts *)
(* ================================================================== *)

Lemma first_child_existsb (st : ET.store) (p : str -> bool) (cs : list ET.loc) :
  match ET.first_child st p cs with Some _ => true | None => false end
  = existsb (fun c => p (ET.tag (ET.cell st c))) cs.
Proof.
  induction cs as [|c cs IH]; simpl; [reflexivity|].
  destruct (p (ET.tag (ET.cell st c))); [reflexivity | exact IH].
Qed.

Lemma existsb_impl (A : Type) (p q : A -> bool) (l : list A) :
  (forall x, p x = true -> q x = true) ->
  existsb p l = true -> existsb q l = true.
Proof.
  intros I H. apply existsb_exists in H. destruct H as [x [Hx Px]].
  apply existsb_exists. exists x. split; [exact Hx | apply I; exact Px].
Qed.

(** X2.  An object is an assembly exactly when one of its direct children
    has components among the pieces of its tag split at the closing brace;
    the lookup without namespace that comes first finds nothing that the
    loop over the children would not find. *)
Theorem is_assembly_any_components (st : ET.store) (object_element : ET.loc) :
  is_assembly st object_element
  = existsb (fun child => has_part "components" (ET.tag (ET.cell st child)))
            (ET.children (ET.cell st object_element)).
Proof.
  unfold is_assembly, ET.find.
  change (Str.startswith (lit "{*}") (lit "components")) with false. cbv iota.
  rewrite <- (first_child_existsb st (has_part "components")).
  destruct (ET.first_child st (fun t => Str.eqb t (lit "components"))
              (ET.children (ET.cell st object_element))) as [c|] eqn:F;
    [|reflexivity].
  rewrite (first_child_existsb st (has_part "components")).
  symmetry.
  apply existsb_impl with (p := fun c => Str.eqb (ET.tag (ET.cell st c))
                                              (lit "components")).
  - intros x H. apply eqb_eq in H. rewrite H. reflexivity.
  - rewrite <- (first_child_existsb st (fun t => Str.eqb t (lit "components"))).
    rewrite F. reflexivity.
Qed.

Lemma count_triangles_length (st : ET.store) (cs : list ET.loc) :
  forall count,
    fold_left (count_triangle st) cs count
    = count + length (filter (fun t => has_part "triangle" (ET.tag (ET.cell st t)))
                             cs).
Proof.
  induction cs as [|c cs IH]; intros count; simpl; [lia|].
  rewrite IH. unfold count_triangle.
  destruct (has_part "triangle" (ET.tag (ET.cell st c))); simpl; lia.
Qed.

Lemma count_object_counted (st : ET.store) (acc : sdict nat) (o : object_info) :
  count_object st acc o
  = if counted st o
    then sset acc (obj_name o) (length (triangle_elements st (obj_element o)))
    else acc.
Proof.
  unfold count_object, counted, triangle_elements.
  destruct (obj_is_assembly o); [reflexivity|]. simpl.
  destruct (ET.first_child st (has_part "mesh")
              (ET.children (ET.cell st (obj_element o)))) as [mesh|];
    [|reflexivity].
  destruct (ET.first_child st (has_part "triangles")
              (ET.children (ET.cell st mesh))) as [triangles|];
    [|reflexivity].
  rewrite count_triangles_length. reflexivity.
Qed.

Lemma find_app (A : Type) (P : A -> bool) (l r : list A) :
  List.find P (l ++ r)
  = match List.find P l with Some x => Some x | None => List.find P r end.
Proof.
  induction l as [|x l IH]; simpl; [reflexivity|].
  destruct (P x); [reflexivity | exact IH].
Qed.

Lemma count_objects_lookup (st : ET.store) (objects : list object_info)
  (name : str) :
  forall acc,
    sget (fold_left (count_object st) objects acc) name
    = match List.find (fun o => counted st o && Str.eqb (obj_name o) name)
                      (rev objects) with
      | Some o => Some (length (triangle_elements st (obj_element o)))
      | None => sget acc name
      end.
Proof.
  induction objects as [|o objects IH]; intros acc; simpl; [reflexivity|].
  rewrite IH, find_app. 
  destruct (List.find (fun o0 => counted st o0 && Str.eqb (obj_name o0) name)
                      (rev objects)); [reflexivity|].
  simpl. rewrite count_object_counted.
  destruct (counted st o); simpl; [|reflexivity].
  destruct (Str.eqb (obj_name o) name) eqn:E.
  - apply eqb_eq in E. subst name. apply sget_sset_same.
  - apply eqb_neq in E. apply sget_sset_other. exact E.
Qed.

(** X3.  [get_triangles_info] gives, under each name, the number of
    triangle children of the last catalogued object of that name that is not
    an assembly and has a triangles element in its first mesh; a name
    without such an object is not a key.  An object whose triangles element
    is empty is reported with the count 0. *)
Theorem get_triangles_info_last_wins (st : ET.store)
  (objects : list object_info) (name : str) :
  sget (get_triangles_info st objects) name
  = option_map (fun o => length (triangle_elements st (obj_element o)))
      (List.find (fun o => counted st o && Str.eqb (obj_name o) name)
                 (rev objects)).
Proof.
  unfold get_triangles_info. rewrite count_objects_lookup.
  destruct (List.find (fun o => counted st o && Str.eqb (obj_name o) name)
                      (rev objects)); reflexivity.
Qed.

Lemma tag_triangles_count (st : ET.store) (id : str) (cs : list ET.loc) :
  forall count st0,
    same_shapes st st0 ->
    fst (fold_left (tag_triangle id) cs (count, st0))
    = fold_left (count_triangle st) cs count.
Proof.
  induction cs as [|c cs IH]; intros count st0 S0; simpl; [reflexivity|].
  unfold count_triangle at 2.
  destruct (S0 c) as [T _]. rewrite T.
  destruct (has_part "triangle" (ET.tag (ET.cell st c))).
  - apply IH.
    eapply same_shapes_trans; [exact S0|].
    eapply same_shapes_trans; apply same_shapes_set.
  - apply IH. exact S0.
Qed.

Lemma colour_object_stats (st : ET.store) (cmap : sdict str) (o : object_info)
  (stats : sdict nat) (st0 : ET.store) :
  same_shapes st st0 ->
  fst (colour_object cmap (stats, st0) o)
  = if smem cmap (obj_name o) then count_object st stats o else stats.
Proof.
  intros S0. unfold colour_object, count_object.
  change (smem cmap (obj_name o))
    with (match sget cmap (obj_name o) with Some _ => true | None => false end).
  destruct (obj_is_assembly o).
  { destruct (sget cmap (obj_name o)); reflexivity. }
  destruct (sget cmap (obj_name o)) as [id|]; [|reflexivity].
  destruct (S0 (obj_element o)) as [_ [_ [_ C]]]. rewrite C.
  rewrite (first_child_shapes st st0 _ _ S0).
  destruct (ET.first_child st (has_part "mesh")
              (ET.children (ET.cell st (obj_element o)))) as [mesh|];
    [|reflexivity].
  destruct (S0 mesh) as [_ [_ [_ Cm]]]. rewrite Cm.
  rewrite (first_child_shapes st st0 _ _ S0).
  destruct (ET.first_child st (has_part "triangles")
              (ET.children (ET.cell st mesh))) as [triangles|];
    [|reflexivity].
  destruct (S0 triangles) as [_ [_ [_ Ct]]]. rewrite Ct.
  pose proof (tag_triangles_count st id
                (ET.children (ET.cell st triangles)) 0 st0 S0) as T.
  destruct (fold_left (tag_triangle id) (ET.children (ET.cell st triangles))
                      (0, st0)) as [count st1].
  simpl in T. subst count. reflexivity.
Qed.

Lemma add_triangle_colors_stats (st : ET.store) (cmap : sdict str)
  (objects : list object_info) :
  forall stats st0,
    same_shapes st st0 ->
    fst (fold_left (colour_object cmap) objects (stats, st0))
    = fold_left (count_object st)
                (filter (fun o => smem cmap (obj_name o)) objects) stats.
Proof.
  induction objects as [|o objects IH]; intros stats st0 S0; [reflexivity|].
  cbn [fold_left filter].
  pose proof (colour_object_stats st cmap o stats st0 S0) as F.
  pose proof (proj1 (colour_object_spec st cmap o stats st0 S0)) as S1.
  destruct (colour_object cmap (stats, st0) o) as [stats1 st1].
  cbn [fst snd] in F, S1. rewrite IH.
  - subst stats1. destruct (smem cmap (obj_name o)); reflexivity.
  - eapply same_shapes_trans; [exact S0 | exact S1].
Qed.

Lemma count_object_shapes (st st' : ET.store) (acc : sdict nat)
  (o : object_info) :
  same_shapes st st' -> count_object st' acc o = count_object st acc o.
Proof.
  intros S0. unfold count_object.
  destruct (obj_is_assembly o); [reflexivity|].
  destruct (S0 (obj_element o)) as [_ [_ [_ C]]]. rewrite C.
  rewrite (first_child_shapes st st' _ _ S0).
  destruct (ET.first_child st (has_part "mesh")
              (ET.children (ET.cell st (obj_element o)))) as [mesh|];
    [|reflexivity].
  destruct (S0 mesh) as [_ [_ [_ Cm]]]. rewrite Cm.
  rewrite (first_child_shapes st st' _ _ S0).
  destruct (ET.first_child st (has_part "triangles")
              (ET.children (ET.cell st mesh))) as [triangles|];
    [|reflexivity].
  destruct (S0 triangles) as [_ [_ [_ Ct]]]. rewrite Ct.
  rewrite !count_triangles_length.
  rewrite (filter_tag_shapes st st' _ _ S0). reflexivity.
Qed.

Lemma get_triangles_info_shapes (st st' : ET.store)
  (objects : list object_info) :
  same_shapes st st' ->
  get_triangles_info st' objects = get_triangles_info st objects.
Proof.
  intros S0. unfold get_triangles_info. generalize (@nil (str * nat)).
  induction objects as [|o objects IH]; intros acc; simpl; [reflexivity|].
  rewrite (count_object_shapes st st' acc o S0). apply IH.
Qed.

Lemma add_build_materials_shapes (st : ET.store) (root : ET.loc)
  (cmap : sdict str) :
  same_shapes st (snd (add_build_materials st root cmap)).
Proof.
  unfold add_build_materials.
  destruct (ET.first_child st (has_part "build")
              (ET.children (ET.cell st root))) as [build|].
  - apply (tag_items_spec st cmap (ET.children (ET.cell st build)) [] st
             (same_shapes_refl st) (fun _ _ _ => eq_refl)).
  - apply same_shapes_refl.
Qed.

(** X4.  The statistics that [add_triangle_colors] returns are the triangle
    counts of [get_triangles_info] for the objects whose name is a key of
    the mapping, and neither [add_triangle_colors] nor [add_build_materials]
    changes the triangle counts of a document. *)
Theorem triangle_stats_are_counts (st : ET.store) (objects : list object_info)
  (root : ET.loc) (colorgroup_map : sdict str) :
  fst (add_triangle_colors st objects colorgroup_map)
  = get_triangles_info st
      (filter (fun o => smem colorgroup_map (obj_name o)) objects)
  /\ get_triangles_info (snd (add_triangle_colors st objects colorgroup_map))
                        objects
     = get_triangles_info st objects
  /\ get_triangles_info (snd (add_build_materials st root colorgroup_map))
                        objects
     = get_triangles_info st objects.
Proof.
  split; [|split].
  - apply add_triangle_colors_stats. apply same_shapes_refl.
  - apply get_triangles_info_shapes.
    apply (add_triangle_colors_spec st colorgroup_map objects [] st
             (same_shapes_refl st)).
  - apply get_triangles_info_shapes. apply add_build_materials_shapes.
Qed.

(* ================================================================== *)
(** * Colorgroups before the first object *)
(* ================================================================== *)

(** X5.  When resources has an object child, the four colorgroups of the
    mode are placed immediately before the first one, in palette order, each
    with the id of its palette entry and one color child with the colour of
    that entry; the children that were there keep their order. *)
Theorem colorgroups_before_first_object (st : ET.store) (resources : ET.loc)
  (color_mode : str) (i : nat) :
  resources < ET.next st ->
  Forall (fun c => c < ET.next st) (ET.children (ET.cell st resources)) ->
  first_index st (has_part "object") 0 (ET.children (ET.cell st resources))
  = Some i ->
  exists g1 g2 g3 g4,
    ET.children
      (ET.cell (snd (insert_colorgroups st resources color_mode)) resources)
    = firstn i (ET.children (ET.cell st resources))
        ++ [g1; g2; g3; g4]
        ++ skipn i (ET.children (ET.cell st resources))
    /\ Forall2
         (fun g e =>
            exists c,
              ET.cell (snd (insert_colorgroups st resources color_mode)) g
              = colorgroup_node (get_colorgroup_id (fst e) color_mode) c
              /\ ET.cell (snd (insert_colorgroups st resources color_mode)) c
                 = color_node (snd e))
         [g1; g2; g3; g4] (palette color_mode)
    /\ (exists o,
           nth_error (ET.children (ET.cell st resources)) i = Some o
           /\ has_part "object" (ET.tag (ET.cell st o)) = true)
    /\ (forall j c, j < i ->
           nth_error (ET.children (ET.cell st resources)) j = Some c ->
           has_part "object" (ET.tag (ET.cell st c)) = false).
Proof.
  intros R C I.
  destruct (insert_colorgroups_spec st resources color_mode R C)
    as [_ [Hcells [Hch _]]].
  rewrite I in Hch.
  destruct (first_index_first st (has_part "object") _ i I) as [O B].
  exists (ET.next st + 2 * 0), (ET.next st + 2 * 1),
         (ET.next st + 2 * 2), (ET.next st + 2 * 3).
  split; [|split; [|split; [exact O | exact B]]].
  - rewrite Hch. rewrite Nat.mul_0_r, Nat.add_0_r. reflexivity.
  - assert (P : exists e1 e2 e3 e4, palette color_mode = [e1; e2; e3; e4]).
    { unfold palette. destruct (Str.eqb color_mode (lit "cmyw"));
        repeat eexists; reflexivity. }
    destruct P as [e1 [e2 [e3 [e4 P]]]]. rewrite P in *.
    repeat constructor.
    + exists (ET.next st + 2 * 0 + 1). apply (Hcells 0 e1). reflexivity.
    + exists (ET.next st + 2 * 1 + 1). apply (Hcells 1 e2). reflexivity.
    + exists (ET.next st + 2 * 2 + 1). apply (Hcells 2 e3). reflexivity.
    + exists (ET.next st + 2 * 3 + 1). apply (Hcells 3 e4). reflexivity.
Qed.

Lemma colorgroups_before_first_object_witness :
  exists g1 g2 g3 g4,
    ET.children
      (ET.cell (snd (insert_colorgroups st_colours 1 (lit "cmyw"))) 1)
    = [g1; g2; g3; g4; 2; 7]
    /\ map (fun g =>
              ET.get (snd (insert_colorgroups st_colours 1 (lit "cmyw")))
                     g (lit "id"))
           [g1; g2; g3; g4]
       = [Some (lit "1"); Some (lit "2"); Some (lit "3"); Some (lit "4")].
Proof.
  assert (R : 1 < ET.next st_colours) by (vm_compute; lia).
  assert (C : Forall (fun c => c < ET.next st_colours)
                     (ET.children (ET.cell st_colours 1))).
  { rewrite children_colours. cbn [nth].
    repeat (apply Forall_cons; [vm_compute; lia|]). apply Forall_nil. }
  assert (I : first_index st_colours (has_part "object") 0
                (ET.children (ET.cell st_colours 1)) = Some 0)
    by (vm_compute; reflexivity).
  destruct (colorgroups_before_first_object st_colours 1 (lit "cmyw") 0 R C I)
    as [g1 [g2 [g3 [g4 [Hch [F _]]]]]].
  exists g1, g2, g3, g4. split.
  - rewrite Hch, children_colours. reflexivity.
  - inversion F as [|? ? ? ? [c1 [G1 _]] F1]; subst.
    inversion F1 as [|? ? ? ? [c2 [G2 _]] F2]; subst.
    inversion F2 as [|? ? ? ? [c3 [G3 _]] F3]; subst.
    inversion F3 as [|? ? ? ? [c4 [G4 _]] F4]; subst.
    unfold ET.get. cbn [map]. rewrite G1, G2, G3, G4. reflexivity.
Defined.

(* ================================================================== *)
(** * The two lookups of the resources element *)
(* ================================================================== *)

Lemma first_child_Some (st : ET.store) (p : str -> bool) (cs : list ET.loc)
  (c : ET.loc) :
  ET.first_child st p cs = Some c ->
  In c cs /\ p (ET.tag (ET.cell st c)) = true.
Proof.
  induction cs as [|x cs IH]; simpl; [discriminate|].
  destruct (p (ET.tag (ET.cell st x))) eqn:P.
  - intros H. injection H as <-. split; [left; reflexivity | exact P].
  - intros H. destruct (IH H) as [I Q]. split; [right; exact I | exact Q].
Qed.

Lemma first_child_unique (st : ET.store) (p : str -> bool) (cs : list ET.loc)
  (r : ET.loc) :
  In r cs -> p (ET.tag (ET.cell st r)) = true ->
  (forall c, In c cs -> p (ET.tag (ET.cell st c)) = true -> c = r) ->
  ET.first_child st p cs = Some r.
Proof.
  intros I P U.
  destruct (ET.first_child st p cs) as [c|] eqn:F.
  - destruct (first_child_Some st p cs c F) as [Ic Pc].
    rewrite (U c Ic Pc). reflexivity.
  - exfalso. revert I P. clear U. induction cs as [|x cs IH]; simpl in *.
    + tauto.
    + destruct (p (ET.tag (ET.cell st x))) eqn:Px; [discriminate|].
      intros [->|I] P; [congruence | exact (IH F I P)].
Qed.

(** The tags that [elem.find] accepts under the path resources in a
    namespace pass the tag test of the module. *)
Lemma find_path_resources (ns t : str) :
  (if Str.startswith (lit "{*}") (lit "{" ++ ns ++ lit "}resources")
   then Str.eqb t (skipn 3 (lit "{" ++ ns ++ lit "}resources"))
        || Str.endswith (skipn 2 (lit "{" ++ ns ++ lit "}resources")) t
   else Str.eqb t (lit "{" ++ ns ++ lit "}resources")) = true ->
  has_part "resources" t = true.
Proof.
  destruct (Str.startswith _ _) eqn:S; intros E.
  - apply has_part_resources.
    apply startswith_inv in S. destruct S as [r S].
    change (lit "{" ++ ns ++ lit "}resources")
      with ("{"%char :: ns ++ lit "}resources") in *.
    change (lit "{*}" ++ r) with ("{"%char :: "*"%char :: "}"%char :: r) in S.
    rewrite S in E. cbn [skipn] in E.
    injection S as S.
    assert (R : r = lit "resources" \/ exists x, r = x ++ lit "}resources").
    { destruct ns as [|c [|c' ns]]; try discriminate S.
      - left. injection S as _ S. symmetry. exact S.
      - right. exists ns. injection S as _ _ S. symmetry. exact S. }
    apply orb_true_iff in E. destruct E as [E|E].
    + apply eqb_eq in E. rewrite E. destruct R as [R|[x R]]; rewrite R; eauto.
    + apply endswith_iff in E. destruct E as [a E].
      right. destruct R as [R|[x R]]; rewrite R in E.
      * exists a. assumption.
      * exists (a ++ "}"%char :: x). rewrite E, <- app_assoc. reflexivity.
  - apply eqb_eq in E. apply has_part_resources. right.
    exists (lit "{" ++ ns). rewrite E, <- app_assoc. reflexivity.
Qed.

(** The element that the three attempts of [get_objects_info] give is a
    child of the root whose tag passes the resources test. *)
Lemma locate_resources_child (st : ET.store) (root r : ET.loc) :
  locate_resources st root = Some r ->
  In r (ET.children (ET.cell st root))
  /\ has_part "resources" (ET.tag (ET.cell st r)) = true.
Proof.
  intros L.
  unfold locate_resources in L.
  destruct (ET.find st root (lit "resources")) as [r1|] eqn:F1.
  - injection L as <-. unfold ET.find in F1.
    change (Str.startswith (lit "{*}") (lit "resources")) with false in F1.
    cbv iota in F1. apply first_child_Some in F1. destruct F1 as [I E].
    split; [exact I|]. apply has_part_resources. left.
    apply eqb_eq. exact E.
  - destruct (if Str.contains (lit "}") (ET.tag (ET.cell st root))
              then strip "{"%char
                     (hd [] (Str.split "}"%char (ET.tag (ET.cell st root))))
              else []) as [|c ns].
    + apply first_child_Some in L. exact L.
    + destruct (ET.find st root (lit "{" ++ (c :: ns) ++ lit "}resources"))
        as [r2|] eqn:F2.
      * injection L as <-. unfold ET.find in F2.
        destruct (Str.startswith (lit "{*}")
                    (lit "{" ++ (c :: ns) ++ lit "}resources")) eqn:S;
          apply first_child_Some in F2; destruct F2 as [I E];
          (split; [exact I|]); apply (find_path_resources (c :: ns));
          rewrite S; exact E.
      * apply first_child_Some in L. exact L.
Qed.

(** X6.  The resources element from which [get_objects_info] builds the
    catalogue is a child of the root whose tag passes the resources test, so
    the later lookup of [add_colors_to_xml_string] finds a resources element
    too; when only one child of the root passes the test, both lookups give
    the same element. *)
Theorem resources_lookups_agree (st : ET.store) (root r : ET.loc) :
  locate_resources st root = Some r ->
  In r (ET.children (ET.cell st root))
  /\ has_part "resources" (ET.tag (ET.cell st r)) = true
  /\ (exists r',
         ET.first_child st (has_part "resources")
           (ET.children (ET.cell st root)) = Some r')
  /\ ((forall c,
          In c (ET.children (ET.cell st root)) ->
          has_part "resources" (ET.tag (ET.cell st c)) = true -> c = r) ->
      ET.first_child st (has_part "resources") (ET.children (ET.cell st root))
      = Some r).
Proof.
  intros L.
  pose proof (locate_resources_child st root r L) as A.
  destruct A as [I P]. split; [exact I|]. split; [exact P|]. split.
  - destruct (ET.first_child st (has_part "resources")
                (ET.children (ET.cell st root))) as [r'|] eqn:F.
    + exists r'. reflexivity.
    + exfalso. apply locate_resources_none in F. congruence.
  - intros U. apply first_child_unique; assumption.
Qed.

Lemma resources_lookups_agree_witness :
  locate_resources st_colours root_colours = Some 1
  /\ ET.first_child st_colours (has_part "resources")
       (ET.children (ET.cell st_colours root_colours)) = Some 1.
Proof.
  assert (L : locate_resources st_colours root_colours = Some 1)
    by (vm_compute; reflexivity).
  split; [exact L|].
  apply (resources_lookups_agree st_colours root_colours 1 L).
  change root_colours with 0. rewrite children_colours.
  intros c [<-|[<-|[]]] H; [reflexivity|].
  exfalso. vm_compute in H. discriminate H.
Defined.

(** Without that condition the two lookups can give different elements. *)
Lemma resources_lookups_may_differ :
  locate_resources store_two_resources 0 = Some 2
  /\ ET.first_child store_two_resources (has_part "resources")
       (ET.children (ET.cell store_two_resources 0)) = Some 1.
Proof. split; vm_compute; reflexivity. Qed.

(* ================================================================== *)
(** * Parts without a name *)
(* ================================================================== *)

Lemma insert_colorgroups_map (st : ET.store) (resources : ET.loc)
  (color_mode : str) :
  fst (insert_colorgroups st resources color_mode)
  = map (fun e => (fst e, get_colorgroup_id (fst e) color_mode))
        (palette color_mode).
Proof.
  unfold insert_colorgroups. fold (palette color_mode).
  assert (P : exists n1 v1 n2 v2 n3 v3 n4 v4,
             palette color_mode = [(n1, v1); (n2, v2); (n3, v3); (n4, v4)]).
  { unfold palette. destruct (Str.eqb color_mode (lit "cmyw"));
      repeat eexists; reflexivity. }
  destruct P as [n1 [v1 [n2 [v2 [n3 [v3 [n4 [v4 P]]]]]]]]. rewrite P.
  cbn [fold_left].
  destruct (make_colorgroup_spec color_mode [] [] st n1 v1)
    as [st1 [E1 _]]. unfold sdict, Dict.t in E1. rewrite E1.
  destruct (make_colorgroup_spec color_mode ([] ++ [ET.next st])
              (sset [] n1 (get_colorgroup_id n1 color_mode)) st1 n2 v2)
    as [st2 [E2 _]]. unfold sdict, Dict.t in E2. rewrite E2.
  destruct (make_colorgroup_spec color_mode
              (([] ++ [ET.next st]) ++ [ET.next st1])
              (sset (sset [] n1 (get_colorgroup_id n1 color_mode)) n2
                    (get_colorgroup_id n2 color_mode)) st2 n3 v3)
    as [st3 [E3 _]]. unfold sdict, Dict.t in E3. rewrite E3.
  destruct (make_colorgroup_spec color_mode
              ((([] ++ [ET.next st]) ++ [ET.next st1]) ++ [ET.next st2])
              (sset (sset (sset [] n1 (get_colorgroup_id n1 color_mode)) n2
                          (get_colorgroup_id n2 color_mode)) n3
                    (get_colorgroup_id n3 color_mode)) st3 n4 v4)
    as [st4 [E4 _]]. unfold sdict, Dict.t in E4. rewrite E4.
  cbn [fst]. unfold palette in P. unfold sset.
  destruct (Str.eqb color_mode (lit "cmyw"));
    injection P as <- <- <- <- <- <- <- <-; reflexivity.
Qed.

(** The keys of the mapping that [insert_colorgroups] returns are the names
    of the palette; the empty name is not one of them. *)
Lemma insert_colorgroups_no_empty_name (st : ET.store) (resources : ET.loc)
  (color_mode : str) :
  sget (fst (insert_colorgroups st resources color_mode)) [] = None.
Proof.
  rewrite insert_colorgroups_map. unfold palette.
  destruct (Str.eqb color_mode (lit "cmyw")); reflexivity.
Qed.

Lemma add_build_materials_frame (st : ET.store) (root : ET.loc)
  (cmap : sdict str) (l : ET.loc) :
  sget cmap (partnumber_of st l) = None ->
  ET.cell (snd (add_build_materials st root cmap)) l = ET.cell st l.
Proof.
  intros H. unfold add_build_materials.
  destruct (ET.first_child st (has_part "build")
              (ET.children (ET.cell st root))) as [build|]; [|reflexivity].
  apply (tag_items_spec st cmap (ET.children (ET.cell st build)) [] st
           (same_shapes_refl st) (fun _ _ _ => eq_refl)).
  intros [_ [_ N]]. apply N. exact H.
Qed.

(** X7.  In the mapping that [insert_colorgroups] returns the empty name is
    not a key.  So an object without a name attribute, catalogued under the
    empty name, gets no colorgroup id and its triangles are left as they
    are, and a build item without a partnumber attribute is left as it is. *)
Theorem unnamed_parts_get_no_colour (st : ET.store) (resources : ET.loc)
  (color_mode : str) :
  (forall st0 obj,
      ET.get st0 obj (lit "name") = None ->
      mapped_id (fst (insert_colorgroups st resources color_mode))
                (object_entry st0 obj) = None)
  /\ (forall st1 objects l,
         (forall o, In o objects ->
                    In l (triangle_elements st1 (obj_element o)) ->
                    obj_name o = []) ->
         ET.cell (snd (add_triangle_colors st1 objects
                         (fst (insert_colorgroups st resources color_mode)))) l
         = ET.cell st1 l)
  /\ (forall st1 root item,
         ET.get st1 item (lit "partnumber") = None ->
         ET.cell (snd (add_build_materials st1 root
                         (fst (insert_colorgroups st resources color_mode))))
                 item
         = ET.cell st1 item).
Proof.
  pose proof (insert_colorgroups_no_empty_name st resources color_mode) as E.
  split; [|split].
  - intros st0 obj H. unfold mapped_id, object_entry. cbn [obj_is_assembly obj_name].
    destruct (is_assembly st0 obj); [reflexivity|].
    unfold ET.get_default. rewrite H. exact E.
  - intros st1 objects l H.
    apply (add_triangle_colors_spec st1 _ objects [] st1 (same_shapes_refl st1)).
    intros o I M T. apply M. unfold mapped_id.
    destruct (obj_is_assembly o); [reflexivity|].
    rewrite (H o I T). exact E.
  - intros st1 root item H. apply add_build_materials_frame.
    unfold partnumber_of, ET.get_default. rewrite H. exact E.
Qed.

Lemma unnamed_parts_get_no_colour_witness :
  ET.get st_colours 13 (lit "partnumber") = None
  /\ ET.cell (snd (add_build_materials st_colours root_colours
                     (fst (insert_colorgroups st_colours 1 (lit "rybw"))))) 13
     = ET.cell st_colours 13.
Proof.
  assert (H : ET.get st_colours 13 (lit "partnumber") = None)
    by (vm_compute; reflexivity).
  split; [exact H|].
  apply (proj2 (proj2 (unnamed_parts_get_no_colour st_colours 1 (lit "rybw")))).
  exact H.
Defined.

(* ================================================================== *)
(** * The statistics of add_build_materials *)
(* ================================================================== *)

Lemma opt_eqb_eq (a b : option str) : opt_eqb a b = true <-> a = b.
Proof.
  destruct a as [a|], b as [b|]; simpl; split; try congruence.
  - intros H. apply eqb_eq in H. congruence.
  - intros H. injection H as ->. apply eqb_refl.
Qed.

Lemma oget_oset (d : Dict.t (option str) str) (k k' : option str) (v : str) :
  Dict.get opt_eqb (Dict.set opt_eqb d k v) k'
  = if opt_eqb k' k then Some v else Dict.get opt_eqb d k'.
Proof.
  induction d as [|[k0 v0] d IH]; simpl; [reflexivity|].
  destruct (opt_eqb k k0) eqn:E; simpl.
  - apply opt_eqb_eq in E. subst k0.
    destruct (opt_eqb k' k); reflexivity.
  - rewrite IH. destruct (opt_eqb k' k0) eqn:E0; [|reflexivity].
    apply opt_eqb_eq in E0. subst k0.
    destruct (opt_eqb k' k) eqn:E1; [|reflexivity].
    apply opt_eqb_eq in E1. subst k'.
    assert (T : opt_eqb k k = true) by (apply opt_eqb_eq; reflexivity).
    congruence.
Qed.

Lemma tag_item_stats (st : ET.store) (cmap : sdict str)
  (stats : Dict.t (option str) str) (st0 : ET.store) (c : ET.loc) :
  same_shapes st st0 ->
  (forall l k, k <> lit "materialid" -> ET.get st0 l k = ET.get st l k) ->
  fst (tag_item cmap (stats, st0) c)
  = if has_part "item" (ET.tag (ET.cell st c)) then
      match sget cmap (partnumber_of st c) with
      | Some materialid =>
          Dict.set opt_eqb stats (ET.get st c (lit "objectid")) materialid
      | None => stats
      end
    else stats.
Proof.
  intros S0 A0. unfold tag_item, partnumber_of, ET.get_default.
  destruct (S0 c) as [T _]. rewrite T.
  rewrite !A0 by discriminate.
  destruct (has_part "item" (ET.tag (ET.cell st c))); [|reflexivity].
  destruct (sget cmap _); reflexivity.
Qed.

Lemma tag_items_stats (st : ET.store) (cmap : sdict str) (oid : option str)
  (cs : list ET.loc) :
  forall stats st0,
    same_shapes st st0 ->
    (forall l k, k <> lit "materialid" -> ET.get st0 l k = ET.get st l k) ->
    Dict.get opt_eqb (fst (fold_left (tag_item cmap) cs (stats, st0))) oid
    = match List.find (reported_under st cmap oid)
                      (rev (filter (fun i => has_part "item"
                                               (ET.tag (ET.cell st i))) cs)) with
      | Some item => sget cmap (partnumber_of st item)
      | None => Dict.get opt_eqb stats oid
      end.
Proof.
  induction cs as [|c cs IH]; intros stats st0 S0 A0; [reflexivity|].
  cbn [fold_left filter].
  pose proof (tag_item_stats st cmap stats st0 c S0 A0) as F.
  destruct (tag_items_spec st cmap [c] stats st0 S0 A0) as [S1 [A1 _]].
  cbn [fold_left] in S1, A1.
  destruct (tag_item cmap (stats, st0) c) as [stats1 st1].
  cbn [fst snd] in F, S1, A1.
  rewrite IH.
  2: { eapply same_shapes_trans; [exact S0 | exact S1]. }
  2: { intros l k N. rewrite A1 by exact N. apply A0. exact N. }
  subst stats1.
  destruct (has_part "item" (ET.tag (ET.cell st c))) eqn:I.
  - cbn [rev]. rewrite find_app.
    destruct (List.find (reported_under st cmap oid) _); [reflexivity|].
    cbn [List.find]. unfold reported_under.
    change (smem cmap (partnumber_of st c))
      with (match sget cmap (partnumber_of st c) with
            | Some _ => true | None => false end).
    destruct (sget cmap (partnumber_of st c)) as [m|] eqn:G; cbn [andb];
      [|reflexivity].
    rewrite oget_oset.
    destruct (opt_eqb oid (ET.get st c (lit "objectid")));
      [symmetry; exact G | reflexivity].
  - reflexivity.
Qed.

(** X8.  The statistics that [add_build_materials] returns give, under an
    objectid (none, when the attribute is absent), the material id set on
    the last item of the build element that carries that objectid and whose
    part number is a key of the mapping; an objectid without such an item
    is not a key. *)
Theorem build_stats_last_wins (st : ET.store) (root : ET.loc)
  (colorgroup_map : sdict str) (oid : option str) :
  Dict.get opt_eqb (fst (add_build_materials st root colorgroup_map)) oid
  = match List.find (reported_under st colorgroup_map oid)
                    (rev (build_items st root)) with
    | Some item => sget colorgroup_map (partnumber_of st item)
    | None => None
    end.
Proof.
  unfold add_build_materials, build_items.
  destruct (ET.first_child st (has_part "build")
              (ET.children (ET.cell st root))) as [build|]; [|reflexivity].
  apply (tag_items_stats st colorgroup_map oid (ET.children (ET.cell st build))
           [] st (same_shapes_refl st) (fun _ _ _ => eq_refl)).
Qed.

(* ================================================================== *)
(** * Reading and writing a 3MF archive *)
(* ================================================================== *)

(** Lines 187-190 never raise on the names of the archive: every name but
    the model path is recorded once, in the order of first appearance, with
    what the archive reads under it. *)
Lemma read_others_spec (a : archive) (names : list str) :
  forall acc : sdict bytes,
    (forall n, In n names -> In n (ZipFile.namelist a)) ->
    NoDup (Dict.keys acc) ->
    exists others,
      read_others a names acc = Returns others
      /\ NoDup (Dict.keys others)
      /\ (forall P,
             List.find P (Dict.keys others)
             = List.find P
                 (Dict.keys acc
                    ++ filter (fun n => negb (Str.eqb n model_path)) names))
      /\ (forall n,
             sget others n
             = if Str.eqb n model_path then sget acc n
               else if in_keys_dec n names then content_of a n
                    else sget acc n).
Proof.
  induction names as [|n rest IH]; intros acc Hin Hnd.
  - exists acc. simpl. rewrite app_nil_r. repeat split; auto.
    intros n. destruct (in_keys_dec n []) as [[]|_].
    destruct (Str.eqb n model_path); reflexivity.
  - cbn [read_others filter].
    destruct (Str.eqb n model_path) eqn:M.
    + destruct (IH acc (fun m Hm => Hin m (or_intror Hm)) Hnd)
        as [others [E [N [F G]]]].
      exists others. cbn [negb]. repeat split; [assumption .. |].
      intros m. rewrite G.
      destruct (Str.eqb m model_path) eqn:Mm; [reflexivity|].
      destruct (in_keys_dec m rest) as [I|I];
        destruct (in_keys_dec m (n :: rest)) as [J|J]; try reflexivity.
      * exfalso. apply J. right. assumption.
      * destruct J as [<-|J]; [congruence | contradiction].
    + destruct (read_in a n (Hin n (or_introl eq_refl))) as [d Hd].
      assert (Hnd' : NoDup (Dict.keys (sset acc n d))).
      { destruct (in_keys_dec n (Dict.keys acc)) as [I|I].
        - rewrite keys_sset_old by assumption. assumption.
        - rewrite keys_sset_new by assumption.
          apply NoDup_app; [assumption | repeat constructor; simpl; tauto |].
          intros x Hx [<-|[]]. contradiction. }
      destruct (IH (sset acc n d) (fun m Hm => Hin m (or_intror Hm)) Hnd')
        as [others [E [N [F G]]]].
      exists others. rewrite Hd. cbn [bind negb].
      repeat split; [assumption .. | |].
      * intros P. rewrite F.
        destruct (in_keys_dec n (Dict.keys acc)) as [I|I].
        -- rewrite keys_sset_old by assumption. symmetry.
           apply find_app_in. assumption.
        -- rewrite keys_sset_new by assumption. rewrite <- app_assoc.
           reflexivity.
      * intros m. rewrite G.
        destruct (Str.eqb m model_path) eqn:Mm.
        -- apply sget_sset_other. intros ->. congruence.
        -- destruct (in_keys_dec m rest) as [I|I];
             destruct (in_keys_dec m (n :: rest)) as [J|J]; try reflexivity.
           ++ exfalso. apply J. right. assumption.
           ++ destruct J as [<-|J]; [|contradiction].
              rewrite sget_sset_same. unfold content_of. rewrite Hd.
              reflexivity.
           ++ apply sget_sset_other. intros ->. apply J. left. reflexivity.
Qed.


Section ReadWrite.

Variable ET_fromstring : bytes -> option (ET.store * ET.loc).
Variable ET_tostring : ET.store -> ET.loc -> bytes.

(** X9.  On an archive that has an entry 3D/3dmodel.model, [read_3mf]
    parses what the archive reads under that name: when the parser rejects
    it, the parse error propagates; otherwise the document comes back with
    the other files, which hold every other name of the archive once, in the
    order of first appearance, with what the archive reads under it, and
    never the model path. *)
Theorem read_3mf_contents (a : archive) :
  In model_path (ZipFile.namelist a) ->
  exists xml_content,
    content_of a model_path = Some xml_content
    /\ match ET_fromstring xml_content with
       | None => read_3mf ET_fromstring (Zip a) = Raises ParseError
       | Some doc =>
           exists other_files,
             read_3mf ET_fromstring (Zip a) = Returns (doc, other_files)
             /\ NoDup (Dict.keys other_files)
             /\ (forall P,
                    List.find P (Dict.keys other_files)
                    = List.find P
                        (filter (fun n => negb (Str.eqb n model_path))
                                (ZipFile.namelist a)))
             /\ (forall n,
                    sget other_files n
                    = if Str.eqb n model_path then None else content_of a n)
       end.
Proof.
  intros I. destruct (read_in a model_path I) as [xml R].
  exists xml. split; [unfold content_of; rewrite R; reflexivity|].
  unfold read_3mf. cbn [ZipFile.is_zipfile negb ZipFile.open_r bind].
  assert (M : Str.mem model_path (ZipFile.namelist a) = true)
    by (apply mem_In; exact I).
  rewrite M. cbn [negb]. rewrite R. cbn [bind]. unfold fromstring.
  destruct (ET_fromstring xml) as [doc|]; [|reflexivity].
  cbn [bind].
  destruct (read_others_spec a (ZipFile.namelist a) [] (fun n H => H)
              (NoDup_nil _)) as [others [E [N [F G]]]].
  exists others. rewrite E. cbn [bind].
  split; [reflexivity|]. split; [exact N|]. split; [exact F|].
  intros n. rewrite G.
  destruct (Str.eqb n model_path); [reflexivity|].
  destruct (in_keys_dec n (ZipFile.namelist a)) as [J|J]; [reflexivity|].
  rewrite read_not_in by exact J. reflexivity.
Qed.


End ReadWrite.

Lemma read_3mf_contents_witness :
  exists doc other_files,
    read_3mf MiniXML.fromstring (Zip archive_small) = Returns (doc, other_files)
    /\ sget other_files (lit "_rels/.rels")
       = Some (Utf8.encode (lit "<Relationships/>"))
    /\ sget other_files model_path = None.
Proof.
  assert (I : In model_path (ZipFile.namelist archive_small)).
  { right. left. reflexivity. }
  destruct (read_3mf_contents MiniXML.fromstring archive_small I)
    as [xml [C H]].
  assert (X : xml = Utf8.encode doc_small).
  { vm_compute in C. injection C as <-. vm_compute. reflexivity. }
  subst xml.
  destruct (MiniXML.fromstring (Utf8.encode doc_small)) as [doc|] eqn:P.
  - destruct H as [others [E [_ [_ G]]]].
    exists doc, others. split; [exact E|]. split.
    + rewrite G. vm_compute. reflexivity.
    + rewrite G. vm_compute. reflexivity.
  - exfalso. vm_compute in P. discriminate P.
Defined.


(* ================================================================== *)
(** * The namespace registry *)
(* ================================================================== *)

Lemma filter_filter (A : Type) (p q : A -> bool) (l : list A) :
  filter p (filter q l) = filter (fun x => q x && p x) l.
Proof.
  induction l as [|x l IH]; simpl; [reflexivity|].
  destruct (q x); simpl; [|exact IH].
  destruct (p x); rewrite IH; reflexivity.
Qed.

Lemma register_all_clear (entries : sdict str) :
  forall registry,
    NoDup (map fst entries) -> NoDup (map snd entries) ->
    register_all registry entries
    = filter (clear_of entries) registry ++ entries.
Proof.
  induction entries as [|e es IH]; intros registry Nk Nv.
  - simpl. rewrite app_nil_r. symmetry.
    rewrite (filter_ext (clear_of []) (fun _ => true)) by reflexivity.
    induction registry as [|x l IHl]; simpl; [reflexivity | f_equal; exact IHl].
  - cbn [map] in Nk, Nv. apply NoDup_cons_iff in Nk, Nv.
    destruct Nk as [Hk Nk], Nv as [Hv Nv].
    unfold register_all. cbn [fold_left]. fold (register_all
      (filter (fun kv => negb (Str.eqb (fst kv) (fst e)
                               || Str.eqb (snd kv) (snd e))) registry ++ [e]) es).
    rewrite IH by assumption.
    rewrite filter_app, filter_filter, <- app_assoc. f_equal.
    + apply filter_ext. intros kv. unfold clear_of. cbn [map Str.mem existsb].
      unfold Str.mem.
      destruct (Str.eqb (fst kv) (fst e)), (Str.eqb (snd kv) (snd e)),
        (existsb (Str.eqb (fst kv)) (map fst es)),
        (existsb (Str.eqb (snd kv)) (map snd es)); reflexivity.
    + cbn [filter]. unfold clear_of.
      assert (A : Str.mem (fst e) (map fst es) = false).
      { destruct (Str.mem (fst e) (map fst es)) eqn:M; [|reflexivity].
        apply mem_In in M. contradiction. }
      assert (B : Str.mem (snd e) (map snd es) = false).
      { destruct (Str.mem (snd e) (map snd es)) eqn:M; [|reflexivity].
        apply mem_In in M. contradiction. }
      rewrite A, B. reflexivity.
Qed.

Lemma register_namespaces_all (registry : sdict str) :
  register_namespaces registry = Returns (register_all registry registered).
Proof. reflexivity. Qed.

Lemma registered_distinct :
  NoDup (map fst registered) /\ NoDup (map snd registered).
Proof.
  split; repeat constructor; simpl; intros H;
    repeat (destruct H as [H|H]; [discriminate H|]); exact H.
Qed.

Lemma sget_app (V : Type) (l r : sdict V) (k : str) :
  sget (l ++ r) k
  = match sget l k with Some v => Some v | None => sget r k end.
Proof.
  induction l as [|[k' v'] l IH]; [reflexivity|].
  cbn [app]. rewrite !sget_cons. destruct (Str.eqb k k'); [reflexivity | exact IH].
Qed.

Lemma sget_filter_none (V : Type) (p : str * V -> bool) (l : sdict V) (k : str) :
  (forall v, p (k, v) = false) -> sget (filter p l) k = None.
Proof.
  intros H. induction l as [|[k' v'] l IH]; [reflexivity|].
  cbn [filter]. destruct (p (k', v')) eqn:P; [|exact IH].
  rewrite sget_cons. destruct (Str.eqb k k') eqn:E; [|exact IH].
  apply eqb_eq in E. subst k'. rewrite H in P. discriminate P.
Qed.

(** X11.  Whatever the registry holds, [register_namespaces] raises
    nothing and leaves the six namespaces of 3MF with their prefixes (the
    model namespace with the empty prefix, the material namespace with m);
    no other namespace keeps one of these prefixes; every other entry is
    kept; and a second call changes nothing. *)
Theorem register_namespaces_settles (registry : sdict str) :
  exists settled,
    register_namespaces registry = Returns settled
    /\ register_namespaces settled = Returns settled
    /\ (forall uri prefix,
           In (uri, prefix) registered -> sget settled uri = Some prefix)
    /\ (forall uri prefix,
           In (uri, prefix) settled -> In prefix (map snd registered) ->
           In (uri, prefix) registered)
    /\ (forall uri prefix,
           In (uri, prefix) settled <->
           In (uri, prefix) registered
           \/ (In (uri, prefix) registry
               /\ ~ In uri (map fst registered)
               /\ ~ In prefix (map snd registered))).
Proof.
  destruct registered_distinct as [Nk Nv].
  exists (filter (clear_of registered) registry ++ registered).
  assert (M : forall uri prefix,
             In (uri, prefix) (filter (clear_of registered) registry) <->
             In (uri, prefix) registry
             /\ ~ In uri (map fst registered)
             /\ ~ In prefix (map snd registered)).
  { intros uri prefix. rewrite filter_In. unfold clear_of. cbn [fst snd].
    rewrite andb_true_iff, !negb_true_iff.
    split; intros [H [A B]]; (split; [exact H|]).
    - split; intros I; apply mem_In in I; congruence.
    - split.
      + destruct (Str.mem uri (map fst registered)) eqn:E; [|reflexivity].
        apply mem_In in E. contradiction.
      + destruct (Str.mem prefix (map snd registered)) eqn:E; [|reflexivity].
        apply mem_In in E. contradiction. }
  split; [|split; [|split; [|split]]].
  - rewrite register_namespaces_all. rewrite register_all_clear by assumption.
    reflexivity.
  - rewrite register_namespaces_all. rewrite register_all_clear by assumption.
    rewrite filter_app, filter_filter.
    replace (filter (clear_of registered) registered) with (@nil (str * str))
      by (vm_compute; reflexivity).
    rewrite app_nil_r. do 2 f_equal. apply filter_ext. intros kv.
    destruct (clear_of registered kv); reflexivity.
  - intros uri prefix I. rewrite sget_app.
    rewrite sget_filter_none.
    + revert I. unfold registered.
      intros I. repeat (destruct I as [I|I]; [injection I as <- <-; reflexivity|]).
      destruct I.
    + intros v. unfold clear_of. cbn [fst snd].
      assert (E : Str.mem uri (map fst registered) = true).
      { apply mem_In. apply in_map_iff. exists (uri, prefix).
        split; [reflexivity | exact I]. }
      rewrite E. reflexivity.
  - intros uri prefix I P. apply in_app_or in I. destruct I as [I|I]; [|exact I].
    apply M in I. destruct I as [_ [_ N]]. contradiction.
  - intros uri prefix. rewrite in_app_iff, M. tauto.
Qed.

(** The registry of ElementTree once [register_namespaces] has run in a
    fresh interpreter is the one the serialiser of this development uses. *)
Lemma register_namespaces_default :
  register_namespaces default_namespace_map = Returns MiniXML.namespace_map.
Proof. vm_compute. reflexivity. Qed.

(* ================================================================== *)
(** * The archive that safe_fix_3mf_names writes *)
(* ================================================================== *)


Section ArchiveWritten.

Variable utf8_encode : str -> bytes.
Variable utf8_decode : bytes -> option str.
Variable ET_fromstring : bytes -> option (ET.store * ET.loc).
Variable ET_tostring : ET.store -> ET.loc -> bytes.

Local Notation fix_names :=
  (safe_fix_3mf_names utf8_encode utf8_decode ET_fromstring ET_tostring).
Local Notation colorize :=
  (add_colors_to_xml_string utf8_encode utf8_decode ET_fromstring ET_tostring).

(** The body of the outer [try], case by case. *)
Lemma safe_fix_body_cases (a : archive) (slot_names : list str)
  (ca ec : bool) (cm : option str) :
  exists fd,
    read_all a (ZipFile.namelist a) [] = Returns fd
    /\ NoDup (Dict.keys fd)
    /\ (forall P, List.find P (Dict.keys fd) = List.find P (ZipFile.namelist a))
    /\ (forall n, sget fd n = content_of a n)
    /\ match List.find is_model_name (ZipFile.namelist a) with
       | None =>
           safe_fix_body utf8_encode utf8_decode ET_fromstring ET_tostring
             (Zip a) slot_names ca ec cm = Returns fd
       | Some mf =>
           exists data,
             content_of a mf = Some data
             /\ In mf (Dict.keys fd)
             /\ match utf8_decode data with
                | None =>
                    safe_fix_body utf8_encode utf8_decode ET_fromstring
                      ET_tostring (Zip a) slot_names ca ec cm
                    = Raises UnicodeDecodeError
                | Some content =>
                    safe_fix_body utf8_encode utf8_decode ET_fromstring
                      ET_tostring (Zip a) slot_names ca ec cm
                    = colour_stage utf8_encode utf8_decode ET_fromstring
                        ET_tostring fd mf (fix_text content slot_names ca)
                        slot_names ec cm
                end
       end.
Proof.
  destruct (read_all_spec a (ZipFile.namelist a) [] (fun n H => H)
              (NoDup_nil _)) as [fd [R [N [F G]]]].
  assert (F' : forall P, List.find P (Dict.keys fd)
                         = List.find P (ZipFile.namelist a)) by exact F.
  clear F.
  exists fd. split; [exact R|]. split; [exact N|]. split; [exact F'|].
  assert (G' : forall n, sget fd n = content_of a n).
  { intros n. rewrite G. destruct (in_keys_dec n (ZipFile.namelist a)) as [I|I].
    - reflexivity.
    - rewrite read_not_in by exact I. reflexivity. }
  split; [exact G'|].
  unfold safe_fix_body. cbn [ZipFile.open_r bind]. rewrite R. cbn [bind].
  unfold find_model_file. rewrite (F' is_model_name).
  destruct (List.find is_model_name (ZipFile.namelist a)) as [mf|] eqn:M;
    [|reflexivity].
  pose proof (find_some _ _ M) as [I Q].
  destruct (read_in a mf I) as [data D].
  exists data.
  assert (C : content_of a mf = Some data)
    by (unfold content_of; rewrite D; reflexivity).
  split; [exact C|].
  assert (K : In mf (Dict.keys fd)).
  { apply sget_In_keys. rewrite G', C. discriminate. }
  split; [exact K|].
  destruct mf as [|c mf]; [discriminate Q|].
  rewrite G', C. unfold decode.
  destruct (utf8_decode data); reflexivity.
Qed.



(** X14.  When the model entry does not decode as UTF-8, the decoding
    error is swallowed and the file is left as it was: nothing is written,
    the auxiliary entries included. *)
Theorem undecodable_model_leaves_file (a : archive) (mf : str) (data : bytes)
  (slot_names : list str) (create_assembly enable_colors : bool)
  (color_mode : option str) :
  List.find is_model_name (ZipFile.namelist a) = Some mf ->
  content_of a mf = Some data ->
  utf8_decode data = None ->
  fix_names (Zip a) slot_names create_assembly enable_colors color_mode
  = Returns (Zip a).
Proof.
  intros M C U.
  destruct (safe_fix_body_cases a slot_names create_assembly enable_colors
              color_mode) as [fd [R [N [F [G B]]]]].
  rewrite M in B. destruct B as [data' [C' [K B]]].
  assert (data' = data) by congruence. subst data'.
  rewrite U in B. unfold safe_fix_3mf_names. rewrite B. reflexivity.
Qed.

End ArchiveWritten.



Lemma undecodable_model_leaves_file_witness :
  safe_fix_3mf_names Utf8.encode Utf8.decode
    MiniXML.fromstring MiniXML.tostring
    (Zip archive_not_utf8) [lit "Red"] true true None
  = Returns (Zip archive_not_utf8).
Proof.
  apply (undecodable_model_leaves_file Utf8.encode Utf8.decode
           MiniXML.fromstring MiniXML.tostring
           archive_not_utf8 (lit "3D/3dmodel.model") [Byte.xff; Byte.xfe]).
  - vm_compute. reflexivity.
  - vm_compute. reflexivity.
  - vm_compute. reflexivity.
Defined.

(* ================================================================== *)
(** * The textual pass: edge cases and recorded ids *)
(* ================================================================== *)

Lemma rename_objects_weave (content : str) (slot_names : list str) :
  rename_objects slot_names (scan_objects content) content
  = weave (gaps_between 0 content (scan_objects content))
          (assign slot_names (map entry_tag (scan_objects content))).
Proof.
  destruct (scan_objects_placed content) as [P _].
  rewrite rename_objects_fold_right.
  rewrite (rename_fold_right slot_names content (scan_objects content) 0 0 P).
  reflexivity.
Qed.

Lemma content_weave (content : str) :
  content
  = weave (gaps_between 0 content (scan_objects content))
          (map entry_tag (scan_objects content)).
Proof.
  destruct (scan_objects_placed content) as [P _].
  exact (placed_weave content _ 0 P).
Qed.

(** X15.  The textual pass changes nothing when there is nothing to do:
    with an empty name list and no assembly requested; with an empty name
    list and fewer than two object start-tags with a numeric id, whatever is
    requested; and with no such tag at all, whatever the names. *)
Theorem nothing_to_rename (content : str) (slot_names : list str)
  (create_assembly : bool) :
  fix_text content [] false = content
  /\ (length (scan_objects content) < 2 ->
      fix_text content [] create_assembly = content)
  /\ (scan_objects content = [] ->
      fix_text content slot_names create_assembly = content).
Proof.
  assert (E : rename_objects [] (scan_objects content) content = content).
  { rewrite rename_objects_weave, assign_nil. symmetry. apply content_weave. }
  split; [|split].
  - unfold fix_text. cbn [andb]. exact E.
  - intros L. unfold fix_text. rewrite length_map.
    assert (B : (1 <? length (scan_objects content)) = false)
      by (apply Nat.ltb_ge; lia).
    rewrite B, andb_false_r. exact E.
  - intros S. unfold fix_text. rewrite length_map.
    rewrite rename_objects_weave.
    rewrite S. cbn [length map]. rewrite assign_no_tags.
    change (1 <? 0) with false. rewrite andb_false_r.
    rewrite (content_weave content) at 2. rewrite S. reflexivity.
Qed.

Lemma nothing_to_rename_witness :
  length (scan_objects doc_no_resources) < 2
  /\ fix_text doc_no_resources [] true = doc_no_resources.
Proof.
  assert (L : length (scan_objects doc_no_resources) < 2)
    by (vm_compute; lia).
  split; [exact L|].
  apply (proj1 (proj2 (nothing_to_rename doc_no_resources [] true))).
  exact L.
Defined.

Lemma take_while_Forall (p : ascii -> bool) (s : str) :
  Forall (fun c => p c = true) (Str.take_while p s).
Proof.
  induction s as [|c s IH]; simpl; [constructor|].
  destruct (p c) eqn:P; constructor; assumption.
Qed.

Lemma index_where_split (p : ascii -> bool) (s : str) (j : nat) :
  Str.index_where p s = Some j ->
  exists c rest, s = firstn j s ++ c :: rest /\ p c = true.
Proof.
  revert j. induction s as [|x s IH]; intros j; simpl; [discriminate|].
  destruct (p x) eqn:P.
  - intros H. injection H as <-. exists x, s. split; [reflexivity | exact P].
  - destruct (Str.index_where p s) as [k|]; [|discriminate].
    intros H. injection H as <-.
    destruct (IH k eq_refl) as [c [rest [E Q]]].
    exists c, rest. split; [|exact Q]. simpl. f_equal. exact E.
Qed.

Lemma firstn_length_app (A : Type) (l r : list A) :
  firstn (length l) (l ++ r) = l.
Proof. induction l as [|x l IH]; simpl; [destruct r|]; congruence. Qed.

(** A match of the object pattern is the seven characters of the opening,
    a white-space run, group 1 and the closing bracket. *)
Lemma object_here_tag (s : str) (len : nat) (attrs : str) :
  Re.object_here s = Some (len, attrs) ->
  exists ws, firstn len s = firstn 7 s ++ ws ++ attrs ++ lit ">".
Proof.
  unfold Re.object_here.
  destruct (Str.startswith_nocase (lit "<object") s) eqn:S; [|discriminate].
  apply startswith_nocase_length in S. change (length (lit "<object")) with 7 in S.
  pose proof (take_drop_while Str.is_space (skipn 7 s)) as TD.
  destruct (Str.take_while Str.is_space (skipn 7 s)) as [|w ws] eqn:T;
    [discriminate|].
  destruct (Str.index_where (Ascii.eqb ">"%char)
              (Str.drop_while Str.is_space (skipn 7 s))) as [j|] eqn:J;
    [|discriminate].
  intros H. injection H as <- <-.
  destruct (index_where_split _ _ _ J) as [c [rest [E Q]]].
  apply Ascii.eqb_eq in Q. subst c.
  exists (w :: ws).
  set (after := Str.drop_while Str.is_space (skipn 7 s)) in *.
  assert (D : s = (firstn 7 s ++ (w :: ws) ++ firstn j after ++ lit ">") ++ rest).
  { rewrite <- !app_assoc. rewrite <- (firstn_skipn 7 s) at 1.
    f_equal. rewrite <- TD. f_equal. exact E. }
  assert (L : 7 + length (w :: ws) + j + 1
              = length (firstn 7 s ++ (w :: ws) ++ firstn j after ++ lit ">")).
  { rewrite !length_app, length_firstn, length_firstn.
    apply index_where_lt in J. fold after in J.
    change (length (lit ">")) with 1. lia. }
  etransitivity;
    [|apply (firstn_length_app _
               (firstn 7 s ++ (w :: ws) ++ firstn j after ++ lit ">") rest)].
  rewrite <- D. f_equal. rewrite <- L. reflexivity.
Qed.

Lemma id_here_spec (s ds : str) :
  Re.id_here s = Some ds ->
  ds <> []
  /\ Forall (fun c => Str.is_digit c = true) ds
  /\ exists after, s = lit "id=" ++ [dq] ++ ds ++ [dq] ++ after.
Proof.
  unfold Re.id_here.
  destruct (Str.startswith (lit "id=" ++ [dq]) s) eqn:S; [|discriminate].
  apply startswith_inv in S. destruct S as [r ->].
  change (skipn 4 ((lit "id=" ++ [dq]) ++ r)) with r.
  pose proof (take_drop_while Str.is_digit r) as TD.
  pose proof (take_while_Forall Str.is_digit r) as TF.
  destruct (Str.take_while Str.is_digit r) as [|d ds'] eqn:T; [discriminate|].
  destruct (Str.drop_while Str.is_digit r) as [|c after]; [discriminate|].
  destruct (Ascii.eqb c dq) eqn:Q; [|discriminate].
  apply Ascii.eqb_eq in Q. subst c.
  intros H. injection H as <-.
  split; [discriminate|]. split; [exact TF|].
  exists after. rewrite <- TD. rewrite <- !app_assoc. reflexivity.
Qed.

Lemma search_id_spec (s : str) :
  forall prev_word ds,
    Re.search_id prev_word s = Some ds ->
    ds <> []
    /\ Forall (fun c => Str.is_digit c = true) ds
    /\ exists before after,
         s = before ++ lit "id=" ++ [dq] ++ ds ++ [dq] ++ after.
Proof.
  induction s as [|c s IH]; intros pw ds; [discriminate|].
  cbn [Re.search_id].
  destruct (if pw then None else Re.id_here (c :: s)) as [ds'|] eqn:H.
  - intros E. injection E as <-. destruct pw; [discriminate|].
    destruct (id_here_spec _ _ H) as [N [F [after E]]].
    split; [exact N|]. split; [exact F|]. exists [], after. exact E.
  - intros E. destruct (IH _ _ E) as [N [F [before [after D]]]].
    split; [exact N|]. split; [exact F|].
    exists (c :: before), after. rewrite D. reflexivity.
Qed.

Lemma placed_tags (content : str) (l : list obj_entry) :
  forall from,
    placed from content l ->
    Forall (fun e => entry_tag e
                     = firstn (entry_end e - entry_start e)
                              (skipn (entry_start e) content)) l.
Proof.
  induction l as [|e l IH]; intros from P; [constructor|].
  destruct P as [_ [_ [_ [T P]]]].
  constructor; [exact T | exact (IH _ P)].
Qed.

(** X16.  Every id recorded by the scan of the object start-tags is a
    non-empty string of decimal digits, and the recorded tag holds it
    between double quotes after the literal id=. *)
Theorem recorded_ids_are_numbers (content : str) :
  Forall (fun e =>
            entry_id e <> []
            /\ Forall (fun c => Str.is_digit c = true) (entry_id e)
            /\ exists before after,
                 entry_tag e
                 = before ++ lit "id=" ++ [dq] ++ entry_id e ++ [dq] ++ after)
         (scan_objects content).
Proof.
  destruct (scan_objects_placed content) as [P F].
  pose proof (placed_tags content _ 0 P) as T.
  rewrite Forall_forall in *. intros e I.
  destruct (F e I) as [attrs [O S]]. specialize (T e I).
  destruct (search_id_spec _ _ _ S) as [N [D [before [after E]]]].
  split; [exact N|]. split; [exact D|].
  destruct (object_here_tag _ _ _ O) as [ws W].
  exists (firstn 7 (skipn (entry_start e) content) ++ ws ++ before),
         (after ++ lit ">").
  rewrite T, W, E. rewrite <- !app_assoc. reflexivity.
Qed.

Lemma int_of_uint_acc (d : Decimal.uint) :
  forall acc : positive,
    fold_left (fun a c => (a * 10 + N.of_nat (Str.code c - 48))%N)
              (Str.of_uint d) (N.pos acc)
    = N.pos (Pos.of_uint_acc d acc).
Proof.
  induction d; intros acc; cbn [Str.of_uint fold_left Pos.of_uint_acc];
    [reflexivity | rewrite <- IHd; f_equal; vm_compute N.of_nat; lia ..].
Qed.

Lemma int_of_uint (d : Decimal.uint) : Str.int (Str.of_uint d) = N.of_uint d.
Proof.
  unfold Str.int, N.of_uint.
  induction d; cbn [Str.of_uint fold_left Pos.of_uint];
    [reflexivity | exact IHd | apply int_of_uint_acc ..].
Qed.

(** [int(str(n))] is [n]. *)
Lemma int_of_N (n : N) : Str.int (Str.of_N n) = n.
Proof.
  unfold Str.of_N. rewrite int_of_uint. apply DecimalN.Unsigned.of_to.
Qed.

(** X17.  The id given to the assembly reads back as the number it was
    written from, one more than the greatest id found; so its text differs
    from the text of every id found, however that one is written. *)
Theorem assembly_id_is_fresh (object_ids : list str) :
  Str.int (Str.of_N (max_id object_ids + 1)) = (max_id object_ids + 1)%N
  /\ forall oid,
       In oid object_ids ->
       Str.of_N (max_id object_ids + 1) <> oid
       /\ (Str.int oid < Str.int (Str.of_N (max_id object_ids + 1)))%N.
Proof.
  split; [apply int_of_N|].
  intros oid I. pose proof (max_id_ge object_ids oid I) as G.
  split.
  - intros E. pose proof (int_of_N (max_id object_ids + 1)) as R.
    rewrite E in R. lia.
  - rewrite int_of_N. lia.
Qed.

Lemma assembly_id_is_fresh_witness :
  Str.of_N (max_id [lit "7"; lit "007"; lit "12"] + 1) = lit "13"
  /\ Str.of_N (max_id [lit "7"; lit "007"; lit "12"] + 1) <> lit "007".
Proof.
  split; [vm_compute; reflexivity|].
  apply (proj2 (assembly_id_is_fresh [lit "7"; lit "007"; lit "12"])).
  right. left. reflexivity.
Defined.

(* ================================================================== *)
(** * The tag test of the module *)
(* ================================================================== *)

Lemma split_two (sep : ascii) (x y : str) :
  ~ In sep x -> ~ In sep y -> Str.split sep (x ++ sep :: y) = [x; y].
Proof.
  intros Hx Hy. induction x as [|c x IH]; simpl.
  - rewrite Ascii.eqb_refl, split_without by assumption. reflexivity.
  - destruct (Ascii.eqb c sep) eqn:E.
    + apply Ascii.eqb_eq in E. exfalso. apply Hx. left. exact E.
    + rewrite IH; [reflexivity|]. intros I. apply Hx. right. exact I.
Qed.

(** X18.  On a tag as ElementTree writes it, a local name alone or a
    namespace in braces followed by a local name, the test used throughout
    the module ([name in tag.split('}')]) holds exactly when the local name
    is the name sought, whatever the namespace. *)
Theorem tag_test_by_local_name (name : String.string) (uri local : str) :
  ~ In "}"%char uri -> ~ In "}"%char local -> ~ In "{"%char (lit name) ->
  has_part name (lit "{" ++ uri ++ lit "}" ++ local) = Str.eqb (lit name) local
  /\ has_part name local = Str.eqb (lit name) local.
Proof.
  intros Hu Hl Hn. unfold has_part. split.
  - change (lit "{" ++ uri ++ lit "}" ++ local)
      with (("{"%char :: uri) ++ "}"%char :: local).
    rewrite split_two.
    + cbn [Str.mem existsb]. rewrite orb_false_r.
      destruct (Str.eqb (lit name) ("{"%char :: uri)) eqn:E; [|reflexivity].
      apply eqb_eq in E. exfalso. apply Hn. rewrite E. left. reflexivity.
    + intros [H|H]; [discriminate H | exact (Hu H)].
    + exact Hl.
  - rewrite split_without by exact Hl.
    cbn [Str.mem existsb]. apply orb_false_r.
Qed.

Lemma tag_test_by_local_name_witness :
  has_part "object" (lit "{" ++ MODEL_NAMESPACE ++ lit "}" ++ lit "object")
  = true
  /\ has_part "object" (lit "{" ++ MODEL_NAMESPACE ++ lit "}" ++ lit "mesh")
     = false.
Proof.
  assert (U : ~ In "}"%char MODEL_NAMESPACE).
  { intros H. vm_compute in H.
    repeat (destruct H as [H|H]; [discriminate H|]). exact H. }
  assert (N : ~ In "{"%char (lit "object")).
  { intros H. vm_compute in H.
    repeat (destruct H as [H|H]; [discriminate H|]). exact H. }
  split.
  - rewrite (proj1 (tag_test_by_local_name "object" MODEL_NAMESPACE
                      (lit "object") U
                      ltac:(intros H; vm_compute in H;
                            repeat (destruct H as [H|H]; [discriminate H|]);
                            exact H) N)).
    reflexivity.
  - rewrite (proj1 (tag_test_by_local_name "object" MODEL_NAMESPACE
                      (lit "mesh") U
                      ltac:(intros H; vm_compute in H;
                            repeat (destruct H as [H|H]; [discriminate H|]);
                            exact H) N)).
    reflexivity.
Defined.

(** Outside such tags the test is wider: it also accepts a tag whose
    namespace part reads as the name. *)
Lemma tag_test_is_wider :
  has_part "object" (lit "object}mesh") = true.
Proof. reflexivity. Qed.

(* ================================================================== *)
(** * The colour stage as a whole *)
(* ================================================================== *)

Lemma add_build_materials_attrs (st : ET.store) (root : ET.loc)
  (cmap : sdict str) (l : ET.loc) (k : str) :
  k <> lit "materialid" ->
  ET.get (snd (add_build_materials st root cmap)) l k = ET.get st l k.
Proof.
  intros N. unfold add_build_materials.
  destruct (ET.first_child st (has_part "build")
              (ET.children (ET.cell st root))) as [build|]; [|reflexivity].
  apply (tag_items_spec st cmap (ET.children (ET.cell st build)) [] st
           (same_shapes_refl st) (fun _ _ _ => eq_refl)).
  exact N.
Qed.

(** Creating the colorgroups touches no element in existence. *)
Lemma make_colorgroups_below (color_mode : str) (entries : sdict str) :
  forall elems cmap st,
    ET.next st
    <= ET.next (snd (fold_left (make_colorgroup color_mode) entries
                               (elems, cmap, st)))
    /\ forall l, l < ET.next st ->
                 ET.cell (snd (fold_left (make_colorgroup color_mode) entries
                                         (elems, cmap, st))) l
                 = ET.cell st l.
Proof.
  induction entries as [|[name value] entries IH]; intros elems cmap st.
  - simpl. split; [lia | reflexivity].
  - cbn [fold_left].
    destruct (make_colorgroup_spec color_mode elems cmap st name value)
      as [st1 [E [N [_ [_ C]]]]].
    destruct (IH (elems ++ [ET.next st])
                 (sset cmap name (get_colorgroup_id name color_mode)) st1)
      as [L K].
    unfold sdict, Dict.t in *. rewrite E.
    split; [lia|]. intros l H. rewrite K by lia. apply C. exact H.
Qed.

Lemma place_colorgroups_node (resources : ET.loc) (oi : option nat)
  (gs : list ET.loc) :
  forall st,
    exists cs,
      ET.cell (fold_left (place_colorgroup resources oi) gs st) resources
      = ET.set_children (ET.cell st resources) cs.
Proof.
  induction gs as [|g gs IH]; intros st.
  - exists (ET.children (ET.cell st resources)). simpl.
    destruct (ET.cell st resources). reflexivity.
  - cbn [fold_left]. destruct (IH (place_colorgroup resources oi st g)) as [cs E].
    exists cs. rewrite E, place_colorgroup_resources. reflexivity.
Qed.

(** [insert_colorgroups] changes nothing of the resources element but its
    list of children. *)
Lemma insert_colorgroups_node (st : ET.store) (resources : ET.loc)
  (color_mode : str) :
  resources < ET.next st ->
  exists cs,
    ET.cell (snd (insert_colorgroups st resources color_mode)) resources
    = ET.set_children (ET.cell st resources) cs.
Proof.
  intros R. unfold insert_colorgroups.
  pose proof (proj2 (make_colorgroups_below color_mode
                       (if Str.eqb color_mode (lit "cmyw")
                        then CMYW_COLORS else RYBW_COLORS) [] [] st)) as K.
  unfold sdict, Dict.t in *. revert K.
  match goal with
  | |- context [@fold_left ?A ?B ?g ?a ?b] =>
      destruct (@fold_left A B g a b) as [[elems cmap] st4]
  end.
  cbn [snd]. intros K.
  destruct (place_colorgroups_node resources
              (first_index st4 (has_part "object") 0
                 (ET.children (ET.cell st4 resources)))
              (rev elems) st4) as [cs E].
  exists cs. rewrite E, (K resources R). reflexivity.
Qed.

Section ColourStage.

Variable utf8_encode : str -> bytes.
Variable utf8_decode : bytes -> option str.
Variable ET_fromstring : bytes -> option (ET.store * ET.loc).
Variable ET_tostring : ET.store -> ET.loc -> bytes.

Local Notation colorize :=
  (add_colors_to_xml_string utf8_encode utf8_decode ET_fromstring ET_tostring).

(** What [add_colors_to_xml_string] returns on a document that parses and
    has a resources element. *)
Lemma colorize_document (s mode : str) (st : ET.store) (root : ET.loc)
  (objects : list object_info) (resources : ET.loc) :
  ET_fromstring (utf8_encode s) = Some (st, root) ->
  get_objects_info st root = Returns objects ->
  ET.first_child st (has_part "resources") (ET.children (ET.cell st root))
  = Some resources ->
  colorize s mode
  = decode utf8_decode
      (ET_tostring
         (colour_document st root resources objects
            (final_color_mode objects mode)) root).
Proof.
  intros P O F. unfold add_colors_to_xml_string, fromstring.
  rewrite P. cbn [bind]. rewrite O. cbn [bind]. rewrite F.
  unfold colour_document, final_color_mode.
  destruct (insert_colorgroups st resources _) as [cmap st1].
  destruct (add_triangle_colors st1 objects cmap) as [tstats st2].
  destruct (add_build_materials st2 root cmap) as [bstats st3].
  reflexivity.
Qed.

(** X19.  On a document that parses and has a resources element,
    [add_colors_to_xml_string] serialises a document in which every element
    of the input but resources keeps its tag, text, tail and children;
    resources keeps its tag, text, tail and attributes and its children in
    their order, with four new elements inserted in one place; and no
    attribute of an element of the input other than pid, p1 and materialid
    is added, removed or changed. *)
Theorem colorize_preserves_document (s mode : str) (st : ET.store)
  (root : ET.loc) (objects : list object_info) (resources : ET.loc) :
  ET_fromstring (utf8_encode s) = Some (st, root) ->
  get_objects_info st root = Returns objects ->
  ET.first_child st (has_part "resources") (ET.children (ET.cell st root))
  = Some resources ->
  resources < ET.next st ->
  Forall (fun c => c < ET.next st) (ET.children (ET.cell st resources)) ->
  exists st',
    colorize s mode = decode utf8_decode (ET_tostring st' root)
    /\ (forall l, l < ET.next st -> l <> resources ->
                  same_shape (ET.cell st' l) (ET.cell st l))
    /\ (forall l k, l < ET.next st ->
                    k <> lit "pid" -> k <> lit "p1" -> k <> lit "materialid" ->
                    ET.get st' l k = ET.get st l k)
    /\ ET.tag (ET.cell st' resources) = ET.tag (ET.cell st resources)
    /\ ET.text (ET.cell st' resources) = ET.text (ET.cell st resources)
    /\ ET.tail (ET.cell st' resources) = ET.tail (ET.cell st resources)
    /\ exists before new after,
         ET.children (ET.cell st resources) = before ++ after
         /\ ET.children (ET.cell st' resources) = before ++ new ++ after
         /\ length new = 4
         /\ Forall (fun g => ET.next st <= g) new.
Proof.
  intros P O F R C.
  exists (colour_document st root resources objects
            (final_color_mode objects mode)).
  split; [apply colorize_document; assumption|].
  generalize (final_color_mode objects mode). intros m.
  unfold colour_document.
  pose proof (insert_colorgroups_spec st resources m R C)
    as [_ [_ [Hch [_ [Hattr Hother]]]]].
  destruct (insert_colorgroups_node st resources m R) as [cs Hnode].
  destruct (insert_colorgroups st resources m) as [cmap st1].
  cbn [fst snd] in *.
  assert (S2 : same_shapes st1 (snd (add_triangle_colors st1 objects cmap)))
    by apply (add_triangle_colors_spec st1 cmap objects [] st1
                (same_shapes_refl st1)).
  assert (A2 : forall l k, k <> lit "pid" -> k <> lit "p1" ->
                 ET.get (snd (add_triangle_colors st1 objects cmap)) l k
                 = ET.get st1 l k)
    by apply (add_triangle_colors_spec st1 cmap objects [] st1
                (same_shapes_refl st1)).
  destruct (add_triangle_colors st1 objects cmap) as [tstats st2].
  cbn [fst snd] in *.
  pose proof (add_build_materials_shapes st2 root cmap) as S3.
  pose proof (add_build_materials_attrs st2 root cmap) as A3.
  destruct (add_build_materials st2 root cmap) as [bstats st3].
  cbn [fst snd] in *.
  assert (S : forall l, same_shape (ET.cell st3 l) (ET.cell st1 l)).
  { intros l. destruct (S3 l) as [a [b [c d]]], (S2 l) as [a' [b' [c' d']]].
    repeat split; congruence. }
  split; [|split; [|split; [|split; [|split]]]].
  - intros l L D. rewrite <- (Hother l L D). apply S.
  - intros l k L N1 N2 N3. rewrite A3 by exact N3. rewrite A2 by assumption.
    destruct (Nat.eq_dec l resources) as [->|D].
    + unfold ET.get. rewrite Hattr. reflexivity.
    + unfold ET.get. rewrite (Hother l L D). reflexivity.
  - destruct (S resources) as [T _]. rewrite T, Hnode. reflexivity.
  - destruct (S resources) as [_ [T _]]. rewrite T, Hnode. reflexivity.
  - destruct (S resources) as [_ [_ [T _]]]. rewrite T, Hnode. reflexivity.
  - destruct (S resources) as [_ [_ [_ T]]]. rewrite T, Hch.
    destruct (first_index st (has_part "object") 0
                (ET.children (ET.cell st resources))) as [i|].
    + exists (firstn i (ET.children (ET.cell st resources))),
             [ET.next st; ET.next st + 2; ET.next st + 4; ET.next st + 6],
             (skipn i (ET.children (ET.cell st resources))).
      split; [symmetry; apply firstn_skipn|]. split; [reflexivity|].
      split; [reflexivity|]. repeat constructor; lia.
    + exists (ET.children (ET.cell st resources)),
             [ET.next st + 6; ET.next st + 4; ET.next st + 2; ET.next st], [].
      split; [symmetry; apply app_nil_r|].
      split; [rewrite app_nil_r; reflexivity|].
      split; [reflexivity|]. repeat constructor; lia.
Qed.

End ColourStage.

(* ================================================================== *)
(** * The colour stage on a tree *)
(* ================================================================== *)

Lemma first_child_ext (st st' : ET.store) (p : str -> bool) (cs : list ET.loc) :
  (forall c, In c cs -> ET.tag (ET.cell st' c) = ET.tag (ET.cell st c)) ->
  ET.first_child st' p cs = ET.first_child st p cs.
Proof.
  induction cs as [|c cs IH]; intros H; simpl; [reflexivity|].
  rewrite (H c (or_introl eq_refl)), IH; [reflexivity|].
  intros x I. apply H. right. exact I.
Qed.

Lemma filter_tag_ext (st st' : ET.store) (p : str -> bool) (cs : list ET.loc) :
  (forall c, In c cs -> ET.tag (ET.cell st' c) = ET.tag (ET.cell st c)) ->
  filter (fun l => p (ET.tag (ET.cell st' l))) cs
  = filter (fun l => p (ET.tag (ET.cell st l))) cs.
Proof.
  induction cs as [|c cs IH]; intros H; simpl; [reflexivity|].
  rewrite (H c (or_introl eq_refl)), IH; [reflexivity|].
  intros x I. apply H. right. exact I.
Qed.

(** In a tree, a child of an element in existence other than the root is
    in existence, is not the root, and is not a child of the root. *)
Lemma child_settled (st : ET.store) (root resources parent c : ET.loc) :
  well_formed st root ->
  In resources (ET.children (ET.cell st root)) ->
  parent < ET.next st -> parent <> root ->
  In c (ET.children (ET.cell st parent)) ->
  c < ET.next st /\ c <> root /\ c <> resources.
Proof.
  intros [Rt [Cl [UP NP]]] Ir Lp Np Ic. split; [|split].
  - specialize (Cl parent Lp). rewrite Forall_forall in Cl. exact (Cl c Ic).
  - intros ->. exact (NP parent Ic).
  - intros ->. apply Np. exact (UP resources parent root Ic Ir).
Qed.

(** The triangle elements of an object are the same in two stores that
    agree on the object and on what lies below it. *)
Lemma triangle_elements_below (st st' : ET.store) (root resources obj : ET.loc) :
  well_formed st root ->
  In resources (ET.children (ET.cell st root)) ->
  (forall l, l < ET.next st -> l <> resources -> ET.cell st' l = ET.cell st l) ->
  obj < ET.next st -> obj <> root -> obj <> resources ->
  triangle_elements st' obj = triangle_elements st obj.
Proof.
  intros W Ir A Lo No Ro. unfold triangle_elements.
  rewrite (A obj Lo Ro).
  assert (K : forall p, p < ET.next st -> p <> root ->
                forall c, In c (ET.children (ET.cell st p)) ->
                          ET.cell st' c = ET.cell st c).
  { intros p Lp Np c Ic.
    destruct (child_settled st root resources p c W Ir Lp Np Ic) as [L [_ N]].
    apply A; assumption. }
  rewrite (first_child_ext st st').
  2: { intros c Ic. rewrite (K obj Lo No c Ic). reflexivity. }
  destruct (ET.first_child st (has_part "mesh")
              (ET.children (ET.cell st obj))) as [mesh|] eqn:M; [|reflexivity].
  apply first_child_In in M.
  destruct (child_settled st root resources obj mesh W Ir Lo No M)
    as [Lm [Nm Rm]].
  rewrite (A mesh Lm Rm).
  rewrite (first_child_ext st st').
  2: { intros c Ic. rewrite (K mesh Lm Nm c Ic). reflexivity. }
  destruct (ET.first_child st (has_part "triangles")
              (ET.children (ET.cell st mesh))) as [tr|] eqn:T; [|reflexivity].
  apply first_child_In in T.
  destruct (child_settled st root resources mesh tr W Ir Lm Nm T)
    as [Lt [Nt Rt]].
  rewrite (A tr Lt Rt).
  apply filter_tag_ext.
  intros c Ic. rewrite (K tr Lt Nt c Ic). reflexivity.
Qed.

Lemma sget_map_keys (V : Type) (f : str -> V) (d : sdict str) (k : str) :
  In k (Dict.keys d) ->
  sget (map (fun e => (fst e, f (fst e))) d) k = Some (f k).
Proof.
  induction d as [|[k' v'] d IH]; intros I; [destruct I|].
  cbn [map fst]. rewrite sget_cons.
  destruct (Str.eqb k k') eqn:E.
  - apply eqb_eq in E. subst k'. reflexivity.
  - apply IH. destruct I as [I|I]; [|exact I].
    cbn [fst] in I. apply eqb_neq in E. congruence.
Qed.

(** The objects of the catalogue are children of the resources element
    that [get_objects_info] located. *)
Lemma catalogue_objects (st : ET.store) (root : ET.loc)
  (objects : list object_info) :
  get_objects_info st root = Returns objects ->
  catalogue st root = objects
  /\ exists r0,
       locate_resources st root = Some r0
       /\ forall o, In o objects ->
                    In (obj_element o) (ET.children (ET.cell st r0)).
Proof.
  intros O. split; [unfold catalogue; rewrite O; reflexivity|].
  unfold get_objects_info in O.
  destruct (locate_resources st root) as [r0|]; [|discriminate O].
  exists r0. split; [reflexivity|]. injection O as <-.
  intros o I. apply in_map_iff in I. destruct I as [x [<- I]].
  apply filter_In in I. exact (proj1 I).
Qed.

Lemma add_build_materials_tags (st : ET.store) (root : ET.loc)
  (cmap : sdict str) (item : ET.loc) (id : str) :
  In item (build_items st root) ->
  sget cmap (partnumber_of st item) = Some id ->
  ET.get (snd (add_build_materials st root cmap)) item (lit "materialid")
  = Some id.
Proof.
  intros I G. apply build_items_In in I. destruct I as [build [B [Ic T]]].
  unfold add_build_materials. rewrite B.
  apply (tag_items_spec st cmap (ET.children (ET.cell st build)) [] st
           (same_shapes_refl st) (fun _ _ _ => eq_refl)); assumption.
Qed.

Lemma build_items_shapes (st st' : ET.store) (root : ET.loc) :
  same_shapes st st' -> build_items st' root = build_items st root.
Proof.
  intros S. unfold build_items.
  destruct (S root) as [_ [_ [_ C]]]. rewrite C.
  rewrite (first_child_shapes st st' _ _ S).
  destruct (ET.first_child st (has_part "build")
              (ET.children (ET.cell st root))) as [build|]; [|reflexivity].
  destruct (S build) as [_ [_ [_ Cb]]]. rewrite Cb.
  apply (filter_tag_shapes st st' _ _ S).
Qed.

(** On a tree, inserting the colorgroups changes neither the triangle
    elements of an object below resources nor the items of the build
    element. *)
Lemma build_items_after_insert (st : ET.store) (root resources : ET.loc)
  (color_mode : str) :
  well_formed st root ->
  In resources (ET.children (ET.cell st root)) ->
  build_items (snd (insert_colorgroups st resources color_mode)) root
  = build_items st root.
Proof.
  intros W Ir. pose proof W as [Rt [Cl [UP NP]]].
  assert (R : resources < ET.next st).
  { specialize (Cl root Rt). rewrite Forall_forall in Cl. exact (Cl _ Ir). }
  assert (Nr : resources <> root) by (intros ->; exact (NP root Ir)).
  destruct (insert_colorgroups_spec st resources color_mode R (Cl resources R))
    as [_ [Hcells [Hch [Htag [_ Hother]]]]].
  set (st1 := snd (insert_colorgroups st resources color_mode)) in *.
  assert (T : forall p, p < ET.next st ->
                forall c, In c (ET.children (ET.cell st p)) ->
                          ET.tag (ET.cell st1 c) = ET.tag (ET.cell st c)).
  { intros p Lp c Ic. destruct (Nat.eq_dec c resources) as [->|D].
    - exact Htag.
    - rewrite Hother; [reflexivity | | exact D].
      specialize (Cl p Lp). rewrite Forall_forall in Cl. exact (Cl c Ic). }
  unfold build_items.
  rewrite (Hother root Rt (not_eq_sym Nr)).
  rewrite (first_child_ext st st1 _ _ (T root Rt)).
  destruct (ET.first_child st (has_part "build")
              (ET.children (ET.cell st root))) as [build|] eqn:B;
    [|reflexivity].
  apply first_child_In in B.
  assert (Lb : build < ET.next st).
  { specialize (Cl root Rt). rewrite Forall_forall in Cl. exact (Cl _ B). }
  destruct (Nat.eq_dec build resources) as [->|D].
  - assert (New : forall k, k < 4 ->
                    has_part "item"
                      (ET.tag (ET.cell st1 (ET.next st + 2 * k))) = false).
    { intros k Lk.
      assert (E : exists e, nth_error (palette color_mode) k = Some e).
      { unfold palette. destruct (Str.eqb color_mode (lit "cmyw"));
          destruct k as [|[|[|[|k]]]]; try lia; eexists; reflexivity. }
      destruct E as [e E]. rewrite (proj1 (Hcells k e E)). reflexivity. }
    pose proof (New 0 ltac:(lia)) as N0. pose proof (New 1 ltac:(lia)) as N1.
    pose proof (New 2 ltac:(lia)) as N2. pose proof (New 3 ltac:(lia)) as N3.
    rewrite Nat.mul_0_r, Nat.add_0_r in N0.
    change (2 * 1) with 2 in N1. change (2 * 2) with 4 in N2.
    change (2 * 3) with 6 in N3.
    rewrite Hch.
    destruct (first_index st (has_part "object") 0
                (ET.children (ET.cell st resources))) as [i|].
    + rewrite !filter_app. cbn [filter]. rewrite N0, N1, N2, N3. cbn [app].
      rewrite <- filter_app.
      rewrite (filter_tag_ext st st1).
      * rewrite firstn_skipn. reflexivity.
      * intros c Ic. apply (T resources R). rewrite firstn_skipn in Ic.
        exact Ic.
    + rewrite filter_app. cbn [filter]. rewrite N0, N1, N2, N3.
      rewrite app_nil_r. apply filter_tag_ext. exact (T resources R).
  - rewrite (Hother build Lb D). apply filter_tag_ext. exact (T build Lb).
Qed.

Section ColourStageTags.

Variable utf8_encode : str -> bytes.
Variable utf8_decode : bytes -> option str.
Variable ET_fromstring : bytes -> option (ET.store * ET.loc).
Variable ET_tostring : ET.store -> ET.loc -> bytes.

Local Notation colorize :=
  (add_colors_to_xml_string utf8_encode utf8_decode ET_fromstring ET_tostring).

(** X20.  On a document that parses into a tree with a resources element,
    [add_colors_to_xml_string] serialises a document in which every
    triangle of every catalogued object that is not an assembly and whose
    name is a name of the palette in use carries the pid of that name and
    the p1 0, and every item of the build element whose part number is a
    name of the palette carries the materialid of that name. *)
Theorem colorize_tags_palette_parts (s mode : str) (st : ET.store)
  (root : ET.loc) (objects : list object_info) (resources : ET.loc) :
  ET_fromstring (utf8_encode s) = Some (st, root) ->
  get_objects_info st root = Returns objects ->
  ET.first_child st (has_part "resources") (ET.children (ET.cell st root))
  = Some resources ->
  well_formed st root ->
  exists st',
    colorize s mode = decode utf8_decode (ET_tostring st' root)
    /\ (forall o t,
           In o objects -> obj_is_assembly o = false ->
           In (obj_name o)
              (Dict.keys (palette (final_color_mode objects mode))) ->
           In t (triangle_elements st (obj_element o)) ->
           ET.get st' t (lit "pid")
           = Some (get_colorgroup_id (obj_name o)
                     (final_color_mode objects mode))
           /\ ET.get st' t (lit "p1") = Some (lit "0"))
    /\ (forall item,
           In item (build_items st root) ->
           In (partnumber_of st item)
              (Dict.keys (palette (final_color_mode objects mode))) ->
           ET.get st' item (lit "materialid")
           = Some (get_colorgroup_id (partnumber_of st item)
                     (final_color_mode objects mode))).
Proof.
  intros P O F W.
  exists (colour_document st root resources objects
            (final_color_mode objects mode)).
  split; [apply colorize_document; assumption|].
  generalize (final_color_mode objects mode). intros m.
  pose proof W as [Rt [Cl [UP NP]]].
  apply first_child_In in F.
  assert (R : resources < ET.next st).
  { specialize (Cl root Rt). rewrite Forall_forall in Cl. exact (Cl _ F). }
  destruct (catalogue_objects st root objects O) as [Cat [r0 [L0 Ob]]].
  destruct (locate_resources_child st root r0 L0) as [I0 _].
  assert (L0' : r0 < ET.next st).
  { specialize (Cl root Rt). rewrite Forall_forall in Cl. exact (Cl _ I0). }
  assert (N0 : r0 <> root) by (intros ->; exact (NP root I0)).
  destruct (insert_colorgroups_spec st resources m R (Cl resources R))
    as [_ [_ [_ [_ [_ Hother]]]]].
  pose proof (insert_colorgroups_map st resources m) as Hmap.
  pose proof (build_items_after_insert st root resources m W F) as Hbuild.
  unfold colour_document.
  destruct (insert_colorgroups st resources m) as [cmap st1].
  cbn [fst snd] in *.
  assert (TE : forall o, In o objects ->
                 triangle_elements st1 (obj_element o)
                 = triangle_elements st (obj_element o)).
  { intros o Io.
    destruct (child_settled st root resources r0 (obj_element o) W F L0' N0
                (Ob o Io)) as [Lo [No Ro]].
    apply (triangle_elements_below st st1 root resources); assumption. }
  assert (S2 : same_shapes st1 (snd (add_triangle_colors st1 objects cmap)))
    by apply (add_triangle_colors_spec st1 cmap objects [] st1
                (same_shapes_refl st1)).
  assert (A2 : forall l k, k <> lit "pid" -> k <> lit "p1" ->
                 ET.get (snd (add_triangle_colors st1 objects cmap)) l k
                 = ET.get st1 l k)
    by apply (add_triangle_colors_spec st1 cmap objects [] st1
                (same_shapes_refl st1)).
  assert (T2 : forall o id t,
             In o objects -> mapped_id cmap o = Some id ->
             In t (triangle_elements st (obj_element o)) ->
             ET.get (snd (add_triangle_colors st1 objects cmap)) t (lit "pid")
             = Some id
             /\ ET.get (snd (add_triangle_colors st1 objects cmap)) t (lit "p1")
                = Some (lit "0")).
  { intros o id t Io Mo It.
    apply (proj2 (proj2 (proj2
             (add_triangle_colors_spec st1 cmap objects [] st1
                (same_shapes_refl st1)))) o id t Io Mo).
    - rewrite TE by exact Io. exact It.
    - intros o' id' Io' Mo' It'. rewrite TE in It' by exact Io'.
      assert (E : o' = o).
      { apply (catalogue_consistent st st root o o' t UP); try assumption;
          rewrite Cat; assumption. }
      subst o'. congruence. }
  destruct (add_triangle_colors st1 objects cmap) as [tstats st2].
  cbn [fst snd] in *.
  pose proof (add_build_materials_attrs st2 root cmap) as A3.
  pose proof (add_build_materials_tags st2 root cmap) as T3.
  destruct (add_build_materials st2 root cmap) as [bstats st3].
  cbn [fst snd] in *.
  split.
  - intros o t Io Ao Ko It.
    rewrite !A3 by discriminate.
    apply (T2 o _ t Io); [|exact It].
    unfold mapped_id. rewrite Ao, Hmap.
    apply (sget_map_keys str (fun n => get_colorgroup_id n m)). exact Ko.
  - intros item Ii Ki.
    assert (Pn : partnumber_of st2 item = partnumber_of st item).
    { unfold partnumber_of, ET.get_default.
      rewrite A2 by discriminate.
      apply build_items_In in Ii. destruct Ii as [build [B [Ic _]]].
      apply first_child_In in B.
      assert (Lb : build < ET.next st).
      { specialize (Cl root Rt). rewrite Forall_forall in Cl. exact (Cl _ B). }
      assert (Nb : build <> root) by (intros ->; exact (NP root B)).
      destruct (child_settled st root resources build item W F Lb Nb Ic)
        as [Li [_ Ri]].
      unfold ET.get. rewrite (Hother item Li Ri). reflexivity. }
    apply T3.
    + rewrite (build_items_shapes st1 st2 root S2), Hbuild. exact Ii.
    + rewrite Pn, Hmap.
      apply (sget_map_keys str (fun n => get_colorgroup_id n m)). exact Ki.
Qed.

End ColourStageTags.

Lemma parsed_colours :
  MiniXML.fromstring (Utf8.encode doc_colours) = Some (st_colours, root_colours).
Proof.
  unfold st_colours, root_colours, parsed.
  destruct (MiniXML.fromstring (Utf8.encode doc_colours)) as [[st r]|] eqn:P;
    [reflexivity|].
  exfalso. vm_compute in P. discriminate P.
Qed.

Lemma catalogue_colours :
  get_objects_info st_colours root_colours = Returns objects_colours.
Proof.
  unfold objects_colours, catalogue.
  destruct (get_objects_info st_colours root_colours) as [objects|e] eqn:O;
    [reflexivity|].
  exfalso. vm_compute in O. discriminate O.
Qed.

Lemma resources_colours :
  ET.first_child st_colours (has_part "resources")
    (ET.children (ET.cell st_colours root_colours)) = Some 1.
Proof. vm_compute. reflexivity. Qed.

Lemma well_formed_colours : well_formed st_colours root_colours.
Proof.
  assert (N : ET.next st_colours = 14) by (vm_compute; reflexivity).
  split; [|split; [|split]].
  - rewrite N. vm_compute. lia.
  - intros l L. rewrite N in *. rewrite children_colours.
    do 14 (destruct l as [|l];
           [cbn [nth]; repeat (apply Forall_cons; [lia|]); apply Forall_nil|]).
    lia.
  - exact unique_parent_colours.
  - intros l. change root_colours with 0. rewrite children_colours.
    do 12 (destruct l as [|l];
           [cbn [nth]; intros H;
            repeat (destruct H as [H|H]; [discriminate H|]); exact H|]).
    destruct l; cbn [nth]; intros H; exact H.
Qed.

Lemma colorize_preserves_document_witness :
  exists st',
    add_colors_to_xml_string Utf8.encode Utf8.decode
      MiniXML.fromstring MiniXML.tostring doc_colours (lit "auto")
    = decode Utf8.decode (MiniXML.tostring st' root_colours)
    /\ same_shape (ET.cell st' 5) (ET.cell st_colours 5).
Proof.
  destruct well_formed_colours as [_ [Cl _]].
  assert (R : 1 < ET.next st_colours) by (vm_compute; lia).
  destruct (colorize_preserves_document Utf8.encode Utf8.decode
              MiniXML.fromstring MiniXML.tostring
              doc_colours (lit "auto") st_colours root_colours
              objects_colours 1
              parsed_colours catalogue_colours resources_colours R (Cl 1 R))
    as [st' [E [S _]]].
  exists st'. split; [exact E|].
  apply S; [vm_compute; lia | discriminate].
Defined.

Lemma colorize_tags_palette_parts_witness :
  exists st',
    add_colors_to_xml_string Utf8.encode Utf8.decode
      MiniXML.fromstring MiniXML.tostring doc_colours (lit "auto")
    = decode Utf8.decode (MiniXML.tostring st' root_colours)
    /\ ET.get st' 5 (lit "pid") = Some (lit "1")
    /\ ET.get st' 12 (lit "materialid") = Some (lit "4").
Proof.
  destruct (colorize_tags_palette_parts Utf8.encode Utf8.decode
              MiniXML.fromstring MiniXML.tostring
              doc_colours (lit "auto") st_colours root_colours
              objects_colours 1
              parsed_colours catalogue_colours resources_colours
              well_formed_colours)
    as [st' [E [T I]]].
  exists st'. split; [exact E|]. split.
  - destruct (T (object_entry st_colours 2) 5) as [Hp _].
    + vm_compute. left. reflexivity.
    + vm_compute. reflexivity.
    + vm_compute. left. reflexivity.
    + vm_compute. left. reflexivity.
    + rewrite Hp. vm_compute. reflexivity.
  - rewrite (I 12).
    + vm_compute. reflexivity.
    + vm_compute. left. reflexivity.
    + vm_compute. right. right. right. left. reflexivity.
Defined.

(* ================================================================== *)
(** * The build rewrite, run again *)
(* ================================================================== *)

Lemma of_uint_digits (d : Decimal.uint) :
  Forall (fun c => Str.is_digit c = true) (Str.of_uint d).
Proof.
  induction d; cbn [Str.of_uint];
    [constructor | constructor; [reflexivity | assumption] ..].
Qed.

Lemma find_here (sub s : str) :
  Str.startswith sub s = true -> Str.find sub s = Some 0.
Proof. intros H. destruct s; cbn [Str.find]; rewrite H; reflexivity. Qed.

Lemma find_next (sub : str) (c : ascii) (s : str) :
  Str.startswith sub (c :: s) = false ->
  Str.find sub (c :: s) = option_map S (Str.find sub s).
Proof. intros H. cbn [Str.find]. rewrite H. reflexivity. Qed.

(** A search passes over characters that differ from the first character
    sought. *)
Lemma find_past (sub' : str) (c0 : ascii) (ds r : str) :
  Forall (fun c => Ascii.eqb c0 c = false) ds ->
  Str.find (c0 :: sub') (ds ++ r)
  = option_map (fun k => length ds + k) (Str.find (c0 :: sub') r).
Proof.
  intros F. induction F as [|d ds D F IH]; cbn [app length].
  - destruct (Str.find _ r); reflexivity.
  - rewrite find_next by (cbn [Str.startswith]; rewrite D; reflexivity).
    rewrite IH. destruct (Str.find _ r); reflexivity.
Qed.

Lemma new_build_length (a : N) :
  length (new_build a) = 43 + length (Str.of_N a).
Proof.
  unfold new_build. rewrite !length_app.
  cbn [length lit String.list_ascii_of_string]. lia.
Qed.

(** The first closing tag after the opening of the new build section is its
    own. *)
Lemma closing_of_new_build (a : N) (rest : str) :
  Str.find (lit "</build>") (skipn 7 (new_build a ++ rest))
  = Some (length (new_build a) - 15).
Proof.
  rewrite new_build_length. unfold new_build. rewrite <- !app_assoc.
  cbn [lit String.list_ascii_of_string app skipn].
  repeat (rewrite find_next by reflexivity).
  rewrite find_past.
  - repeat (rewrite find_next by reflexivity).
    rewrite find_here by reflexivity.
    cbn [option_map]. f_equal. lia.
  - unfold Str.of_N. eapply Forall_impl; [|apply of_uint_digits].
    intros c H. destruct (Ascii.eqb "<" c) eqn:E; [|reflexivity].
    apply Ascii.eqb_eq in E. subst c. vm_compute in H. discriminate H.
Qed.

Lemma skipn_length_app (A : Type) (l r : list A) :
  skipn (length l) (l ++ r) = r.
Proof. induction l; simpl; [reflexivity | assumption]. Qed.

Lemma occurs_at_firstn (sub s : str) (q : nat) :
  occurs_at sub s q
  <-> q <= length s /\ firstn (length sub) (skipn q s) = sub.
Proof.
  split.
  - intros [a [b [-> <-]]]. split; [rewrite length_app; lia|].
    rewrite skipn_length_app. apply firstn_length_app.
  - intros [L E]. exists (firstn q s), (skipn (length sub) (skipn q s)). split.
    + transitivity (firstn q s ++ skipn q s); [symmetry; apply firstn_skipn|].
      f_equal.
      rewrite <- (firstn_skipn (length sub) (skipn q s)) at 1.
      f_equal. exact E.
    + rewrite length_firstn. lia.
Qed.

(** An occurrence that starts before an occurrence of the same text does not
    depend on what follows the latter. *)
Lemma occurs_at_before (sub x t1 t2 : str) (q : nat) :
  q < length x ->
  occurs_at sub (x ++ sub ++ t1) q -> occurs_at sub (x ++ sub ++ t2) q.
Proof.
  intros Q H.
  assert (I : forall t,
             firstn (length sub) (skipn q (x ++ sub ++ t))
             = firstn (length sub) (skipn q x)
                 ++ firstn (length sub - (length x - q)) sub).
  { intros t. rewrite skipn_app. replace (q - length x) with 0 by lia.
    cbn [skipn]. rewrite firstn_app, length_skipn. f_equal.
    rewrite firstn_app.
    replace (length sub - (length x - q) - length sub) with 0 by lia.
    cbn [firstn]. apply app_nil_r. }
  apply occurs_at_firstn in H. apply occurs_at_firstn.
  destruct H as [_ H]. split; [rewrite length_app; lia|].
  rewrite I in *. exact H.
Qed.

Lemma occurs_at_skipn (sub s : str) (p m : nat) :
  occurs_at sub s p -> m <= p -> occurs_at sub (skipn m s) (p - m).
Proof.
  intros [a [b [-> <-]]] M. exists (skipn m a), b. split.
  - rewrite skipn_app. replace (m - length a) with 0 by lia. reflexivity.
  - rewrite length_skipn. reflexivity.
Qed.

(** After the rewrite the pattern finds the new build section, at the offset
    of the one it replaced. *)
Lemma rewritten_build_found (a : N) (content : str) (b e : nat) :
  Re.search_build 0 content = Some (b, e) ->
  length (firstn b content) = b
  /\ Re.search_build 0 (firstn b content ++ new_build a ++ skipn e content)
     = Some (b, b + length (new_build a)).
Proof.
  intros S. pose proof (search_build_spec content) as C. rewrite S in C.
  destruct C as [[O [k [K E]]] Min].
  destruct O as [x [y [C L]]].
  assert (X : firstn b content = x).
  { rewrite C, <- L. apply firstn_length_app. }
  rewrite X. split; [exact L|].
  set (rest := skipn e content).
  set (new := x ++ new_build a ++ rest).
  assert (N0 : new = x ++ lit "<build>" ++ skipn 7 (new_build a ++ rest))
    by reflexivity.
  assert (B7 : b + 7 = length (x ++ lit "<build>"))
    by (rewrite length_app, L; reflexivity).
  assert (Cl : Str.find (lit "</build>") (skipn (b + 7) new)
               = Some (length (new_build a) - 15)).
  { rewrite N0, B7, app_assoc, skipn_length_app.
    apply closing_of_new_build. }
  pose proof (new_build_length a) as Len.
  assert (B1 : build_section new b (b + length (new_build a))).
  { split.
    - exists x, (skipn 7 (new_build a ++ rest)). split; [exact N0 | exact L].
    - exists (length (new_build a) - 15).
      split; [apply find_Some; exact Cl | lia]. }
  pose proof (search_build_spec new) as R.
  destruct (Re.search_build 0 new) as [[b2 e2]|] eqn:S2;
    [|exfalso; exact (R _ _ B1)].
  destruct R as [[O2 [k2 [K2 E2]]] Min2].
  assert (b2 = b).
  { pose proof (Min2 _ _ B1) as U.
    destruct (Nat.eq_dec b2 b) as [|NE]; [assumption|]. exfalso.
    assert (Q : b2 < length x) by lia.
    rewrite N0 in O2. apply (occurs_at_before _ _ _ y _ Q) in O2.
    rewrite <- C in O2.
    destruct K as [[a1 [b1 [Ey La]]] _].
    assert (Y : skipn (b + 7) content = y).
    { rewrite C at 1. rewrite B7, app_assoc. apply skipn_length_app. }
    rewrite Y in Ey.
    assert (Oc : occurs_at (lit "</build>") content (b + 7 + k)).
    { exists (x ++ lit "<build>" ++ a1), b1. split.
      - rewrite C at 1. rewrite Ey, <- !app_assoc. reflexivity.
      - rewrite !length_app, L, La.
        change (length (lit "<build>")) with 7. lia. }
    apply (occurs_at_skipn _ _ _ (b2 + 7)) in Oc; [|lia].
    destruct (Str.find (lit "</build>") (skipn (b2 + 7) content)) as [k3|]
      eqn:F3.
    - assert (B3 : build_section content b2 (b2 + 7 + k3 + 8)).
      { split; [exact O2|]. exists k3.
        split; [apply find_Some; exact F3 | reflexivity]. }
      apply Min in B3. lia.
    - exact (find_None _ _ _ F3 Oc). }
  subst b2. f_equal. f_equal.
  apply find_Some in K2. rewrite Cl in K2.
  assert (k2 = length (new_build a) - 15) by congruence. lia.
Qed.

(** X21.  A build section written by the rewrite is the one the pattern
    finds afterwards, at the offset of the section it replaced; so rewriting
    the build section again replaces exactly what the first rewrite wrote:
    the last assembly id wins, and the rewrite with the same id changes
    nothing the second time. *)
Theorem build_rewrite_is_stable (first_id second_id : N) (content : str) :
  (forall b e,
     Re.search_build 0 content = Some (b, e) ->
     Re.search_build 0 (rewrite_build first_id content)
     = Some (b, b + length (new_build first_id)))
  /\ rewrite_build second_id (rewrite_build first_id content)
     = rewrite_build second_id content
  /\ rewrite_build first_id (rewrite_build first_id content)
     = rewrite_build first_id content.
Proof.
  assert (G : forall a1 a2,
             rewrite_build a2 (rewrite_build a1 content)
             = rewrite_build a2 content).
  { intros a1 a2. unfold rewrite_build.
    destruct (Re.search_build 0 content) as [[b e]|] eqn:S.
    - destruct (rewritten_build_found a1 content b e S) as [L F].
      rewrite F.
      set (x := firstn b content) in *. set (rest := skipn e content).
      f_equal; [rewrite <- L at 1; apply firstn_length_app|]. f_equal.
      rewrite <- L at 1. rewrite <- length_app, app_assoc.
      apply skipn_length_app.
    - rewrite S. reflexivity. }
  split; [|split; apply G].
  intros b e S. unfold rewrite_build. rewrite S.
  apply (rewritten_build_found first_id content b e S).
Qed.

(* ================================================================== *)
(** * The model entry: selection and processing *)
(* ================================================================== *)



Section ModelEntry.

Variable utf8_encode : str -> bytes.
Variable utf8_decode : bytes -> option str.
Variable ET_fromstring : bytes -> option (ET.store * ET.loc).
Variable ET_tostring : ET.store -> ET.loc -> bytes.

Local Notation fix_names :=
  (safe_fix_3mf_names utf8_encode utf8_decode ET_fromstring ET_tostring).
Local Notation colorize :=
  (add_colors_to_xml_string utf8_encode utf8_decode ET_fromstring ET_tostring).


End ModelEntry.


(* ================================================================== *)
(** * The textual pass on other ways of writing a tag *)
(* ================================================================== *)

(** C3.  A well-formed model with two objects whose closing resources tag
    is written with a space before the bracket.  The literal closing tag is
    not found, so no assembly object is inserted; the build section is
    rewritten all the same and its only item references the id 3, which no
    object of the document has.  On the same model with the closing tag
    written without the space, the object 3 named Lumina_Model, with one
    component per object, is inserted before the closing tag. *)
Theorem build_references_missing_assembly :
  ((exists t, MiniXML.parse (doc_two_objects "</resources >")
              = MiniXML.Parsed t)
   /\ map entry_id (scan_objects (doc_two_objects "</resources >"))
      = [lit "1"; lit "2"]
   /\ fix_text (doc_two_objects "</resources >") [] true
      = lit "<model><resources><object id=" ++ quoted "1"
          ++ lit "></object><object id=" ++ quoted "2"
          ++ lit "></object></resources ><build>" ++ [nl]
          ++ lit "    <item objectid=" ++ quoted "3" ++ lit " />" ++ [nl]
          ++ lit "  </build></model>"
   /\ (exists objects,
          get_objects_info
            (fst (parsed (fix_text (doc_two_objects "</resources >") [] true)))
            (snd (parsed (fix_text (doc_two_objects "</resources >") [] true)))
          = Returns objects
          /\ map obj_id objects = [Some (lit "1"); Some (lit "2")])
   /\ map (fun item =>
             ET.get
               (fst (parsed (fix_text (doc_two_objects "</resources >") []
                                      true)))
               item (lit "objectid"))
          (build_items
             (fst (parsed (fix_text (doc_two_objects "</resources >") [] true)))
             (snd (parsed (fix_text (doc_two_objects "</resources >") [] true))))
      = [Some (lit "3")])
  /\ fix_text (doc_two_objects "</resources>") [] true
     = lit "<model><resources><object id=" ++ quoted "1"
         ++ lit "></object><object id=" ++ quoted "2" ++ lit "></object>"
         ++ [nl] ++ lit "  <object id=" ++ quoted "3" ++ lit " type="
         ++ quoted "model" ++ lit " name=" ++ quoted "Lumina_Model"
         ++ lit ">" ++ [nl]
         ++ lit "    <components>" ++ [nl]
         ++ lit "      <component objectid=" ++ quoted "1" ++ lit " />" ++ [nl]
         ++ lit "      <component objectid=" ++ quoted "2" ++ lit " />" ++ [nl]
         ++ lit "    </components>" ++ [nl]
         ++ lit "  </object>" ++ [nl]
         ++ lit "</resources><build>" ++ [nl]
         ++ lit "    <item objectid=" ++ quoted "3" ++ lit " />" ++ [nl]
         ++ lit "  </build></model>".
Proof.
  repeat split; try (vm_compute; reflexivity);
    eexists; vm_compute; (reflexivity || (split; reflexivity)).
Qed.

(** C5.  Two well-formed models whose object already has a name, written
    with single quotes in the first and with spaces around the equals sign
    in the second.  The pattern that removes the old name does not match
    either, so the old name attribute is kept and the new one added: the
    tag holds two name attributes and the text is no longer well-formed.
    When the old name is written with double quotes and no space it is
    removed. *)
Theorem old_name_attribute_is_kept :
  ((exists t, MiniXML.parse (doc_named_object (lit "name='old'"))
              = MiniXML.Parsed t)
   /\ fix_text (doc_named_object (lit "name='old'")) [lit "Red"] false
      = lit "<model><resources><object id=" ++ quoted "1"
          ++ lit " name='old' name=" ++ quoted "Red"
          ++ lit "></object></resources></model>"
   /\ MiniXML.parse
        (fix_text (doc_named_object (lit "name='old'")) [lit "Red"] false)
      = MiniXML.Malformed
   /\ add_colors_to_xml_string Utf8.encode Utf8.decode
        MiniXML.fromstring MiniXML.tostring
        (fix_text (doc_named_object (lit "name='old'")) [lit "Red"] false)
        (lit "rybw")
      = Raises ParseError)
  /\ ((exists t, MiniXML.parse
                   (doc_named_object (lit "name = " ++ quoted "old"))
                 = MiniXML.Parsed t)
      /\ fix_text (doc_named_object (lit "name = " ++ quoted "old"))
                  [lit "Red"] false
         = lit "<model><resources><object id=" ++ quoted "1"
             ++ lit " name = " ++ quoted "old" ++ lit " name=" ++ quoted "Red"
             ++ lit "></object></resources></model>"
      /\ MiniXML.parse
           (fix_text (doc_named_object (lit "name = " ++ quoted "old"))
                     [lit "Red"] false)
         = MiniXML.Malformed)
  /\ fix_text (doc_named_object (lit "name=" ++ quoted "old"))
              [lit "Red"] false
     = lit "<model><resources><object id=" ++ quoted "1"
         ++ lit " name=" ++ quoted "Red"
         ++ lit "></object></resources></model>".
Proof.
  repeat split; try (vm_compute; reflexivity);
    eexists; vm_compute; reflexivity.
Qed.

(* ================================================================== *)
(** * The textual pass: what the scan records and how tags are renamed *)
(* ================================================================== *)

(** Every match of the object pattern is listed by [finditer], unless it
    starts inside a match listed before. *)
Lemma finditer_object_complete (content : str) (s : str) :
  forall skip pos,
    s = skipn pos content ->
    forall p len attrs,
      pos + skip <= p ->
      Re.object_here (skipn p content) = Some (len, attrs) ->
      In (p, p + len, firstn len (skipn p content), attrs)
         (Re.finditer_object skip pos s)
      \/ exists m, In m (Re.finditer_object skip pos s)
                   /\ entry_start m < p < entry_end m.
Proof.
  induction s as [|c tl IH]; intros skip pos E p len attrs Hp M.
  - exfalso.
    assert (L : length content <= p).
    { pose proof (length_skipn pos content) as K. rewrite <- E in K.
      simpl in K. lia. }
    rewrite skipn_all2 in M by exact L. discriminate M.
  - symmetry in E. destruct (skipn_cons_inv _ _ _ _ _ E) as [E' L].
    symmetry in E'. cbn [Re.finditer_object].
    destruct skip as [|k].
    + destruct (Re.object_here (c :: tl)) as [[len0 attrs0]|] eqn:M0.
      * pose proof (object_here_length _ _ _ M0) as B.
        destruct (Nat.eq_dec p pos) as [->|NE].
        -- left. left. rewrite E in M. rewrite M0 in M.
           injection M as <- <-. rewrite E. reflexivity.
        -- destruct (Nat.lt_ge_cases p (pos + len0)) as [I|I].
           ++ right. exists (pos, pos + len0, firstn len0 (c :: tl), attrs0).
              split; [left; reflexivity|].
              unfold entry_start, entry_end. simpl. lia.
           ++ destruct (IH (len0 - 1) (S pos) E' p len attrs) as [H|[m [H1 H2]]];
                [lia | exact M | left; right; exact H |].
              right. exists m. split; [right; exact H1 | exact H2].
      * assert (NE : p <> pos) by (intros ->; rewrite E in M; congruence).
        destruct (IH 0 (S pos) E' p len attrs) as [H|[m [H1 H2]]];
          [lia | exact M | left; exact H |].
        right. exists m. split; assumption.
    + destruct (IH k (S pos) E' p len attrs) as [H|[m [H1 H2]]];
        [lia | exact M | left; exact H |].
      right. exists m. split; assumption.
Qed.

Lemma keep_with_id_In (ms : list (nat * nat * str * str))
  (p e : nat) (tag attrs oid : str) :
  In (p, e, tag, attrs) ms -> Re.search_id false attrs = Some oid ->
  In (p, e, tag, oid) (keep_with_id ms).
Proof.
  intros I S. induction ms as [|[[[s0 e0] t0] a0] ms IH]; [destruct I|].
  cbn [keep_with_id]. destruct I as [I|I].
  - injection I as -> -> -> ->. rewrite S. left. reflexivity.
  - destruct (Re.search_id false a0); [right|]; apply IH; exact I.
Qed.

(** The scan records every object start-tag with a numeric id, unless it
    starts inside another match of the object pattern. *)
Lemma scan_objects_complete (content : str) (p len : nat) (attrs oid : str) :
  Re.object_here (skipn p content) = Some (len, attrs) ->
  Re.search_id false attrs = Some oid ->
  In (p, p + len, firstn len (skipn p content), oid) (scan_objects content)
  \/ exists q len' attrs',
       q < p < q + len'
       /\ Re.object_here (skipn q content) = Some (len', attrs').
Proof.
  intros M S.
  destruct (finditer_object_complete content content 0 0 eq_refl p len attrs
              (Nat.le_0_l _) M) as [H|[m [H1 H2]]].
  - left. unfold scan_objects. apply keep_with_id_In with attrs; assumption.
  - right.
    destruct (finditer_object_placed content content 0 0 eq_refl) as [_ F].
    rewrite Forall_forall in F. specialize (F m H1).
    exists (entry_start m), (entry_end m - entry_start m), (entry_id m).
    split; [lia | exact F].
Qed.

(** The substitution leaves a text without a match of the name pattern as
    it is. *)
Lemma sub_name_nothing (t : str) :
  (forall q, Re.name_here (skipn q t) = None) -> Re.sub_name 0 t = t.
Proof.
  induction t as [|c t IH]; intros H; [reflexivity|].
  rewrite sub_name_equations. rewrite (H 0 : Re.name_here (c :: t) = None).
  f_equal. apply IH. intros q. exact (H (S q)).
Qed.

(** The substitution keeps the text before the first match of the name
    pattern, drops the match and goes on after it. *)
Lemma sub_name_first (pre m post : str) :
  (forall q, q < length pre ->
             Re.name_here (skipn q (pre ++ m ++ post)) = None) ->
  Re.name_here (m ++ post) = Some (length m) ->
  Re.sub_name 0 (pre ++ m ++ post) = pre ++ Re.sub_name 0 post.
Proof.
  intros H M. induction pre as [|c pre IH].
  - cbn [app]. rewrite sub_name_equations.
    destruct (m ++ post) as [|c tl] eqn:E; [discriminate M|].
    rewrite M, <- E. f_equal. apply skipn_length_app.
  - cbn [app]. rewrite sub_name_equations.
    rewrite (H 0 (Nat.lt_0_succ _) : Re.name_here (c :: pre ++ m ++ post) = None).
    f_equal. apply IH. intros q Q. apply (H (S q)). simpl. lia.
Qed.

(** X22.  The scan records the object start-tags with a numeric id in
    order of appearance, without overlap, each with the text of the match
    and the digits of the first id found in it; and it records every such
    match of the object pattern that does not start inside another match.
    The content is gap, tag, gap, ..., tag, gap for the tags recorded, and
    the name-fix pass only replaces the tags: the tag of rank i, counted
    from the front, becomes, when i is below the length of the name list,
    the tag with the matches of the name pattern deleted and its last
    character replaced by a name attribute holding the name of index i and
    the closing bracket; a tag of higher rank is kept.  So names go by
    forward rank although the loop runs backwards, and everything outside
    the recorded tags, object tags without a numeric id included, stays as
    it is. *)
Theorem names_follow_forward_rank (content : str) (slot_names : list str) :
  placed 0 content (scan_objects content)
  /\ Forall (fun e => exists attrs,
                Re.object_here (skipn (entry_start e) content)
                = Some (entry_end e - entry_start e, attrs)
                /\ Re.search_id false attrs = Some (entry_id e))
            (scan_objects content)
  /\ (forall p len attrs oid,
         Re.object_here (skipn p content) = Some (len, attrs) ->
         Re.search_id false attrs = Some oid ->
         In (p, p + len, firstn len (skipn p content), oid)
            (scan_objects content)
         \/ exists q len' attrs',
              q < p < q + len'
              /\ Re.object_here (skipn q content) = Some (len', attrs'))
  /\ content
     = weave (gaps_between 0 content (scan_objects content))
             (map entry_tag (scan_objects content))
  /\ (exists renamed,
         fix_text content slot_names false
         = weave (gaps_between 0 content (scan_objects content)) renamed
         /\ length renamed = length (scan_objects content)
         /\ forall i,
              i < length (scan_objects content) ->
              nth i renamed []
              = if i <? length slot_names
                then removelast
                       (Re.sub_name 0
                          (nth i (map entry_tag (scan_objects content)) []))
                       ++ lit " name=" ++ [dq] ++ nth i slot_names []
                       ++ [dq] ++ lit ">"
                else nth i (map entry_tag (scan_objects content)) [])
  /\ (forall t, (forall q, Re.name_here (skipn q t) = None) ->
                Re.sub_name 0 t = t)
  /\ (forall pre m post,
         (forall q, q < length pre ->
                    Re.name_here (skipn q (pre ++ m ++ post)) = None) ->
         Re.name_here (m ++ post) = Some (length m) ->
         Re.sub_name 0 (pre ++ m ++ post) = pre ++ Re.sub_name 0 post).
Proof.
  destruct (scan_objects_placed content) as [P F].
  split; [exact P|]. split; [exact F|].
  split; [exact (scan_objects_complete content)|].
  split; [exact (content_weave content)|].
  split; [|split; [exact sub_name_nothing | exact sub_name_first]].
  exists (assign slot_names (map entry_tag (scan_objects content))).
  split; [|split].
  - unfold fix_text. cbn [andb]. apply rename_objects_weave.
  - rewrite assign_length. apply length_map.
  - intros i H. rewrite assign_nth by (rewrite length_map; exact H).
    reflexivity.
Qed.

Lemma names_follow_forward_rank_witness :
  map entry_id (scan_objects doc_ranks) = [lit "5"; lit "22"; lit "3"]
  /\ (exists renamed,
         fix_text doc_ranks [lit "Red"; lit "Blue"] false
         = weave (gaps_between 0 doc_ranks (scan_objects doc_ranks)) renamed
         /\ nth 0 renamed []
            = lit "<object id=" ++ quoted "5" ++ lit " type=" ++ quoted "model"
                ++ lit " name=" ++ quoted "Red" ++ lit ">"
         /\ nth 1 renamed []
            = lit "<OBJECT  id=" ++ quoted "22" ++ lit " name="
                ++ quoted "Blue" ++ lit ">"
         /\ nth 2 renamed [] = lit "<object id=" ++ quoted "3" ++ lit ">")
  /\ fix_text doc_ranks [lit "Red"; lit "Blue"] false = doc_ranks_fixed.
Proof.
  split; [vm_compute; reflexivity|]. split; [|vm_compute; reflexivity].
  destruct (names_follow_forward_rank doc_ranks [lit "Red"; lit "Blue"])
    as [_ [_ [_ [_ [[renamed [W [_ N]]] _]]]]].
  assert (L : length (scan_objects doc_ranks) = 3) by (vm_compute; reflexivity).
  exists renamed. split; [exact W|]. split; [|split].
  - rewrite (N 0) by (rewrite L; lia). vm_compute. reflexivity.
  - rewrite (N 1) by (rewrite L; lia). vm_compute. reflexivity.
  - rewrite (N 2) by (rewrite L; lia). vm_compute. reflexivity.
Defined.

(* ================================================================== *)
(** * The textual pass: the assembly and the build section *)
(* ================================================================== *)

Lemma fold_max_attained (l : list N) :
  forall acc, fold_left N.max l acc = acc \/ In (fold_left N.max l acc) l.
Proof.
  induction l as [|x l IH]; intros acc; cbn [fold_left]; [left; reflexivity|].
  destruct (IH (N.max acc x)) as [H|H].
  - rewrite H. destruct (N.max_spec acc x) as [[_ E]|[_ E]]; rewrite E.
    + right. left. reflexivity.
    + left. reflexivity.
  - right. right. exact H.
Qed.

(** The greatest id is the number of one of the ids. *)
Lemma max_id_attained (object_ids : list str) :
  object_ids <> [] ->
  exists top, In top object_ids /\ Str.int top = max_id object_ids.
Proof.
  intros NE. unfold max_id.
  destruct (fold_max_attained (map Str.int object_ids) 0%N) as [H|H].
  - destruct object_ids as [|oid rest]; [congruence|].
    exists oid. split; [left; reflexivity|].
    pose proof (max_id_ge (oid :: rest) oid (or_introl eq_refl)) as G.
    unfold max_id in G. rewrite H in *. lia.
  - apply in_map_iff in H. destruct H as [top [E I]].
    exists top. split; [exact I | exact E].
Qed.

Lemma first_occurrence_unique (sub s : str) (p q : nat) :
  first_occurrence sub s p -> first_occurrence sub s q -> p = q.
Proof.
  intros [P1 P2] [Q1 Q2]. pose proof (P2 _ Q1). pose proof (Q2 _ P1). lia.
Qed.

Lemma first_build_section_unique (s : str) (b e b' e' : nat) :
  first_build_section s b e -> first_build_section s b' e' ->
  b = b' /\ e = e'.
Proof.
  intros [B M] [B' M'].
  assert (E : b = b').
  { pose proof (M _ _ B'). pose proof (M' _ _ B). lia. }
  subst b'. split; [reflexivity|].
  destruct B as [_ [k [K ->]]]. destruct B' as [_ [k' [K' ->]]].
  rewrite (first_occurrence_unique _ _ _ _ K K'). reflexivity.
Qed.

(** X23.  With assembly synthesis requested, at least two object
    start-tags recorded and the literal closing resources tag present in
    the renamed text: the assembly id is one more than the greatest
    recorded id; the text written before the first closing resources tag is
    an object with that id, the type model and the name Lumina_Model,
    holding one component line per recorded id in the order of the scan; and
    in the text so assembled the leftmost build section written with the
    literal opening tag is replaced by a build section whose only item
    references the assembly id, the text being left as assembled when there
    is no such section. *)
Theorem assembly_inserted_and_referenced (content : str)
  (slot_names : list str) (p : nat) :
  2 <= length (scan_objects content) ->
  first_occurrence (lit "</resources>") (fix_text content slot_names false) p ->
  let object_ids := map entry_id (scan_objects content) in
  let renamed := fix_text content slot_names false in
  let assembly_id := Str.of_N (max_id object_ids + 1) in
  let assembled :=
    firstn p renamed
      ++ [nl] ++ lit "  <object id=" ++ [dq] ++ assembly_id ++ [dq]
      ++ lit " type=" ++ [dq] ++ lit "model" ++ [dq]
      ++ lit " name=" ++ [dq] ++ lit "Lumina_Model" ++ [dq] ++ lit ">" ++ [nl]
      ++ lit "    <components>" ++ [nl]
      ++ Str.join [nl]
           (map (fun oid => lit "      <component objectid=" ++ [dq] ++ oid
                              ++ [dq] ++ lit " />") object_ids) ++ [nl]
      ++ lit "    </components>" ++ [nl]
      ++ lit "  </object>" ++ [nl]
      ++ skipn p renamed in
  (forall oid, In oid object_ids -> (Str.int oid <= max_id object_ids)%N)
  /\ (exists top, In top object_ids /\ Str.int top = max_id object_ids)
  /\ (forall b e,
         first_build_section assembled b e ->
         fix_text content slot_names true
         = firstn b assembled
             ++ lit "<build>" ++ [nl]
             ++ lit "    <item objectid=" ++ [dq] ++ assembly_id ++ [dq]
             ++ lit " />" ++ [nl]
             ++ lit "  </build>"
             ++ skipn e assembled)
  /\ ((forall b e, ~ build_section assembled b e) ->
      fix_text content slot_names true = assembled).
Proof.
  intros L R object_ids renamed assembly_id assembled.
  split; [intros oid; apply max_id_ge|].
  split.
  { apply max_id_attained. unfold object_ids.
    destruct (scan_objects content); [simpl in L; lia | discriminate]. }
  assert (T : fix_text content slot_names true
              = rewrite_build (max_id object_ids + 1) assembled).
  { unfold fix_text. rewrite length_map.
    assert (E : (1 <? length (scan_objects content)) = true)
      by (apply Nat.ltb_lt; lia).
    rewrite E. cbn [andb]. cbv iota.
    unfold create_assembly_pass, insert_assembly.
    assert (F : Str.find (lit "</resources>")
                  (rename_objects slot_names (scan_objects content) content)
                = Some p).
    { apply find_Some. exact R. }
    rewrite F. unfold assembled, assembly_xml, components_xml.
    rewrite <- !app_assoc. reflexivity. }
  rewrite T. unfold rewrite_build.
  pose proof (search_build_spec assembled) as S.
  destruct (Re.search_build 0 assembled) as [[b0 e0]|].
  - split.
    + intros b e B. destruct (first_build_section_unique _ _ _ _ _ S B)
        as [-> ->].
      unfold new_build, assembly_id. rewrite <- !app_assoc. reflexivity.
    + intros H. exfalso. destruct S as [S _]. exact (H _ _ S).
  - split; [|reflexivity].
    intros b e [B _]. exfalso. exact (S _ _ B).
Qed.

Lemma assembly_inserted_and_referenced_witness :
  2 <= length (scan_objects (doc_two_objects "</resources>"))
  /\ first_occurrence (lit "</resources>")
       (fix_text (doc_two_objects "</resources>") [lit "Red"] false) 77
  /\ max_id (map entry_id (scan_objects (doc_two_objects "</resources>")))
     = 2%N
  /\ (exists top,
         In top (map entry_id (scan_objects (doc_two_objects "</resources>")))
         /\ Str.int top
            = max_id (map entry_id
                        (scan_objects (doc_two_objects "</resources>"))))
  /\ fix_text (doc_two_objects "</resources>") [lit "Red"] true
     = lit "<model><resources><object id=" ++ quoted "1" ++ lit " name="
         ++ quoted "Red" ++ lit "></object><object id=" ++ quoted "2"
         ++ lit "></object>"
         ++ [nl] ++ lit "  <object id=" ++ quoted "3" ++ lit " type="
         ++ quoted "model" ++ lit " name=" ++ quoted "Lumina_Model"
         ++ lit ">" ++ [nl]
         ++ lit "    <components>" ++ [nl]
         ++ lit "      <component objectid=" ++ quoted "1" ++ lit " />" ++ [nl]
         ++ lit "      <component objectid=" ++ quoted "2" ++ lit " />" ++ [nl]
         ++ lit "    </components>" ++ [nl]
         ++ lit "  </object>" ++ [nl]
         ++ lit "</resources><build>" ++ [nl]
         ++ lit "    <item objectid=" ++ quoted "3" ++ lit " />" ++ [nl]
         ++ lit "  </build></model>".
Proof.
  assert (L : 2 <= length (scan_objects (doc_two_objects "</resources>")))
    by (vm_compute; lia).
  assert (R : first_occurrence (lit "</resources>")
                (fix_text (doc_two_objects "</resources>") [lit "Red"] false)
                77)
    by (apply find_Some; vm_compute; reflexivity).
  split; [exact L|]. split; [exact R|].
  split; [vm_compute; reflexivity|].
  pose proof (assembly_inserted_and_referenced
                (doc_two_objects "</resources>") [lit "Red"] 77 L R)
    as [_ [T [B _]]].
  split; [exact T|].
  specialize (B 254 309).
  match type of B with
  | first_build_section ?assembled _ _ -> _ =>
      assert (S : first_build_section assembled 254 309);
        [ pose proof (search_build_spec assembled) as S;
          assert (E : Re.search_build 0 assembled = Some (254, 309))
            by (vm_compute; reflexivity);
          rewrite E in S; exact S |]
  end.
  rewrite (B S). vm_compute. reflexivity.
Defined.
